(** * open-tacos: presentation helpers and the Sirv media client

    A shallow embedding of two source files of the repository:

    - the helper module ([computeClimbingPercentsAndColors],
      [sanitizeName], [simplifyClimbTypeJson], [disciplineArrayToObj],
      [checkUsername], [getSlug], [urlResolver]), embedded in
      [Module Helper];
    - [src/js/sirv/SirvClient.ts], embedded in [Module Sirv].

    JavaScript numbers are IEEE 754 binary64 values; they are modelled by
    Rocq's primitive floats, which are the same format, and what is proved
    about their values goes through the specification of the primitive
    floats ([Prim2SF] and the operations of [SpecFloat]); [Module Rounding]
    has the vocabulary of those statements.  JavaScript strings are
    modelled by [string]; a character stands for one code unit below
    256. *)

From Stdlib Require Import List String Ascii Bool Arith ZArith Reals Floats Lia Lra.
From Stdlib Require Import DecimalString.
Import ListNotations.

Local Open Scope list_scope.
Local Open Scope string_scope.

(* ===================================================================== *)
(** * The helper module *)
(* ===================================================================== *)

Module Helper.

(** ** Numbers

    [computeClimbingPercentsAndColors] only uses [+], [/] and [*] and the
    literals [0], [1] and [100].  The function is written over these
    operations, and [binary64] is the arithmetic the program runs with:
    what is proved for every [Arith] holds for the program. *)

Record Arith : Type := {
  num : Type;
  zero : num;
  one : num;
  hundred : num;
  add : num -> num -> num;
  div : num -> num -> num;
  mul : num -> num -> num
}.

Definition binary64 : Arith := {|
  num := float;
  zero := 0%float;
  one := 1%float;
  hundred := 100%float;
  add := PrimFloat.add;
  div := PrimFloat.div;
  mul := PrimFloat.mul
|}.

(** ** Data model *)

(** [ClimbDisciplineRecord]: an object from discipline name to flag, read
    through [Object.entries], that is as the list of its entries in
    property order. *)
Definition ClimbDisciplineRecord : Type := list (string * bool).

(** [Climb]; only the [type] field is read here. *)
Record Climb : Type := { type : ClimbDisciplineRecord }.

Section Aggregation.

Variable A : Arith.

(** [ClimbTypeToColor] comes from the constants module; a missing key
    reads as [undefined] ([None]). *)
Variable ClimbTypeToColor : string -> option string.

(** [typeToCount : {[key: string]: number}].  Discipline names are neither
    array indices nor names of [Object.prototype], so the object enumerates
    its keys in insertion order and a key that was never assigned reads as
    [undefined]: an association list with new keys appended. *)
Definition Counter : Type := list (string * num A).

(** [acc[key]] *)
Fixpoint lookup (key : string) (acc : Counter) : option (num A) :=
  match acc with
  | [] => None
  | (k, c) :: rest => if String.eqb k key then Some c else lookup key rest
  end.

(** [acc[key] = v] *)
Fixpoint assign (key : string) (v : num A) (acc : Counter) : Counter :=
  match acc with
  | [] => [(key, v)]
  | (k, c) :: rest =>
      if String.eqb k key then (k, v) :: rest else (k, c) :: assign key v rest
  end.

(** The callback of [reduce] (lines 33-41). *)
Definition countDiscipline (acc : Counter) (entry : string * bool) : Counter :=
  let (key, discipline) := entry in
  if negb discipline then acc
  else match lookup key acc with
       | Some c => assign key (add A c (one A)) acc
       | None => assign key (one A) acc
       end.

(** [climbs.forEach(...)] on the shared [typeToCount] object (lines 28-42). *)
Definition typeToCount (climbs : list Climb) : Counter :=
  fold_left (fun acc climb => fold_left countDiscipline (type climb) acc)
            climbs [].

Record PercentAndColor : Type := {
  percents : list (num A);
  colors : list (option string)
}.

(** Lines 43-55. *)
Definition computeClimbingPercentsAndColors (climbs : list Climb)
  : PercentAndColor :=
  let typeToCount := typeToCount climbs in
  let counts := map snd typeToCount in
  let reducer := fun accumulator currentValue => add A accumulator currentValue in
  let totalClimbs := fold_left reducer counts (zero A) in
  {| percents := map (fun count => mul A (div A count totalClimbs) (hundred A)) counts;
     colors := map (fun key => ClimbTypeToColor key) (map fst typeToCount) |}.

End Aggregation.

Arguments percents {A}.
Arguments colors {A}.

(** The sum of a list of numbers, left to right from [0]. *)
Definition total (A : Arith) (l : list (num A)) : num A :=
  fold_left (add A) l (zero A).

(** A record has a true discipline flag. *)
Definition hasTrueFlag (climb : Climb) : Prop :=
  exists key, In (key, true) (type climb).

(** The number of true flags of a collection. *)
Definition trueFlags (climbs : list Climb) : nat :=
  list_sum (map (fun climb => List.length (filter snd (type climb))) climbs).

(** ** The name sanitizer

    [sanitizeName] is one [String.prototype.replace] with a regular
    expression without flags and the empty replacement.  The matcher below
    is the backtracking matcher of the language for the constructs the
    pattern uses: alternatives are tried left to right, quantifiers are
    greedy, and the first position from the left at which the pattern
    matches is the one replaced. *)

Inductive regex : Type :=
| Bol                               (* ^ *)
| Cls (p : ascii -> bool)           (* one character of a class *)
| Seq (r1 r2 : regex)
| Alt (r1 r2 : regex)               (* r1|r2 *)
| Rep (r : regex) (lo : nat) (hi : option nat).   (* r{lo,hi}, greedy *)

Definition below (hi : option nat) (cnt : nat) : bool :=
  match hi with
  | Some h => (cnt <? h)%nat
  | None => true
  end.

(** [run r bol s k]: match [r] at the front of [s], then continue with [k]
    on what is left; [bol] tells whether the position is the start of the
    input.  The result is the first success in backtracking order. *)
Fixpoint run (r : regex) (bol : bool) (s : string)
             (k : bool -> string -> option string) : option string :=
  match r with
  | Bol => if bol then k bol s else None
  | Cls p =>
      match s with
      | String c s' => if p c then k false s' else None
      | EmptyString => None
      end
  | Seq r1 r2 => run r1 bol s (fun b s' => run r2 b s' k)
  | Alt r1 r2 =>
      match run r1 bol s k with
      | Some x => Some x
      | None => run r2 bol s k
      end
  | Rep r1 lo hi =>
      (fix loop (fuel cnt : nat) (bol : bool) (s : string) : option string :=
         let stop := if (lo <=? cnt)%nat then k bol s else None in
         match fuel with
         | O => stop
         | S fuel' =>
             if below hi cnt then
               match run r1 bol s
                       (fun b s' =>
                          if (String.length s' <? String.length s)%nat
                          then loop fuel' (S cnt) b s' else None) with
               | Some x => Some x
               | None => stop
               end
             else stop
         end) (String.length s) O bol s
  end.

(** The leftmost match: the text before it and the text after it. *)
Fixpoint search (r : regex) (bol : bool) (s : string) : option (string * string) :=
  match run r bol s (fun _ rest => Some rest) with
  | Some rest => Some ("", rest)
  | None =>
      match s with
      | EmptyString => None
      | String c s' =>
          match search r false s' with
          | Some (pre, rest) => Some (String c pre, rest)
          | None => None
          end
      end
  end.

(** [s.replace(r, '')] for a pattern without the [g] flag. *)
Definition replaceFirst (r : regex) (s : string) : string :=
  match search r true s with
  | Some (pre, rest) => pre ++ rest
  | None => s
  end.

Definition chr (c : ascii) : regex := Cls (Ascii.eqb c).

Definition between (lo hi : N) (c : ascii) : bool :=
  let n := N_of_ascii c in (lo <=? n)%N && (n <=? hi)%N.

(** [.] : any character but a line terminator *)
Definition dot (c : ascii) : bool :=
  negb (N.eqb (N_of_ascii c) 10 || N.eqb (N_of_ascii c) 13).
(** [\d] *)
Definition digit : ascii -> bool := between 48 57.
(** [[1-9]] *)
Definition digit19 : ascii -> bool := between 49 57.
(** [[a-zA-Z]] *)
Definition letter (c : ascii) : bool := between 97 122 c || between 65 90 c.
(** [[-:]] *)
Definition dashColon (c : ascii) : bool := Ascii.eqb c "-" || Ascii.eqb c ":".

(** The pattern of [sanitizeName] has three alternatives: an opening
    parenthesis, one to three characters, a closing parenthesis and any
    number of spaces, anchored by [^]; one of [\d?[1-9]] and [[1-9]0]
    followed by one of [-:]; one or two letters followed by a dot.  The
    alternation binds weaker than the sequence, so [^] belongs to the first
    alternative only. *)
Definition parenCode : regex :=
  Seq Bol (Seq (chr "(") (Seq (Rep (Cls dot) 1 (Some 3))
                              (Seq (chr ")") (Rep (chr " ") 0 None)))).
Definition numberPrefix : regex :=
  Seq (Alt (Seq (Rep (Cls digit) 0 (Some 1)) (Cls digit19))
           (Seq (Cls digit19) (chr "0")))
      (Cls dashColon).
Definition abbreviation : regex :=
  Seq (Rep (Cls letter) 1 (Some 2)) (chr ".").

Definition sanitizePattern : regex :=
  Alt parenCode (Alt numberPrefix abbreviation).

(** Lines 99-100. *)
Definition sanitizeName (s : string) : string :=
  replaceFirst sanitizePattern s.

(** ** What a pattern matches

    [Matches r bol w bol']: the pattern [r], started at a position that is
    the start of the input exactly when [bol] holds, can match the word
    [w]; [bol'] tells whether the position after [w] is still the start of
    the input.  A repetition iterates over words that are not empty. *)

Inductive Iter (R : bool -> string -> bool -> Prop)
  : nat -> bool -> string -> bool -> Prop :=
| IterO (b : bool) : Iter R 0 b "" b
| IterS (n : nat) (b b1 b2 : bool) (w1 w2 : string) :
    w1 <> "" -> R b w1 b1 -> Iter R n b1 w2 b2 ->
    Iter R (S n) b (w1 ++ w2) b2.

Fixpoint Matches (r : regex) (bol : bool) (w : string) (bol' : bool) : Prop :=
  match r with
  | Bol => bol = true /\ w = "" /\ bol' = true
  | Cls p => exists c, w = String c "" /\ p c = true /\ bol' = false
  | Seq r1 r2 =>
      exists w1 w2 b1,
        w = w1 ++ w2 /\ Matches r1 bol w1 b1 /\ Matches r2 b1 w2 bol'
  | Alt r1 r2 => Matches r1 bol w bol' \/ Matches r2 bol w bol'
  | Rep r1 lo hi =>
      exists n,
        (lo <= n)%nat /\
        match hi with Some h => (n <= h)%nat | None => True end /\
        Iter (Matches r1) n bol w bol'
  end.

(** The upper bound of a repetition. *)
Definition within (hi : option nat) (n : nat) : Prop :=
  match hi with Some h => (n <= h)%nat | None => True end.

(** The loop of [run] at a repetition, as a function of its own. *)
Fixpoint repLoop (step : bool -> string -> (bool -> string -> option string)
                         -> option string)
                 (lo : nat) (hi : option nat)
                 (k : bool -> string -> option string)
                 (fuel cnt : nat) (bol : bool) (s : string) : option string :=
  let stop := if (lo <=? cnt)%nat then k bol s else None in
  match fuel with
  | O => stop
  | S fuel' =>
      if below hi cnt then
        match step bol s
                (fun b s' =>
                   if (String.length s' <? String.length s)%nat
                   then repLoop step lo hi k fuel' (S cnt) b s' else None) with
        | Some x => Some x
        | None => stop
        end
      else stop
  end.

(** [search] with the continuation of the match as a parameter: a pattern
    that ends with [$] is its body with the continuation [atEnd]. *)
Fixpoint searchWith (r : regex) (k : bool -> string -> option string)
                    (bol : bool) (s : string) : option (string * string) :=
  match run r bol s k with
  | Some rest => Some ("", rest)
  | None =>
      match s with
      | EmptyString => None
      | String c s' =>
          match searchWith r k false s' with
          | Some (pre, rest) => Some (String c pre, rest)
          | None => None
          end
      end
  end.

(** Whether the position after the prefix [pre] is the start of the
    input, when the position before it is so exactly when [bol] holds. *)
Definition startFlag (bol : bool) (pre : string) : bool :=
  match pre with
  | EmptyString => bol
  | String _ _ => false
  end.

(** [$] without the [m] flag: the end of the input. *)
Definition atEnd (_ : bool) (rest : string) : option string :=
  match rest with
  | EmptyString => Some rest
  | String _ _ => None
  end.

(** [r.test(s)] for a pattern without the [g] flag. *)
Definition test (r : regex) (s : string) : bool :=
  match search r true s with
  | Some _ => true
  | None => false
  end.

(** [r.test(s)] for the pattern [r] followed by [$]. *)
Definition testToEnd (r : regex) (s : string) : bool :=
  match searchWith r atEnd true s with
  | Some _ => true
  | None => false
  end.

(** ** The username check *)

(** [[a-zA-Z0-9]] *)
Definition alnum (c : ascii) : bool := letter c || digit c.
(** [[_\\.-]]: underscore, backslash, dot, hyphen *)
Definition separator (c : ascii) : bool :=
  Ascii.eqb c "_" || Ascii.eqb c "\" || Ascii.eqb c "." || Ascii.eqb c "-".

(** Line 151 without its final [$]: [^], one or more of [[a-zA-Z0-9]], then
    any number of groups of an optional separator and one of
    [[a-zA-Z0-9]].  The flag [i] changes nothing: the letter class has both
    cases already and no other code unit below 256 folds to a character of
    the two classes. *)
Definition regUsername : regex :=
  Seq Bol
      (Seq (Rep (Cls alnum) 1 None)
           (Rep (Seq (Rep (Cls separator) 0 (Some 1)) (Cls alnum)) 0 None)).

(** The case folding of the flag [i] on code units below 256: the letters
    [A] to [Z] fold to [a] to [z]. *)
Definition foldCase (c : ascii) : ascii :=
  if between 65 90 c then ascii_of_N (N_of_ascii c + 32) else c.

(** One literal character under the flag [i]. *)
Definition ci (c : ascii) : regex :=
  Cls (fun d => Ascii.eqb (foldCase d) (foldCase c)).

(** A literal word under the flag [i], given by its first character and
    the rest. *)
Fixpoint word (c : ascii) (rest : string) : regex :=
  match rest with
  | EmptyString => ci c
  | String d rest' => Seq (ci c) (word d rest')
  end.

(** Line 152: [/openbeta|0penbeta|admin/i]. *)
Definition regUsernameKeywords : regex :=
  Alt (word "o" "penbeta") (Alt (word "0" "penbeta") (word "a" "dmin")).

(** Lines 162-166; a [null] or [undefined] argument is [None]. *)
Definition checkUsername (uid : option string) : bool :=
  match uid with
  | None => false
  | Some uid =>
      (String.length uid <=? 30)%nat
      && negb (test regUsernameKeywords uid)
      && testToEnd regUsername uid
  end.

(** The shape of an accepted username, read from left to right:
    [tailShape afterSeparator s] accepts the rest [s] of a name. *)
Fixpoint tailShape (afterSeparator : bool) (s : string) : bool :=
  match s with
  | EmptyString => negb afterSeparator
  | String c s' =>
      if alnum c then tailShape false s'
      else if separator c then negb afterSeparator && tailShape true s'
      else false
  end.

Definition usernameShape (s : string) : bool :=
  match s with
  | EmptyString => false
  | String c s' => alnum c && tailShape false s'
  end.

(** Two strings equal up to the case of the letters [A] to [Z]. *)
Fixpoint sameIgnoringCase (u v : string) : bool :=
  match u, v with
  | EmptyString, EmptyString => true
  | String c u', String d v' =>
      Ascii.eqb (foldCase c) (foldCase d) && sameIgnoringCase u' v'
  | _, _ => false
  end.

(** One of the three reserved words, in any case of its letters. *)
Definition isKeyword (w : string) : bool :=
  sameIgnoringCase w "openbeta" || sameIgnoringCase w "0penbeta"
  || sameIgnoringCase w "admin".

(** One of the four characters a match of the pattern of [sanitizeName]
    cannot do without: a closing parenthesis, a hyphen, a colon, a dot. *)
Definition decorative (c : ascii) : bool :=
  Ascii.eqb c ")" || Ascii.eqb c "-" || Ascii.eqb c ":" || Ascii.eqb c ".".

(** The string without its leading spaces. *)
Fixpoint dropSpaces (s : string) : string :=
  match s with
  | EmptyString => EmptyString
  | String c s' => if Ascii.eqb " " c then dropSpaces s' else s
  end.

Fixpoint allChars (p : ascii -> bool) (s : string) : bool :=
  match s with
  | EmptyString => true
  | String c s' => p c && allChars p s'
  end.

(** The continuation of [search]: the match ends here. *)
Definition keepRest : bool -> string -> option string :=
  fun _ rest => Some rest.

(** What follows the code in the first alternative of the pattern of
    [sanitizeName]: the closing parenthesis and the spaces. *)
Definition afterCode : bool -> string -> option string :=
  fun b s => run (Seq (chr ")") (Rep (chr " ") 0 None)) b s keepRest.

Fixpoint anyChar (p : ascii -> bool) (s : string) : bool :=
  match s with
  | EmptyString => false
  | String c s' => p c || anyChar p s'
  end.

(** ** Discipline records as objects

    [simplifyClimbTypeJson] changes the object it is given and returns it.
    Objects live in a store and are passed by reference: an address is an
    index of the store. *)

Definition Store : Type := list ClimbDisciplineRecord.

Definition deref (a : nat) (store : Store) : ClimbDisciplineRecord :=
  nth a store [].

Fixpoint update (a : nat) (o : ClimbDisciplineRecord) (store : Store) : Store :=
  match store, a with
  | [], _ => []
  | _ :: rest, O => o :: rest
  | x :: rest, S a' => x :: update a' o rest
  end.

(** [type[key]] *)
Fixpoint readKey (key : string) (o : ClimbDisciplineRecord) : option bool :=
  match o with
  | [] => None
  | (k, v) :: rest => if String.eqb k key then Some v else readKey key rest
  end.

(** [delete type[key]] *)
Definition deleteKey (key : string) (o : ClimbDisciplineRecord)
  : ClimbDisciplineRecord :=
  filter (fun e => negb (String.eqb (fst e) key)) o.

(** The body of the [for ... in] loop (lines 110-113). *)
Definition dropIfFalse (o : ClimbDisciplineRecord) (key : string)
  : ClimbDisciplineRecord :=
  match readKey key o with
  | Some false => deleteKey key o
  | _ => o
  end.

(** Lines 109-114: the loop visits the keys the object has when the loop
    starts; a visit deletes nothing but the key visited. *)
Definition simplifyLoop (o : ClimbDisciplineRecord) : ClimbDisciplineRecord :=
  fold_left dropIfFalse (map fst o) o.

(** Lines 107-116.  With [undefined] the result is a new empty object;
    otherwise it is the argument, changed in place. *)
Definition simplifyClimbTypeJson (type : option nat) (store : Store)
  : nat * Store :=
  match type with
  | None => (List.length store, (store ++ [[]])%list)
  | Some a => (a, update a (simplifyLoop (deref a store)) store)
  end.

(** [acc[curr] = true] *)
Fixpoint setTrue (key : string) (o : ClimbDisciplineRecord)
  : ClimbDisciplineRecord :=
  match o with
  | [] => [(key, true)]
  | (k, v) :: rest =>
      if String.eqb k key then (k, true) :: rest else (k, v) :: setTrue key rest
  end.

(** Lines 142-149. *)
Definition disciplineArrayToObj (types : list string) : ClimbDisciplineRecord :=
  let z := fold_left (fun acc curr => setTrue curr acc) types [] in
  z.

(** ** Routes *)

(** Lines 118-121. *)
Definition getSlug (areaID : string) (isLeaf : bool) : string :=
  let type := if isLeaf then "crag" else "areas" in
  "/" ++ type ++ "/" ++ areaID.

(** Lines 203-214; [case] compares with [===], which on numbers is the
    equality of binary64. *)
Definition urlResolver (type : float) (dest : string) : option string :=
  if PrimFloat.eqb type 0 then Some ("/climbs/" ++ dest)
  else if PrimFloat.eqb type 1 then Some ("/areas/" ++ dest)
  else if PrimFloat.eqb type 3 then Some ("/u/" ++ dest)
  else None.

(** The count the program reaches after [n] increments from the first
    assignment [1]. *)
Fixpoint countAfter (A : Arith) (n : nat) : num A :=
  match n with
  | O => one A
  | S n' => add A (countAfter A n') (one A)
  end.

(** One more true flag of a discipline: what lines 35-39 do to the count. *)
Definition bump (A : Arith) (c : option (num A)) : option (num A) :=
  match c with
  | None => Some (one A)
  | Some c => Some (add A c (one A))
  end.

(** The number of true flags of the discipline [key] in a collection. *)
Definition flagsOf (key : string) (climbs : list Climb) : nat :=
  list_sum (map (fun climb =>
                   List.length (filter (fun e => String.eqb (fst e) key && snd e)
                                       (type climb)))
                climbs).

(** The count the program has for the discipline [key]: the first [1] and
    one increment for each further true flag. *)
Definition countOf (A : Arith) (climbs : list Climb) (key : string) : num A :=
  countAfter A (pred (flagsOf key climbs)).

(** The disciplines of the true flags of a collection, in the order the
    flags are met: record by record, entry by entry. *)
Definition flagged (climbs : list Climb) : list string :=
  flat_map (fun climb => map fst (filter snd (type climb))) climbs.

(** A list of keys with one more key, added at the end unless it is there. *)
Definition addKey (keys : list string) (key : string) : list string :=
  if existsb (String.eqb key) keys then keys else (keys ++ [key])%list.

(** The disciplines with a true flag, each once, in the order of their
    first true flag. *)
Definition disciplinesInOrder (climbs : list Climb) : list string :=
  fold_left addKey (flagged climbs) [].

End Helper.

(* ===================================================================== *)
(** * The values of binary64 numbers *)
(* ===================================================================== *)

(** What the statements about the arithmetic of the program are written
    with: the real value of a binary64 number, read through the
    specification [Prim2SF] of the primitive floats, and the distance that
    roundings leave between a computed number and the exact one. *)
Module Rounding.

Local Open Scope R_scope.

(** The power of two of an integer exponent. *)
Definition bpow (e : Z) : R := powerRZ 2 e.

(** Half the distance between [1] and the next binary64 number: the
    largest relative error of one rounding to nearest. *)
Definition unitRoundoff : R := bpow (-53).

(** A mantissa with its round and sticky bits, as the specification of
    rounding keeps it, and the real number [y] it stands for: [y] is the
    mantissa, or between it and the half, or the half, or above the half. *)
Definition Loc (mrs : shr_record) (y : R) : Prop :=
  match shr_r mrs, shr_s mrs with
  | false, false => y = IZR (shr_m mrs)
  | false, true => IZR (shr_m mrs) < y < IZR (shr_m mrs) + / 2
  | true, false => y = IZR (shr_m mrs) + / 2
  | true, true => IZR (shr_m mrs) + / 2 < y < IZR (shr_m mrs) + 1
  end.

(** [f] is a finite number above zero whose value is [v]. *)
Definition hasValue (f : float) (v : R) : Prop :=
  exists m e, Prim2SF f = S754_finite false m e /\ v = IZR (Zpos m) * bpow e.

(** One rounding at most divides by this. *)
Definition rho : R := 1 - unitRoundoff.

(** [a] is [x] up to [k] roundings. *)
Definition approx (k : nat) (a x : R) : Prop :=
  0 < x /\ x * rho ^ k <= a /\ a * rho ^ k <= x.

(** The sum of a list of real numbers. *)
Fixpoint Rsum (l : list R) : R :=
  match l with
  | [] => 0
  | x :: l => x + Rsum l
  end.

(** A term of a sum: a finite number above zero that is [E] up to [K]
    roundings, with [E] between [lo] and [hi]. *)
Definition Term (K : nat) (lo hi : R) (p : float) (E : R) : Prop :=
  exists P, hasValue p P /\ approx K P E /\ lo <= E <= hi.

End Rounding.

(* ===================================================================== *)
(** * The Sirv client *)
(* ===================================================================== *)

Module Sirv.

(** ** Values and records *)

(** A value of the remote service's JSON that the client passes through
    without looking into it (times, content type, metadata). *)
#[local] Set Warnings "-register-all".
Inductive JsVal : Type :=
| JsUndefined
| JsNull
| JsBool (b : bool)
| JsNumber (n : Z)
| JsString (s : string)
| JsObject (props : list (string * JsVal)).
#[local] Set Warnings "register-all".

(** [v.key] on a value that is neither [undefined] nor [null]. *)
Definition getProp (key : string) (v : JsVal) : JsVal :=
  match v with
  | JsObject props =>
      match find (fun p => String.eqb (fst p) key) props with
      | Some (_, x) => x
      | None => JsUndefined
      end
  | _ => JsUndefined
  end.

(** [SIRV_CONFIG] (lines 11-17); [null] is [None]. *)
Record SirvConfig : Type := {
  clientId : option string;
  clientSecret : option string;
  clientAdminId : option string;
  clientAdminSecret : option string;
  baseUrl : string
}.

(** [TokenParamsType] (lines 32-35), fields [clientId] and [clientSecret]. *)
Record TokenParamsType : Type := {
  tokenClientId : option string;
  tokenClientSecret : option string
}.

(** [MediaType], as the client builds it. *)
Record MediaType : Type := {
  ownerId : string;
  filename : string;
  mediaId : string;
  ctime : JsVal;
  mtime : JsVal;
  contentType : JsVal;
  meta : JsVal
}.

(** [entry._source] of a search hit: fields [filename], [ctime], [mtime],
    [contentType], [meta]. *)
Record Source : Type := {
  srcFilename : string;
  srcCtime : JsVal;
  srcMtime : JsVal;
  srcContentType : JsVal;
  srcMeta : JsVal
}.

Record Hit : Type := { _source : Source }.

(** ** Requests and responses *)

Inductive Method : Type := GET | POST.

(** The request bodies the client sends. *)
Inductive Body : Type :=
| NoBody                                           (* a GET request *)
| NullBody                                         (* null *)
| EmptyBody                                        (* {} *)
| TokenBody (params : TokenParamsType)
| SearchBody (query : string) (sort : option (string * string)) (size : Z)
| BufferBody (imageData : string)
| UidBody (uid : string) (ts : Z).

Record Request : Type := {
  method : Method;
  url : string;
  body : Body;
  reqHeaders : list (string * string)
}.

(** [undefined] or [null] *)
Definition nullish (v : JsVal) : bool :=
  match v with
  | JsUndefined | JsNull => true
  | _ => false
  end.

(** [res.data]: an object, by the fields the client reads ([token], [hits],
    with [None] for a value that is not an array, and the fields of a
    stat), or any other value [v], which has none of these fields and may
    be [undefined] or [null]. *)
Inductive Data : Type :=
| TokenData (token : option string)
| SearchData (hits : option (list Hit))
| StatData (ctime mtime contentType meta : JsVal)
| OtherData (v : JsVal).

(** The body is [undefined] or [null]. *)
Definition nullBody (d : Data) : bool :=
  match d with OtherData v => nullish v | _ => false end.

(** The field [token] of a body; a body without the field has
    [undefined]. *)
Definition dataToken (d : Data) : option string :=
  match d with TokenData t => t | _ => None end.

(** The field [hits] of a body, when it is an array. *)
Definition dataHits (d : Data) : option (list Hit) :=
  match d with SearchData h => h | _ => None end.

(** The fields [ctime], [mtime], [contentType] and [meta] of a body, each
    [undefined] when the body has none. *)
Definition dataStat (d : Data) : JsVal * JsVal * JsVal * JsVal :=
  match d with
  | StatData c m t x => (c, m, t, x)
  | _ => (JsUndefined, JsUndefined, JsUndefined, JsUndefined)
  end.

Record Response : Type := {
  status : Z;
  statusText : string;
  data : Data
}.

(** What can be thrown: [new Error(message)], a [TypeError] of the
    language (its message is the engine's and is not modelled), and the
    rejection of the transport ([responseStatus] is [e.response.status]
    when the error carries a response). *)
Inductive Exn : Type :=
| Error (message : string)
| TypeError
| TransportError (responseStatus : option Z).

Inductive Outcome : Type :=
| Resolves (res : Response)
| Rejects (e : Exn).

(** What the remote end does with a request: it answers, or the request
    fails without an answer. *)
Inductive Answer : Type :=
| Responds (res : Response)
| NoResponse.

(** ** Effects

    An [async] function is a computation over the world: the requests
    sent so far and the console.  [await] is sequencing; a rejected promise
    is a thrown exception.  The world is kept when an exception is thrown. *)

Inductive LogArg : Type :=
| LogString (s : string)
| LogNumber (n : Z)
| LogExn (e : Exn)
| LogData (d : Data).

Record World : Type := {
  sent : list Request;
  console : list (list LogArg)
}.

Inductive Result (A : Type) : Type :=
| Ok (a : A)
| Throw (e : Exn).
Arguments Ok {A} a.
Arguments Throw {A} e.

Definition M (A : Type) : Type := World -> Result A * World.

Definition ret {A : Type} (a : A) : M A := fun w => (Ok a, w).

Definition throw {A : Type} (e : Exn) : M A := fun w => (Throw e, w).

Definition bind {A B : Type} (m : M A) (f : A -> M B) : M B :=
  fun w =>
    match m w with
    | (Ok a, w') => f a w'
    | (Throw e, w') => (Throw e, w')
    end.

(** [try { m } catch (e) { handler e }] *)
Definition tryCatch {A : Type} (m : M A) (handler : Exn -> M A) : M A :=
  fun w =>
    match m w with
    | (Ok a, w') => (Ok a, w')
    | (Throw e, w') => handler e w'
    end.

(** A result that is computed without effects, lifted. *)
Definition lift {A : Type} (r : Result A) : M A := fun w => (r, w).

(** [res.data.token], [res.data.hits] and the destructuring of [res.data]:
    reading a property of [undefined] or [null] throws a [TypeError]. *)
Definition readToken (d : Data) : Result (option string) :=
  if nullBody d then Throw TypeError else Ok (dataToken d).

Definition readHits (d : Data) : Result (option (list Hit)) :=
  if nullBody d then Throw TypeError else Ok (dataHits d).

Definition readStat (d : Data) : Result (JsVal * JsVal * JsVal * JsVal) :=
  if nullBody d then Throw TypeError else Ok (dataStat d).

(** The condition of lines 111 and 167,
    [res.status === 200 && Array.isArray(res.data.hits)], with the array
    when it holds: [res.data.hits] is read only when the status is 200. *)
Definition hitsOf (res : Response) : Result (option (list Hit)) :=
  if (status res =? 200)%Z then readHits (data res) else Ok None.

Declare Scope sirv_scope.
Delimit Scope sirv_scope with sirv.
Notation "x <- m ;; k" := (bind m (fun x => k))
  (at level 61, m at next level, right associativity) : sirv_scope.
Notation "m ;; k" := (bind m (fun _ => k))
  (at level 61, right associativity) : sirv_scope.
Local Open Scope sirv_scope.

(** [console.log(...args)] *)
Definition console_log (args : list LogArg) : M unit :=
  fun w => (Ok tt, {| sent := sent w; console := (console w ++ [args])%list |}).

(** [`${n}`] for an integer [n] *)
Definition numberToString (n : Z) : string :=
  NilZero.string_of_int (Z.to_int n).

(** [s.replace(/\//g, r)]: every slash replaced by [r]. *)
Fixpoint replaceSlashes (r : string) (s : string) : string :=
  match s with
  | EmptyString => EmptyString
  | String c s' =>
      if Ascii.eqb c "/" then r ++ replaceSlashes r s'
      else String c (replaceSlashes r s')
  end.

(** [list.join(sep)]; [null] joins as the empty string. *)
Fixpoint join (sep : string) (l : list (option string)) : string :=
  match l with
  | [] => ""
  | [x] => match x with Some s => s | None => "" end
  | x :: rest =>
      match x with Some s => s | None => "" end ++ sep ++ join sep rest
  end.

Section Client.

(** The process configuration, read once. *)
Variable SIRV_CONFIG : SirvConfig.

(** The remote end behind [axios]: what the request resolves to, given the
    requests sent before it. *)
Variable transport : list Request -> Request -> Outcome.

(** [Date.now()] *)
Variable Date_now : World -> Z.

(** [uuidv5(name, namespace)] and [uuidv5.URL] of the uuid package. *)
Variable uuidv5 : string -> string -> string.
Variable uuidv5_URL : string.

(** [basename] of the path package ([None] for a nullish result) and the
    string functions of the language. *)
Variable basename : string -> option string.
Variable trim : string -> string.
Variable encodeURIComponent : string -> string.
Variable toLowerCase : string -> string.

(** Line 19. *)
Definition userHomeFromUuid (uuid : string) : string :=
  baseUrl SIRV_CONFIG ++ "/u/" ++ uuid.

(** [client.post(url, body, {headers})] and [client.get(url, {headers})]:
    the request is recorded as sent, then resolves or rejects.  The
    defaults of the [axios] instance (lines 21-26: the base URL and the
    content type) are the same for every request and are left out. *)
Definition send (r : Request) : M Response :=
  fun w =>
    let w' := {| sent := (sent w ++ [r])%list; console := console w |} in
    match transport (sent w) r with
    | Resolves res => (Ok res, w')
    | Rejects e => (Throw e, w')
    end.

Definition client_post (url : string) (body : Body)
                       (headers : list (string * string)) : M Response :=
  send {| method := POST; url := url; body := body; reqHeaders := headers |}.

Definition client_get (url : string) (headers : list (string * string))
  : M Response :=
  send {| method := GET; url := url; body := NoBody; reqHeaders := headers |}.

(** Lines 28-30. *)
Definition headers : list (string * string) :=
  [("content-type", "application/json")].

(** [{...headers, Authorization: `bearer ${_t}`}] *)
Definition withBearer (_t : string) : list (string * string) :=
  (headers ++ [("Authorization", ("bearer " ++ _t)%string)])%list.

(** Lines 37-38. *)
Definition _validateTokenParams (params : TokenParamsType) : bool :=
  match tokenClientId params, tokenClientSecret params with
  | Some _, Some _ => true
  | _, _ => false
  end.

(** Lines 41-49: the credential pair of the privilege. *)
Definition tokenParams (isAdmin : bool) : TokenParamsType :=
  if isAdmin
  then {| tokenClientId := clientAdminId SIRV_CONFIG;
          tokenClientSecret := clientAdminSecret SIRV_CONFIG |}
  else {| tokenClientId := clientId SIRV_CONFIG;
          tokenClientSecret := clientSecret SIRV_CONFIG |}.

(** Lines 40-63. *)
Definition getToken (isAdmin : bool) : M (option string) :=
  let params := tokenParams isAdmin in
  if negb (_validateTokenParams params) then
    console_log [LogString "Missing client token/secret"] ;;
    ret None
  else
    res <- client_post "/token" (TokenBody params) [] ;;
    if (status res =? 200)%Z then lift (readToken (data res))
    else throw (Error ("Sirv API.getToken() error" ++ statusText res)).

(** Line 65. *)
Definition getAdminToken : M (option string) := getToken true.

(** Lines 67-76. *)
Definition getAdminTokenIfNotExist (token : option string) : M string :=
  match token with
  | Some token => ret token
  | None =>
      _t <- getAdminToken ;;
      match _t with
      | None => throw (Error "Sirv API.getUserImages(): unable to get a token")
      | Some _t => ret _t
      end
  end.

(** Lines 78-87; [getToken()] is [getToken(false)]. *)
Definition getTokenIfNotExist (token : option string) : M string :=
  match token with
  | Some token => ret token
  | None =>
      _t <- getToken false ;;
      match _t with
      | None => throw (Error "Sirv API.getUserImages(): unable to get a token")
      | Some _t => ret _t
      end
  end.

(** Line 359. *)
Definition mediaUrlHash (mediaUrl : string) : string :=
  uuidv5 mediaUrl uuidv5_URL.

(** Lines 351-357: the parameter is destructured, which throws on
    [undefined] and [null]; a missing property reads as [undefined]. *)
Definition stripMeta (meta : JsVal) : Result JsVal :=
  match meta with
  | JsUndefined | JsNull => Throw TypeError
  | _ =>
      Ok (JsObject [("width", getProp "width" meta);
                    ("height", getProp "height" meta);
                    ("format", getProp "format" meta)])
  end.

(** A record whose metadata has the three keys [width], [height] and
    [format] and no other. *)
Definition strippedMeta (m : MediaType) : Prop :=
  exists width height format,
    meta m = JsObject [("width", width); ("height", height); ("format", format)].

(** [UserImageReturnType] (lines 89-92). *)
Record UserImageReturnType : Type := {
  mediaList : list MediaType;
  mediaIdList : list string
}.

(** The object [getImagesByFilenames] returns: fields [mediaList] and
    [idList]. *)
Record FilenamesReturnType : Type := {
  filesMediaList : list MediaType;
  idList : list string
}.

(** [hits.map(callback)] where the callback also pushes onto the array
    [mediaIdList] it shares with the caller: the array is threaded through
    the calls, and an exception of the callback ends the map. *)
Fixpoint mapPushing (callback : Hit -> list string -> Result (MediaType * list string))
                    (hits : list Hit) (mediaIdList : list string)
  : Result (list MediaType * list string) :=
  match hits with
  | [] => Ok ([], mediaIdList)
  | entry :: rest =>
      match callback entry mediaIdList with
      | Throw e => Throw e
      | Ok (m, mediaIdList') =>
          match mapPushing callback rest mediaIdList' with
          | Throw e => Throw e
          | Ok (ms, mediaIdList'') => Ok (m :: ms, mediaIdList'')
          end
      end
  end.

(** The callback of lines 113-126. *)
Definition userImageOfHit (uuid : string) (entry : Hit) (mediaIdList : list string)
  : Result (MediaType * list string) :=
  let src := _source entry in
  let mediaId := mediaUrlHash (srcFilename src) in
  Ok ({| ownerId := uuid;
         filename := srcFilename src;
         mediaId := mediaId;
         ctime := srcCtime src;
         mtime := srcMtime src;
         contentType := srcContentType src;
         meta := srcMeta src |},
      (mediaIdList ++ [mediaId])%list).

(** Lines 93-135; an omitted [size] is 100. *)
Definition getUserImages (uuid : string) (size : option Z) (token : option string)
  : M UserImageReturnType :=
  let size := match size with Some n => n | None => 100%Z end in
  _t <- getTokenIfNotExist token ;;
  res <- client_post "/files/search"
           (SearchBody
              ("(extension:.jpg OR extension:.jpeg OR extension:.png) AND dirname:\/u\/"
                 ++ uuid ++ " AND -dirname:\/.Trash AND -filename:uid.json")
              (Some ("ctime", "desc"))
              size)
           (withBearer _t) ;;
  hits <- lift (hitsOf res) ;;
  match hits with
  | Some hits =>
      r <- lift (mapPushing (userImageOfHit uuid) hits []) ;;
      ret {| mediaList := fst r; mediaIdList := snd r |}
  | None => throw (Error ("Sirv API.getUserImages() error" ++ statusText res))
  end.

(** The callback of lines 169-182. *)
Definition fileImageOfHit (entry : Hit) (mediaIdList : list string)
  : Result (MediaType * list string) :=
  let src := _source entry in
  let mediaId := mediaUrlHash (srcFilename src) in
  let mediaIdList := (mediaIdList ++ [mediaId])%list in
  match stripMeta (srcMeta src) with
  | Throw e => Throw e
  | Ok stripped =>
      Ok ({| ownerId := "";
             filename := srcFilename src;
             mediaId := mediaId;
             ctime := srcCtime src;
             mtime := srcMtime src;
             contentType := srcContentType src;
             meta := stripped |},
          mediaIdList)
  end.

(** The callback of lines 146-150. *)
Definition filenameTerm (file : string) : option string :=
  match basename file with
  | None => None
  | Some name => Some ("filename:" ++ replaceSlashes "\\//" (trim name))
  end.

(** The request of lines 152-165. *)
Definition filenamesSearch (fileList : list string) (_t : string) : Request :=
  let _list := map filenameTerm fileList in
  {| method := POST;
     url := "/files/search";
     body := SearchBody ("(" ++ join " OR " _list ++ ") AND -dirname:\/.Trash")
                        None 50%Z;
     reqHeaders := withBearer _t |}.

(** Lines 137-190. *)
Definition getImagesByFilenames (fileList : list string) (token : option string)
  : M FilenamesReturnType :=
  if (List.length fileList =? 0)%nat then
    ret {| filesMediaList := []; idList := [] |}
  else
    _t <- getTokenIfNotExist token ;;
    res <- send (filenamesSearch fileList _t) ;;
    hits <- lift (hitsOf res) ;;
    match hits with
    | Some hits =>
        r <- lift (mapPushing fileImageOfHit hits []) ;;
        ret {| filesMediaList := fst r; idList := snd r |}
    | None => throw (Error ("Sirv API.searchUserImage() error" ++ statusText res))
    end.

(** Lines 192-218; destructuring [res.data] (line 205) reads the four
    fields, and throws when the body is [undefined] or [null]. *)
Definition getFileInfo (uuid filename : string) (token : option string)
  : M MediaType :=
  _t <- getTokenIfNotExist token ;;
  res <- client_get ("/files/stat?filename=" ++ encodeURIComponent filename)
           (withBearer _t) ;;
  if (status res =? 200)%Z then
    fields <- lift (readStat (data res)) ;;
    let '(ctime, mtime, contentType, meta) := fields in
    let mediaId := mediaUrlHash filename in
    ret {| ownerId := uuid;
           filename := filename;
           mediaId := mediaId;
           ctime := ctime;
           mtime := mtime;
           contentType := contentType;
           meta := meta |}
  else throw (Error ("Sirv API.getFileInfo() error" ++ statusText res)).

(** Lines 220-240; the result [null] is [tt]. *)
Definition getUserFiles (uuid : string) (token : option string) : M unit :=
  _t <- getTokenIfNotExist token ;;
  let dir := encodeURIComponent ("/u/" ++ uuid) in
  res <- client_get ("/files/readdir?dirname=" ++ dir) (withBearer _t) ;;
  if (status res =? 200)%Z then
    console_log [LogData (data res)] ;;
    ret tt
  else throw (Error ("Sirv API.getUserFiles() error" ++ statusText res)).

(** [e?.response?.status ?? ''] *)
Definition responseStatusOrEmpty (e : Exn) : LogArg :=
  match e with
  | TransportError (Some n) => LogNumber n
  | _ => LogString ""
  end.

(** Lines 242-262.  The token is resolved before the [try] block is
    entered, and from no argument: the parameter [token] is not read. *)
Definition createUserDir (uuid : string) (token : option string) : M bool :=
  _t <- getAdminTokenIfNotExist None ;;
  tryCatch
    (res <- client_post ("/files/mkdir?dirname=/u/" ++ uuid) EmptyBody
              (withBearer _t) ;;
     ret (status res =? 200)%Z)
    (fun e =>
       console_log [LogString "Image API createUserDir() failed";
                    responseStatusOrEmpty e] ;;
       console_log [LogExn e] ;;
       ret false).

(** Lines 271-288. *)
Definition upload (filename : string) (imageData : string) (token : option string)
  : M string :=
  _t <- getAdminTokenIfNotExist token ;;
  res <- client_post ("/files/upload?filename=" ++ filename)
           (BufferBody imageData)
           [("Content-Type", "image/jpeg"); ("Authorization", "bearer " ++ _t)] ;;
  if ((200 <=? status res) && (status res <=? 204))%Z then ret filename
  else throw (Error ("Image API upload() failed.  Status: "
                       ++ numberToString (status res))).

(** Lines 296-311. *)
Definition remove (filename : string) (token : option string) : M string :=
  _t <- getAdminTokenIfNotExist token ;;
  res <- client_post ("/files/delete?filename=" ++ filename)
           NullBody
           [("Content-Type", "application/json"); ("Authorization", "bearer " ++ _t)] ;;
  if ((200 <=? status res) && (status res <=? 204))%Z then ret filename
  else throw (Error ("Image API delete() failed.  Status: "
                       ++ numberToString (status res))).

(** Lines 322-349; a [null] owner id is [None].  [Date.now()] is read
    when the body is built, after the token is resolved. *)
Definition addUserIdFile (filename : string) (uid : option string)
                         (token : option string) : M bool :=
  match uid with
  | None => ret false
  | Some uid =>
      tryCatch
        (_t <- getAdminTokenIfNotExist token ;;
         ts <- (fun w => (Ok (Date_now w), w)) ;;
         res <- client_post ("/files/upload?filename=" ++ filename)
                  (UidBody (toLowerCase uid) ts)
                  [("Content-Type", "application/json");
                   ("Authorization", "bearer " ++ _t)] ;;
         if ((200 <=? status res) && (status res <=? 204))%Z then ret true
         else ret false)
        (fun e =>
           console_log [LogString "Image API create Uid file failed"; LogExn e] ;;
           ret false)
  end.

(** ** The requests of the operations, named for the statements *)

(** The request of [getToken] (lines 55-57). *)
Definition tokenRequest (isAdmin : bool) : Request :=
  {| method := POST; url := "/token";
     body := TokenBody (tokenParams isAdmin); reqHeaders := [] |}.

(** The request of [createUserDir] (lines 245-254). *)
Definition mkdirRequest (uuid _t : string) : Request :=
  {| method := POST; url := "/files/mkdir?dirname=/u/" ++ uuid;
     body := EmptyBody; reqHeaders := withBearer _t |}.

(** The request of [addUserIdFile] (lines 326-338). *)
Definition uidFileRequest (filename uid : string) (ts : Z) (_t : string) : Request :=
  {| method := POST; url := "/files/upload?filename=" ++ filename;
     body := UidBody (toLowerCase uid) ts;
     reqHeaders := [("Content-Type", "application/json");
                    ("Authorization", "bearer " ++ _t)] |}.

(** The request of [getUserImages] (lines 95-110). *)
Definition userImagesRequest (uuid : string) (size : option Z) (_t : string)
  : Request :=
  {| method := POST; url := "/files/search";
     body := SearchBody
               ("(extension:.jpg OR extension:.jpeg OR extension:.png) AND dirname:\/u\/"
                  ++ uuid ++ " AND -dirname:\/.Trash AND -filename:uid.json")
               (Some ("ctime", "desc"))
               (match size with Some n => n | None => 100%Z end);
     reqHeaders := withBearer _t |}.

(** The request of [getFileInfo] (lines 194-202). *)
Definition fileInfoRequest (filename _t : string) : Request :=
  {| method := GET; url := "/files/stat?filename=" ++ encodeURIComponent filename;
     body := NoBody; reqHeaders := withBearer _t |}.

(** The request of [getUserFiles] (lines 223-232). *)
Definition userFilesRequest (uuid _t : string) : Request :=
  {| method := GET;
     url := "/files/readdir?dirname=" ++ encodeURIComponent ("/u/" ++ uuid);
     body := NoBody; reqHeaders := withBearer _t |}.

(** The request of [upload] (lines 274-283). *)
Definition uploadRequest (filename imageData _t : string) : Request :=
  {| method := POST; url := "/files/upload?filename=" ++ filename;
     body := BufferBody imageData;
     reqHeaders := [("Content-Type", "image/jpeg");
                    ("Authorization", "bearer " ++ _t)] |}.

(** The request of [remove] (lines 299-308). *)
Definition removeRequest (filename _t : string) : Request :=
  {| method := POST; url := "/files/delete?filename=" ++ filename;
     body := NullBody;
     reqHeaders := [("Content-Type", "application/json");
                    ("Authorization", "bearer " ++ _t)] |}.

(** A request that carries a bearer token. *)
Definition authorized (r : Request) : Prop :=
  exists _t, In ("Authorization", "bearer " ++ _t) (reqHeaders r).

(** The requests of one operation: at most one token request of the
    given privilege, then at most one request, which carries a token. *)
Definition oneCall (isAdmin : bool) (new : list Request) : Prop :=
  exists pre op,
    new = (pre ++ op)%list /\
    (pre = [] \/ pre = [tokenRequest isAdmin]) /\
    (op = [] \/ exists r, op = [r] /\ authorized r).

(** The record [getUserImages] builds from a hit. *)
Definition userImage (uuid : string) (entry : Hit) : MediaType :=
  {| ownerId := uuid;
     filename := srcFilename (_source entry);
     mediaId := mediaUrlHash (srcFilename (_source entry));
     ctime := srcCtime (_source entry);
     mtime := srcMtime (_source entry);
     contentType := srcContentType (_source entry);
     meta := srcMeta (_source entry) |}.

(** The record [getImagesByFilenames] builds from a hit whose metadata
    is an object. *)
Definition fileImage (entry : Hit) : MediaType :=
  {| ownerId := "";
     filename := srcFilename (_source entry);
     mediaId := mediaUrlHash (srcFilename (_source entry));
     ctime := srcCtime (_source entry);
     mtime := srcMtime (_source entry);
     contentType := srcContentType (_source entry);
     meta := JsObject [("width", getProp "width" (srcMeta (_source entry)));
                       ("height", getProp "height" (srcMeta (_source entry)));
                       ("format", getProp "format" (srcMeta (_source entry)))] |}.

End Client.

(** ** The defaults of [axios]

    The instance of lines 21-26 sets no [validateStatus], so the default
    of the library applies: the promise of a request resolves when the
    status of the answer is from 200 to 299 and rejects otherwise, with an
    error that carries the response; a request without an answer
    rejects too. *)
Definition axiosDefault (remote : list Request -> Request -> Answer)
  : list Request -> Request -> Outcome :=
  fun history r =>
    match remote history r with
    | Responds res =>
        if ((200 <=? status res) && (status res <? 300))%Z then Resolves res
        else Rejects (TransportError (Some (status res)))
    | NoResponse => Rejects (TransportError None)
    end.

(** [e.message]: the message of an [Error], and the message the library
    gives the error of a rejected request. *)
Definition message (e : Exn) : option string :=
  match e with
  | Error message => Some message
  | TypeError => None
  | TransportError (Some n) =>
      Some ("Request failed with status code " ++ numberToString n)
  | TransportError None => Some "Network Error"
  end.

(** [s.includes(t)] *)
Fixpoint includes (t s : string) : bool :=
  String.prefix t s ||
  match s with
  | EmptyString => false
  | String _ s' => includes t s'
  end.

(** ** Loading the module (lines 7-17)

    [process.env] by the five variables the module reads; a variable that
    is not set is [None].  [windowUndefined] is
    [typeof window === 'undefined']: the module is loaded on the server. *)
Record Env : Type := {
  SIRV_CLIENT_ID_RO : option string;
  SIRV_CLIENT_SECRET_RO : option string;
  SIRV_CLIENT_ID_RW : option string;
  SIRV_CLIENT_SECRET_RW : option string;
  NEXT_PUBLIC_SIRV_BASE_URL : option string
}.

Definition isNull {A : Type} (x : option A) : bool :=
  match x with Some _ => false | None => true end.

Definition loadModule (env : Env) (windowUndefined : bool) : Result SirvConfig :=
  if isNull (SIRV_CLIENT_ID_RO env) && windowUndefined
  then Throw (Error "SIRV_CLIENT_ID_RO not set")
  else if isNull (SIRV_CLIENT_SECRET_RO env) && windowUndefined
  then Throw (Error "SIRV_CLIENT_SECRET_RO not set")
  else if isNull (NEXT_PUBLIC_SIRV_BASE_URL env)
  then Throw (Error "NEXT_PUBLIC_SIRV_BASE_URL not set")
  else Ok {| clientId := SIRV_CLIENT_ID_RO env;
             clientSecret := SIRV_CLIENT_SECRET_RO env;
             clientAdminId := SIRV_CLIENT_ID_RW env;
             clientAdminSecret := SIRV_CLIENT_SECRET_RW env;
             baseUrl := match NEXT_PUBLIC_SIRV_BASE_URL env with
                        | Some u => u
                        | None => ""
                        end |}.

End Sirv.

(* ===================================================================== *)
(** * Concrete inputs *)
(* ===================================================================== *)

Module Inputs.

Import Helper.

Definition noColors : string -> option string := fun _ => None.

(** Three records, one true flag each, three disciplines. *)
Definition threeDisciplines : list Climb :=
  [ {| type := [("sport", true); ("trad", false)] |};
    {| type := [("trad", true)] |};
    {| type := [("bouldering", true)] |} ].

(** Two records of one discipline, and three records of two disciplines. *)
Definition oneDiscipline : list Climb :=
  [ {| type := [("sport", true)] |};
    {| type := [("sport", true); ("trad", false)] |} ].

Definition twoDisciplines : list Climb :=
  [ {| type := [("sport", true)] |};
    {| type := [("trad", true)] |};
    {| type := [("sport", true)] |} ].

(** Records without a true flag. *)
Definition noDiscipline : list Climb :=
  [ {| type := [("sport", false); ("trad", false)] |};
    {| type := [] |} ].

(** A configuration with both credential pairs, and one without the
    administrative pair. *)
Definition config : Sirv.SirvConfig :=
  {| Sirv.clientId := Some "ro-id";
     Sirv.clientSecret := Some "ro-secret";
     Sirv.clientAdminId := Some "rw-id";
     Sirv.clientAdminSecret := Some "rw-secret";
     Sirv.baseUrl := "https://media.example.org" |}.

Definition configWithoutAdmin : Sirv.SirvConfig :=
  {| Sirv.clientId := Some "ro-id";
     Sirv.clientSecret := Some "ro-secret";
     Sirv.clientAdminId := None;
     Sirv.clientAdminSecret := Some "rw-secret";
     Sirv.baseUrl := "https://media.example.org" |}.

Definition someMeta : Sirv.JsVal :=
  Sirv.JsObject [("width", Sirv.JsNumber 800); ("height", Sirv.JsNumber 600);
                 ("format", Sirv.JsString "JPEG"); ("duration", Sirv.JsNumber 0)].

Definition someHits : list Sirv.Hit :=
  [ {| Sirv._source :=
         {| Sirv.srcFilename := "/u/abc/one.jpg";
            Sirv.srcCtime := Sirv.JsString "2022-01-01T00:00:00Z";
            Sirv.srcMtime := Sirv.JsString "2022-01-02T00:00:00Z";
            Sirv.srcContentType := Sirv.JsString "image/jpeg";
            Sirv.srcMeta := someMeta |} |};
    {| Sirv._source :=
         {| Sirv.srcFilename := "/u/abc/two.png";
            Sirv.srcCtime := Sirv.JsString "2022-02-01T00:00:00Z";
            Sirv.srcMtime := Sirv.JsString "2022-02-02T00:00:00Z";
            Sirv.srcContentType := Sirv.JsString "image/png";
            Sirv.srcMeta := Sirv.JsObject [("width", Sirv.JsNumber 10)] |} |} ].

Definition startsWith (prefix s : string) : bool :=
  String.eqb (substring 0 (String.length prefix) s) prefix.

(** A remote end that answers every request with status 200: a token to
    the token endpoint, two hits to a search, a stat to a stat. *)
Definition server (_ : list Sirv.Request) (r : Sirv.Request) : Sirv.Outcome :=
  if String.eqb (Sirv.url r) "/token" then
    Sirv.Resolves {| Sirv.status := 200; Sirv.statusText := "OK";
                     Sirv.data := Sirv.TokenData (Some "fresh-token") |}
  else if String.eqb (Sirv.url r) "/files/search" then
    Sirv.Resolves {| Sirv.status := 200; Sirv.statusText := "OK";
                     Sirv.data := Sirv.SearchData (Some someHits) |}
  else if startsWith "/files/stat" (Sirv.url r) then
    Sirv.Resolves {| Sirv.status := 200; Sirv.statusText := "OK";
                     Sirv.data := Sirv.StatData (Sirv.JsString "c") (Sirv.JsString "m")
                                                (Sirv.JsString "image/jpeg") someMeta |}
  else
    Sirv.Resolves {| Sirv.status := 200; Sirv.statusText := "OK";
                     Sirv.data := Sirv.OtherData Sirv.JsUndefined |}.

(** A remote end that gives every request the same answer. *)
Definition answering (res : Sirv.Response) (_ : list Sirv.Request) (_ : Sirv.Request)
  : Sirv.Answer :=
  Sirv.Responds res.

(** Answers: a refusal, an empty success, and a success whose body is
    [null]. *)
Definition unauthorized : Sirv.Response :=
  {| Sirv.status := 401; Sirv.statusText := "Unauthorized";
     Sirv.data := Sirv.OtherData (Sirv.JsString "") |}.

Definition noContent : Sirv.Response :=
  {| Sirv.status := 204; Sirv.statusText := "No Content";
     Sirv.data := Sirv.OtherData (Sirv.JsString "") |}.

Definition nullOk : Sirv.Response :=
  {| Sirv.status := 200; Sirv.statusText := "OK";
     Sirv.data := Sirv.OtherData Sirv.JsNull |}.

(** A remote end that gives a token and rejects everything else. *)
Definition tokenOnlyServer (_ : list Sirv.Request) (r : Sirv.Request) : Sirv.Outcome :=
  if String.eqb (Sirv.url r) "/token" then
    Sirv.Resolves {| Sirv.status := 200; Sirv.statusText := "OK";
                     Sirv.data := Sirv.TokenData (Some "fresh-token") |}
  else Sirv.Rejects (Sirv.TransportError (Some 409%Z)).

(** A remote end that cannot be reached. *)
Definition unreachableServer (_ : list Sirv.Request) (_ : Sirv.Request) : Sirv.Outcome :=
  Sirv.Rejects (Sirv.TransportError None).

Definition emptyWorld : Sirv.World := {| Sirv.sent := []; Sirv.console := [] |}.

Definition clock (w : Sirv.World) : Z := 1650000000000%Z.

(** Stand-ins for the library functions. *)
Definition hash (name namespace : string) : string := namespace ++ "#" ++ name.
Definition namespaceURL : string := "6ba7b811-9dad-11d1-80b4-00c04fd430c8".
Definition lastSegment (file : string) : option string := Some file.
Definition keep (s : string) : string := s.
Definition lowerAscii (c : ascii) : ascii :=
  let n := N_of_ascii c in
  if ((65 <=? n) && (n <=? 90))%N then ascii_of_N (n + 32) else c.
Fixpoint lower (s : string) : string :=
  match s with
  | EmptyString => EmptyString
  | String c s' => String (lowerAscii c) (lower s')
  end.

(** Hits of which the second has no metadata. *)
Definition hitsWithoutMeta : list Sirv.Hit :=
  [ {| Sirv._source :=
         {| Sirv.srcFilename := "/u/abc/one.jpg";
            Sirv.srcCtime := Sirv.JsString "2022-01-01T00:00:00Z";
            Sirv.srcMtime := Sirv.JsString "2022-01-02T00:00:00Z";
            Sirv.srcContentType := Sirv.JsString "image/jpeg";
            Sirv.srcMeta := someMeta |} |};
    {| Sirv._source :=
         {| Sirv.srcFilename := "/u/abc/raw.bin";
            Sirv.srcCtime := Sirv.JsString "2022-03-01T00:00:00Z";
            Sirv.srcMtime := Sirv.JsString "2022-03-02T00:00:00Z";
            Sirv.srcContentType := Sirv.JsString "application/octet-stream";
            Sirv.srcMeta := Sirv.JsUndefined |} |} ].

(** A remote end that answers every request with those hits. *)
Definition serverWithoutMeta (_ : list Sirv.Request) (_ : Sirv.Request)
  : Sirv.Outcome :=
  Sirv.Resolves {| Sirv.status := 200; Sirv.statusText := "OK";
                   Sirv.data := Sirv.SearchData (Some hitsWithoutMeta) |}.

(** A remote end that answers every request with status 201. *)
Definition createdServer (_ : list Sirv.Request) (_ : Sirv.Request) : Sirv.Outcome :=
  Sirv.Resolves {| Sirv.status := 201; Sirv.statusText := "Created";
                   Sirv.data := Sirv.OtherData Sirv.JsUndefined |}.

(** The environment of a server with the read-only pair only. *)
Definition serverEnv : Sirv.Env :=
  {| Sirv.SIRV_CLIENT_ID_RO := Some "ro-id";
     Sirv.SIRV_CLIENT_SECRET_RO := Some "ro-secret";
     Sirv.SIRV_CLIENT_ID_RW := None;
     Sirv.SIRV_CLIENT_SECRET_RW := None;
     Sirv.NEXT_PUBLIC_SIRV_BASE_URL := Some "https://media.example.org" |}.

(** A store of two discipline objects. *)
Definition someStore : Helper.Store :=
  [ [("sport", true); ("boulder", false); ("trad", true)];
    [("ice", false)] ].

End Inputs.

(* ===================================================================== *)
(** * Properties of the helper module *)
(* ===================================================================== *)

Section HelperFacts.

Import Helper.

(** Records without a true flag leave the counter as it is. *)
Lemma record_without_flag (A : Arith) (entries : ClimbDisciplineRecord)
      (acc : Counter A) :
  filter snd entries = [] ->
  fold_left (countDiscipline A) entries acc = acc.
Proof.
  revert acc. induction entries as [|[key [|]] entries IH]; intros acc H; simpl in *.
  - reflexivity.
  - discriminate.
  - apply IH, H.
Qed.

Lemma typeToCount_without_flag (A : Arith) (climbs : list Climb) :
  trueFlags climbs = 0%nat -> typeToCount A climbs = [].
Proof.
  unfold typeToCount. generalize (@nil (string * num A)) at 1 2.
  induction climbs as [|c climbs IH]; intros acc H.
  - reflexivity.
  - unfold trueFlags in H. simpl in H. fold (trueFlags climbs) in H.
    simpl. rewrite record_without_flag.
    + apply IH. lia.
    + destruct (filter snd (type c)); [reflexivity | simpl in H; lia].
Qed.

End HelperFacts.

Section HelperProperties.

Import Helper.

(** The sum of the percentages in the arithmetic of the program, added
    left to right from [0]: it is [100] for the records of one
    discipline, and below [100] for two disciplines with two flags and one
    flag, and for three disciplines of one flag each. *)
Lemma percents_sum_binary64_examples :
  total binary64
        (percents (computeClimbingPercentsAndColors binary64 Inputs.noColors
                                                    Inputs.oneDiscipline))
  = 100%float /\
  PrimFloat.ltb
    (total binary64
           (percents (computeClimbingPercentsAndColors binary64 Inputs.noColors
                                                       Inputs.twoDisciplines)))
    100%float = true /\
  PrimFloat.ltb
    (total binary64
           (percents (computeClimbingPercentsAndColors binary64 Inputs.noColors
                                                       Inputs.threeDisciplines)))
    100%float = true.
Proof. split; [|split]; vm_compute; reflexivity. Qed.

(** C2, as amended.  When the collection has no true discipline flag (the
    empty collection included), no category is counted: the percentages and
    the colours are both the empty list, and no NaN is produced. *)
Theorem no_flag_empty_result (A : Arith)
        (ClimbTypeToColor : string -> option string) (climbs : list Climb) :
  trueFlags climbs = 0%nat ->
  percents (computeClimbingPercentsAndColors A ClimbTypeToColor climbs) = [] /\
  colors (computeClimbingPercentsAndColors A ClimbTypeToColor climbs) = [].
Proof.
  intro H. unfold computeClimbingPercentsAndColors. cbn [percents colors].
  rewrite (typeToCount_without_flag A climbs H). split; reflexivity.
Qed.

Lemma no_flag_empty_result_witness :
  trueFlags Inputs.noDiscipline = 0%nat /\
  percents (computeClimbingPercentsAndColors binary64 Inputs.noColors
                                             Inputs.noDiscipline) = [] /\
  colors (computeClimbingPercentsAndColors binary64 Inputs.noColors
                                           Inputs.noDiscipline) = [].
Proof.
  split; [reflexivity|].
  apply (no_flag_empty_result binary64 Inputs.noColors Inputs.noDiscipline).
  reflexivity.
Defined.

(** C2 as stated fails: on the empty collection the total count is zero
    and no percentage is NaN, since there is no percentage at all. *)
Lemma no_flag_nan_counterexample :
  ~ (forall (ClimbTypeToColor : string -> option string) (climbs : list Climb),
        trueFlags climbs = 0%nat ->
        exists p,
          In p (percents (computeClimbingPercentsAndColors binary64
                                                           ClimbTypeToColor climbs))
          /\ PrimFloat.is_nan p = true).
Proof.
  intro claim.
  destruct (claim Inputs.noColors [] eq_refl) as (p & Hin & _).
  exact Hin.
Qed.

(** The four examples of the specification. *)
Lemma sanitizeName_examples :
  sanitizeName "(6) My Route" = "My Route" /\
  sanitizeName "1-My Route" = "My Route" /\
  sanitizeName "a.My Route" = "My Route" /\
  sanitizeName "My Route" = "My Route".
Proof. repeat split; reflexivity. Qed.

(** C3 at its failing inputs.  The second and third alternatives of the
    pattern are not anchored: an abbreviation or a numeric prefix is
    removed from the middle of a name whose start has no decorative token. *)
Theorem sanitizeName_removes_inner_token :
  sanitizeName "Lower St. Vrain" = "Lower  Vrain" /\
  sanitizeName "My Route 5-star" = "My Route star".
Proof. split; reflexivity. Qed.

End HelperProperties.

(* ===================================================================== *)
(** * Properties of the Sirv client *)
(* ===================================================================== *)

Section ClientFacts.

Import Sirv.

#[local] Set Default Proof Using "Type".

Variable SIRV_CONFIG : SirvConfig.
Variable transport : list Request -> Request -> Outcome.
Variable Date_now : World -> Z.
Variable uuidv5 : string -> string -> string.
Variable uuidv5_URL : string.
Variable basename : string -> option string.
Variable trim : string -> string.
Variable encodeURIComponent : string -> string.
Variable toLowerCase : string -> string.

Local Abbreviation tokenParams := (Sirv.tokenParams SIRV_CONFIG).
Local Abbreviation tokenRequest := (Sirv.tokenRequest SIRV_CONFIG).
Local Abbreviation getToken := (Sirv.getToken SIRV_CONFIG transport).
Local Abbreviation getAdminToken := (Sirv.getAdminToken SIRV_CONFIG transport).
Local Abbreviation getTokenIfNotExist := (Sirv.getTokenIfNotExist SIRV_CONFIG transport).
Local Abbreviation getAdminTokenIfNotExist :=
  (Sirv.getAdminTokenIfNotExist SIRV_CONFIG transport).
Local Abbreviation send := (Sirv.send transport).
Local Abbreviation mediaUrlHash := (Sirv.mediaUrlHash uuidv5 uuidv5_URL).
Local Abbreviation getUserImages :=
  (Sirv.getUserImages SIRV_CONFIG transport uuidv5 uuidv5_URL).
Local Abbreviation getImagesByFilenames :=
  (Sirv.getImagesByFilenames SIRV_CONFIG transport uuidv5 uuidv5_URL basename trim).
Local Abbreviation filenamesSearch := (Sirv.filenamesSearch basename trim).
Local Abbreviation getFileInfo :=
  (Sirv.getFileInfo SIRV_CONFIG transport uuidv5 uuidv5_URL encodeURIComponent).
Local Abbreviation getUserFiles :=
  (Sirv.getUserFiles SIRV_CONFIG transport encodeURIComponent).
Local Abbreviation createUserDir := (Sirv.createUserDir SIRV_CONFIG transport).
Local Abbreviation upload := (Sirv.upload SIRV_CONFIG transport).
Local Abbreviation remove := (Sirv.remove SIRV_CONFIG transport).
Local Abbreviation addUserIdFile :=
  (Sirv.addUserIdFile SIRV_CONFIG transport Date_now toLowerCase).
Local Abbreviation uidFileRequest := (Sirv.uidFileRequest toLowerCase).

(** ** Token acquisition *)

Lemma validate_spec (params : TokenParamsType) :
  _validateTokenParams params = false <->
  tokenClientId params = None \/ tokenClientSecret params = None.
Proof.
  unfold _validateTokenParams.
  destruct (tokenClientId params), (tokenClientSecret params);
    split; intro H; try reflexivity; try discriminate;
    try (destruct H; discriminate);
    try (left; reflexivity); right; reflexivity.
Qed.

(** [getToken] with an incomplete pair. *)
Lemma getToken_unset (isAdmin : bool) (w : World) :
  _validateTokenParams (tokenParams isAdmin) = false ->
  getToken isAdmin w =
  (Ok None,
   {| sent := sent w;
      console := (console w ++ [[LogString "Missing client token/secret"]])%list |}).
Proof.
  intro H. unfold Sirv.getToken. rewrite H. reflexivity.
Qed.

(** [getToken] with a complete pair. *)
Lemma getToken_set (isAdmin : bool) (w : World) :
  _validateTokenParams (tokenParams isAdmin) = true ->
  getToken isAdmin w =
  (match transport (sent w) (tokenRequest isAdmin) with
   | Resolves res =>
       if (status res =? 200)%Z then readToken (data res)
       else Throw (Error ("Sirv API.getToken() error" ++ statusText res))
   | Rejects e => Throw e
   end,
   {| sent := (sent w ++ [tokenRequest isAdmin])%list; console := console w |}).
Proof.
  intro H. unfold Sirv.getToken. rewrite H. cbn [negb].
  unfold bind, client_post, Sirv.send. fold (tokenRequest isAdmin).
  destruct (transport (sent w) (tokenRequest isAdmin)) as [res|e]; [|reflexivity].
  destruct (status res =? 200)%Z; reflexivity.
Qed.

(** The requests a token acquisition adds all go to the token endpoint. *)
Lemma getToken_sent (isAdmin : bool) (w : World) :
  exists new,
    sent (snd (getToken isAdmin w)) = (sent w ++ new)%list /\
    Forall (fun r => r = tokenRequest isAdmin) new.
Proof.
  destruct (_validateTokenParams (tokenParams isAdmin)) eqn:E.
  - rewrite (getToken_set _ _ E). exists [tokenRequest isAdmin].
    split; [reflexivity | repeat constructor].
  - rewrite (getToken_unset _ _ E). exists []. cbn.
    split; [symmetry; apply app_nil_r | constructor].
Qed.

(** A supplied token is returned as it is, and nothing is done. *)
Lemma getTokenIfNotExist_supplied (t : string) (w : World) :
  getTokenIfNotExist (Some t) w = (Ok t, w).
Proof. reflexivity. Qed.

Lemma getAdminTokenIfNotExist_supplied (t : string) (w : World) :
  getAdminTokenIfNotExist (Some t) w = (Ok t, w).
Proof. reflexivity. Qed.

Lemma getTokenIfNotExist_sent (token : option string) (w : World) :
  exists new,
    sent (snd (getTokenIfNotExist token w)) = (sent w ++ new)%list /\
    Forall (fun r => r = tokenRequest false) new.
Proof.
  destruct token as [t|].
  - exists []. split; [symmetry; apply app_nil_r | constructor].
  - destruct (getToken_sent false w) as (new & Hs & Hall).
    exists new. split; [|exact Hall].
    unfold Sirv.getTokenIfNotExist, bind.
    destruct (getToken false w) as [[[t|]|e] w1]; exact Hs.
Qed.

Lemma getAdminTokenIfNotExist_sent (token : option string) (w : World) :
  exists new,
    sent (snd (getAdminTokenIfNotExist token w)) = (sent w ++ new)%list /\
    Forall (fun r => r = tokenRequest true) new.
Proof.
  destruct token as [t|].
  - exists []. split; [symmetry; apply app_nil_r | constructor].
  - destruct (getToken_sent true w) as (new & Hs & Hall).
    exists new. split; [|exact Hall].
    unfold Sirv.getAdminTokenIfNotExist, Sirv.getAdminToken, bind.
    destruct (getToken true w) as [[[t|]|e] w1]; exact Hs.
Qed.

(** Acquisition that yields nothing throws the explicit error. *)
Lemma getAdminTokenIfNotExist_nothing (w : World) :
  _validateTokenParams (tokenParams true) = false ->
  fst (getAdminTokenIfNotExist None w) =
  Throw (Error "Sirv API.getUserImages(): unable to get a token").
Proof.
  intro H. unfold Sirv.getAdminTokenIfNotExist, Sirv.getAdminToken, bind.
  rewrite (getToken_unset _ _ H). reflexivity.
Qed.

Lemma getTokenIfNotExist_nothing (w : World) :
  _validateTokenParams (tokenParams false) = false ->
  fst (getTokenIfNotExist None w) =
  Throw (Error "Sirv API.getUserImages(): unable to get a token").
Proof.
  intro H. unfold Sirv.getTokenIfNotExist, bind.
  rewrite (getToken_unset _ _ H). reflexivity.
Qed.

(** ** Sequencing *)

(** A request followed by a continuation that sends nothing. *)
Lemma bind_send_sent {A : Type} (r : Request) (k : Response -> M A) (w : World) :
  (forall res w', sent (snd (k res w')) = sent w') ->
  sent (snd (bind (send r) k w)) = (sent w ++ [r])%list.
Proof.
  intro Hk. unfold bind, Sirv.send.
  destruct (transport (sent w) r) as [res|e]; [|reflexivity].
  rewrite Hk. reflexivity.
Qed.

(** Closes the side condition of [bind_send_sent] for the continuations
    of the client, which branch and then return, throw, log or lift. *)
Ltac quiet_continuation :=
  let res := fresh "res" in
  let w' := fresh "w'" in
  intros res w'; unfold bind, ret, throw, lift, console_log;
  repeat match goal with
         | |- context [if ?b then _ else _] => destruct b
         | |- context [match ?x with _ => _ end] => destruct x
         end;
  reflexivity.

(** ** Search results *)

Lemma mapPushing_userImages (uuid : string) (hits : list Hit) (acc : list string) :
  exists ms,
    mapPushing (userImageOfHit uuidv5 uuidv5_URL uuid) hits acc
    = Ok (ms, (acc ++ map mediaId ms)%list) /\
    Forall (fun m => mediaId m = mediaUrlHash (filename m)) ms.
Proof.
  revert acc. induction hits as [|entry hits IH]; intro acc.
  - exists []. split; [simpl; rewrite app_nil_r; reflexivity | constructor].
  - cbn [mapPushing]. unfold userImageOfHit at 1.
    destruct (IH (acc ++ [mediaUrlHash (srcFilename (_source entry))])%list)
      as (ms & Hms & Hall).
    rewrite Hms.
    match goal with |- exists _, Ok (?l, _) = _ /\ _ => exists l end. split.
    + rewrite <- app_assoc. reflexivity.
    + constructor; [reflexivity | exact Hall].
Qed.

Lemma stripMeta_shape (v stripped : JsVal) :
  stripMeta v = Ok stripped ->
  stripped = JsObject [("width", getProp "width" v);
                       ("height", getProp "height" v);
                       ("format", getProp "format" v)].
Proof.
  destruct v; simpl; intro H; inversion H; reflexivity.
Qed.

Lemma mapPushing_fileImages (hits : list Hit) (acc : list string)
      (ms : list MediaType) (ids : list string) :
  mapPushing (fileImageOfHit uuidv5 uuidv5_URL) hits acc = Ok (ms, ids) ->
  ids = (acc ++ map mediaId ms)%list /\
  Forall (fun m => ownerId m = "" /\ strippedMeta m /\
                   mediaId m = mediaUrlHash (filename m)) ms.
Proof.
  revert acc ms ids. induction hits as [|entry hits IH]; intros acc ms ids H.
  - simpl in H. inversion H; subst. split; [simpl; rewrite app_nil_r; reflexivity | constructor].
  - cbn [mapPushing] in H. unfold fileImageOfHit at 1 in H.
    destruct (stripMeta (srcMeta (_source entry))) as [stripped|e] eqn:Es;
      [|discriminate].
    match type of H with
    | match mapPushing ?f ?l ?a with _ => _ end = _ =>
        destruct (mapPushing f l a) as [[ms' ids']|e] eqn:Er; [|discriminate]
    end.
    inversion H; subst. destruct (IH _ _ _ Er) as [-> Hall]. split.
    + simpl. rewrite <- app_assoc. reflexivity.
    + constructor; [|exact Hall]. cbn. repeat split.
      apply stripMeta_shape in Es. unfold strippedMeta. cbn. eauto.
Qed.

(** ** Creating the directory of a user *)

(** X20.  The part of the contract of [createUserDir] that holds: once a token
    is there, a rejected request gives [false], and the result is [true]
    only for a response of status 200. *)
Lemma createUserDir_after_token (uuid : string) (token : option string)
      (w w1 : World) (_t : string) :
  getAdminTokenIfNotExist None w = (Ok _t, w1) ->
  fst (createUserDir uuid token w) =
  match transport (sent w1) (mkdirRequest uuid _t) with
  | Resolves res => Ok (status res =? 200)%Z
  | Rejects e => Ok false
  end.
Proof.
  intro H. unfold Sirv.createUserDir, bind at 1. rewrite H.
  unfold tryCatch, bind, client_post, Sirv.send. fold (mkdirRequest uuid _t).
  destruct (transport (sent w1) (mkdirRequest uuid _t)); reflexivity.
Qed.

(** C4 at its failing inputs.  The token is acquired before the [try]
    block: when the administrative pair is incomplete, [createUserDir]
    throws the error of the token helper instead of returning [false], and
    when the token request is rejected it throws the rejection. *)
Theorem createUserDir_propagates_token_failure
        (uuid : string) (token : option string) (w : World) :
  (clientAdminId SIRV_CONFIG = None \/ clientAdminSecret SIRV_CONFIG = None ->
   fst (createUserDir uuid token w) =
   Throw (Error "Sirv API.getUserImages(): unable to get a token")) /\
  (forall id secret e,
      clientAdminId SIRV_CONFIG = Some id ->
      clientAdminSecret SIRV_CONFIG = Some secret ->
      transport (sent w) (tokenRequest true) = Rejects e ->
      fst (createUserDir uuid token w) = Throw e).
Proof.
  split.
  - intro H.
    assert (_validateTokenParams (tokenParams true) = false) as Hv
        by (apply validate_spec; exact H).
    unfold Sirv.createUserDir, bind at 1,
      Sirv.getAdminTokenIfNotExist, Sirv.getAdminToken, bind at 1.
    rewrite (getToken_unset _ _ Hv). reflexivity.
  - intros id secret e Hid Hsecret He.
    assert (_validateTokenParams (tokenParams true) = true) as Hv
        by (unfold _validateTokenParams; cbn; rewrite Hid, Hsecret; reflexivity).
    unfold Sirv.createUserDir, bind at 1,
      Sirv.getAdminTokenIfNotExist, Sirv.getAdminToken, bind at 1.
    rewrite (getToken_set _ _ Hv), He. reflexivity.
Qed.

(** C6 at its failing input.  [createUserDir] does not read its [token]
    parameter: with a complete administrative pair it requests a token
    although one was supplied, and the directory request carries the
    acquired token, not the supplied one. *)
Theorem createUserDir_ignores_supplied_token
        (uuid supplied : string) (w : World) :
  forall id secret,
    clientAdminId SIRV_CONFIG = Some id ->
    clientAdminSecret SIRV_CONFIG = Some secret ->
    (exists rest,
        sent (snd (createUserDir uuid (Some supplied) w)) =
        (sent w ++ tokenRequest true :: rest)%list) /\
    (forall res acquired,
        transport (sent w) (tokenRequest true) = Resolves res ->
        status res = 200%Z ->
        dataToken (data res) = Some acquired ->
        sent (snd (createUserDir uuid (Some supplied) w)) =
        (sent w ++ [tokenRequest true; mkdirRequest uuid acquired])%list).
Proof.
  intros id secret Hid Hsecret.
  assert (_validateTokenParams (tokenParams true) = true) as Hv
      by (unfold _validateTokenParams; cbn; rewrite Hid, Hsecret; reflexivity).
  assert (forall _t w1,
             sent (snd (tryCatch
                          (bind (client_post transport
                                   ("/files/mkdir?dirname=/u/" ++ uuid)
                                   EmptyBody (withBearer _t))
                                (fun res => ret (status res =? 200)%Z))
                          (fun e =>
                             bind (console_log
                                     [LogString "Image API createUserDir() failed";
                                      responseStatusOrEmpty e])
                                  (fun _ => bind (console_log [LogExn e])
                                                 (fun _ => ret false))) w1))
             = (sent w1 ++ [mkdirRequest uuid _t])%list) as Hdir.
  { intros _t w1. unfold tryCatch, bind, client_post, Sirv.send.
    fold (mkdirRequest uuid _t).
    destruct (transport (sent w1) (mkdirRequest uuid _t)); reflexivity. }
  split.
  - unfold Sirv.createUserDir, bind at 1,
      Sirv.getAdminTokenIfNotExist, Sirv.getAdminToken, bind at 1.
    rewrite (getToken_set _ _ Hv).
    destruct (transport (sent w) (tokenRequest true)) as [res|e].
    + destruct (status res =? 200)%Z.
      * destruct (readToken (data res)) as [[t|]|e].
        -- unfold ret at 1. rewrite Hdir. cbn [sent].
           rewrite <- app_assoc. eexists. reflexivity.
        -- exists []. reflexivity.
        -- exists []. reflexivity.
      * exists []. reflexivity.
    + exists []. reflexivity.
  - intros res acquired Hres Hs Ht.
    unfold Sirv.createUserDir, bind at 1,
      Sirv.getAdminTokenIfNotExist, Sirv.getAdminToken, bind at 1.
    assert (readToken (data res) = Ok (Some acquired)) as Hread
        by (unfold readToken; destruct (data res); try discriminate;
            cbn in Ht |- *; rewrite Ht; reflexivity).
    rewrite (getToken_set _ _ Hv), Hres, Hs, Hread. cbn [Z.eqb Pos.eqb].
    unfold ret at 1. rewrite Hdir. cbn [sent].
    rewrite <- app_assoc. reflexivity.
Qed.

(** X19.  The other operations use a supplied token: nothing is acquired and
    the single request they send carries it. *)
Lemma operations_use_supplied_token (t : string) (w : World) :
  (forall uuid size,
      exists r, sent (snd (getUserImages uuid size (Some t) w)) = (sent w ++ [r])%list
                /\ reqHeaders r = withBearer t) /\
  (forall file fileList,
      sent (snd (getImagesByFilenames (file :: fileList) (Some t) w)) =
      (sent w ++ [filenamesSearch (file :: fileList) t])%list) /\
  (forall uuid filename,
      exists r, sent (snd (getFileInfo uuid filename (Some t) w)) = (sent w ++ [r])%list
                /\ reqHeaders r = withBearer t) /\
  (forall uuid,
      exists r, sent (snd (getUserFiles uuid (Some t) w)) = (sent w ++ [r])%list
                /\ reqHeaders r = withBearer t) /\
  (forall filename imageData,
      exists r, sent (snd (upload filename imageData (Some t) w)) = (sent w ++ [r])%list
                /\ In ("Authorization", "bearer " ++ t) (reqHeaders r)) /\
  (forall filename,
      exists r, sent (snd (remove filename (Some t) w)) = (sent w ++ [r])%list
                /\ In ("Authorization", "bearer " ++ t) (reqHeaders r)).
Proof.
  repeat split; intros.
  - eexists. split.
    + unfold Sirv.getUserImages, bind at 1. rewrite getTokenIfNotExist_supplied.
      apply bind_send_sent. quiet_continuation.
    + reflexivity.
  - unfold Sirv.getImagesByFilenames. cbn [List.length Nat.eqb].
    unfold bind at 1. rewrite getTokenIfNotExist_supplied.
    apply bind_send_sent. quiet_continuation.
  - eexists. split.
    + unfold Sirv.getFileInfo, bind at 1. rewrite getTokenIfNotExist_supplied.
      apply bind_send_sent. quiet_continuation.
    + reflexivity.
  - eexists. split.
    + unfold Sirv.getUserFiles, bind at 1. rewrite getTokenIfNotExist_supplied.
      apply bind_send_sent. quiet_continuation.
    + reflexivity.
  - eexists. split.
    + unfold Sirv.upload, bind at 1. rewrite getAdminTokenIfNotExist_supplied.
      apply bind_send_sent. quiet_continuation.
    + simpl. right. left. reflexivity.
  - eexists. split.
    + unfold Sirv.remove, bind at 1. rewrite getAdminTokenIfNotExist_supplied.
      apply bind_send_sent. quiet_continuation.
    + simpl. right. left. reflexivity.
Qed.

(** ** Search by filenames *)

(** The shape of a successful [getImagesByFilenames] on a list that is
    not empty. *)
Lemma getImagesByFilenames_ok (fileList : list string) (token : option string)
      (w w' : World) (r : FilenamesReturnType) :
  fileList <> [] ->
  getImagesByFilenames fileList token w = (Ok r, w') ->
  exists hits,
    mapPushing (fileImageOfHit uuidv5 uuidv5_URL) hits []
    = Ok (filesMediaList r, idList r).
Proof.
  intros Hne H. unfold Sirv.getImagesByFilenames in H.
  destruct fileList as [|file fileList]; [contradiction|].
  cbn [List.length Nat.eqb] in H. unfold bind at 1 in H.
  destruct (getTokenIfNotExist token w) as [[_t|e] w1]; [|discriminate].
  unfold bind at 1 in H.
  destruct (send (filenamesSearch (file :: fileList) _t) w1) as [[res|e] w2];
    [|discriminate].
  unfold bind at 1, lift at 1 in H.
  destruct (hitsOf res) as [[hits|]|e]; [|discriminate|discriminate].
  exists hits. unfold bind, lift, ret in H.
  destruct (mapPushing (fileImageOfHit uuidv5 uuidv5_URL) hits [])
    as [[ms ids]|e]; [|discriminate].
  inversion H; subst. reflexivity.
Qed.

(** A successful [getImagesByFilenames] on a list that is not empty
    resolved a token and got an answer of status 200 whose body has an
    array of hits, from which the result is mapped. *)
Lemma getImagesByFilenames_hits (fileList : list string) (token : option string)
      (w w' : World) (r : FilenamesReturnType) :
  fileList <> [] ->
  getImagesByFilenames fileList token w = (Ok r, w') ->
  exists _t w1 res hits,
    getTokenIfNotExist token w = (Ok _t, w1) /\
    transport (sent w1) (filenamesSearch fileList _t) = Resolves res /\
    status res = 200%Z /\
    dataHits (data res) = Some hits /\
    mapPushing (fileImageOfHit uuidv5 uuidv5_URL) hits []
    = Ok (filesMediaList r, idList r).
Proof.
  intros Hne H. unfold Sirv.getImagesByFilenames in H.
  destruct fileList as [|file fileList]; [contradiction|].
  cbn [List.length Nat.eqb] in H. unfold bind at 1 in H.
  destruct (getTokenIfNotExist token w) as [[_t|e] w1] eqn:Etok; [|discriminate].
  unfold bind at 1, Sirv.send in H.
  destruct (transport (sent w1) (filenamesSearch (file :: fileList) _t))
    as [res|e] eqn:Et; [|discriminate].
  unfold bind at 1, lift at 1, hitsOf, readHits in H.
  destruct (status res =? 200)%Z eqn:Es; [|discriminate].
  destruct (nullBody (data res)); [discriminate|].
  destruct (dataHits (data res)) as [hits|] eqn:Eh; [|discriminate].
  exists _t, w1, res, hits. apply Z.eqb_eq in Es.
  split; [reflexivity|]. split; [exact Et|]. split; [exact Es|].
  split; [exact Eh|].
  unfold bind, lift, ret in H.
  destruct (mapPushing (fileImageOfHit uuidv5 uuidv5_URL) hits [])
    as [[ms ids]|e]; [|discriminate].
  inversion H; subst. reflexivity.
Qed.

(** The records mapped from hits: one per hit, in order, with the empty
    owner id, the filename of the hit and the three fields of its
    metadata. *)
Lemma mapPushing_fileImages_hits (hits : list Hit) (acc : list string)
      (ms : list MediaType) (ids : list string) :
  mapPushing (fileImageOfHit uuidv5 uuidv5_URL) hits acc = Ok (ms, ids) ->
  Forall2 (fun entry m =>
             ownerId m = "" /\
             filename m = srcFilename (_source entry) /\
             meta m = JsObject
                        [("width", getProp "width" (srcMeta (_source entry)));
                         ("height", getProp "height" (srcMeta (_source entry)));
                         ("format", getProp "format" (srcMeta (_source entry)))])
          hits ms.
Proof.
  revert acc ms ids. induction hits as [|entry hits IH]; intros acc ms ids H.
  - simpl in H. inversion H; subst. constructor.
  - cbn [mapPushing] in H. unfold fileImageOfHit at 1 in H.
    destruct (stripMeta (srcMeta (_source entry))) as [stripped|e] eqn:Es;
      [|discriminate].
    match type of H with
    | match mapPushing ?f ?l ?a with _ => _ end = _ =>
        destruct (mapPushing f l a) as [[ms' ids']|e] eqn:Er; [|discriminate]
    end.
    inversion H; subst. constructor; [|exact (IH _ _ _ Er)].
    cbn [ownerId filename meta]. split; [reflexivity|]. split; [reflexivity|].
    apply stripMeta_shape. exact Es.
Qed.

(** C7.  On the empty list [getImagesByFilenames] returns the empty media
    list and the empty id list and leaves the world as it is: no token is
    acquired and no request is sent.  On a list that is not empty, a
    successful result was mapped from the hits of an answer of status 200
    to the search request: it has one record per hit, in order, and each
    record has the empty owner id, the filename of its hit, and as
    metadata the object of exactly the three fields [width], [height] and
    [format] whose values are those of the metadata of the hit. *)
Theorem getImagesByFilenames_contract :
  (forall token w,
      getImagesByFilenames [] token w =
      (Ok {| filesMediaList := []; idList := [] |}, w)) /\
  (forall fileList token w r w',
      fileList <> [] ->
      getImagesByFilenames fileList token w = (Ok r, w') ->
      exists _t w1 res hits,
        getTokenIfNotExist token w = (Ok _t, w1) /\
        transport (sent w1) (filenamesSearch fileList _t) = Resolves res /\
        status res = 200%Z /\
        dataHits (data res) = Some hits /\
        Forall2 (fun entry m =>
                   ownerId m = "" /\
                   filename m = srcFilename (_source entry) /\
                   meta m = JsObject
                              [("width", getProp "width" (srcMeta (_source entry)));
                               ("height", getProp "height" (srcMeta (_source entry)));
                               ("format", getProp "format" (srcMeta (_source entry)))])
                hits (filesMediaList r)).
Proof.
  split; [reflexivity|].
  intros fileList token w r w' Hne H.
  destruct (getImagesByFilenames_hits _ _ _ _ _ Hne H)
    as (_t & w1 & res & hits & Ht & Hres & Hs & Hh & Hmap).
  exists _t, w1, res, hits.
  split; [exact Ht|]. split; [exact Hres|]. split; [exact Hs|].
  split; [exact Hh|].
  exact (mapPushing_fileImages_hits _ _ _ _ Hmap).
Qed.

(** The shape of a successful [getUserImages]. *)
Lemma getUserImages_ok (uuid : string) (size : option Z) (token : option string)
      (w w' : World) (r : UserImageReturnType) :
  getUserImages uuid size token w = (Ok r, w') ->
  exists hits,
    mapPushing (userImageOfHit uuidv5 uuidv5_URL uuid) hits []
    = Ok (mediaList r, mediaIdList r).
Proof.
  intro H. unfold Sirv.getUserImages in H. unfold bind at 1 in H.
  destruct (getTokenIfNotExist token w) as [[_t|e] w1]; [|discriminate].
  unfold bind at 1 in H.
  match type of H with
  | context [client_post ?tr ?u ?b ?h w1] =>
      destruct (client_post tr u b h w1) as [[res|e] w2]; [|discriminate]
  end.
  unfold bind at 1, lift at 1 in H.
  destruct (hitsOf res) as [[hits|]|e]; [|discriminate|discriminate].
  exists hits. unfold bind, lift, ret in H.
  destruct (mapPushing (userImageOfHit uuidv5 uuidv5_URL uuid) hits [])
    as [[ms ids]|e]; [|discriminate].
  inversion H; subst. reflexivity.
Qed.

(** C8.  [mediaUrlHash] is a function of the string alone: equal strings
    give equal ids.  In every result of the client (the records and the id
    list of [getUserImages] and of [getImagesByFilenames], the record of
    [getFileInfo]) the media id of a record is [mediaUrlHash] of the
    filename of that record. *)
Theorem mediaId_is_hash_of_filename :
  (forall a b, a = b -> mediaUrlHash a = mediaUrlHash b) /\
  (forall uuid size token w r w',
      getUserImages uuid size token w = (Ok r, w') ->
      Forall (fun m => mediaId m = mediaUrlHash (filename m)) (mediaList r) /\
      mediaIdList r = map mediaId (mediaList r)) /\
  (forall fileList token w r w',
      getImagesByFilenames fileList token w = (Ok r, w') ->
      Forall (fun m => mediaId m = mediaUrlHash (filename m)) (filesMediaList r) /\
      idList r = map mediaId (filesMediaList r)) /\
  (forall uuid filename' token w m w',
      getFileInfo uuid filename' token w = (Ok m, w') ->
      filename m = filename' /\ mediaId m = mediaUrlHash (filename m)).
Proof.
  split; [intros a b ->; reflexivity|]. split; [|split].
  - intros uuid size token w r w' H.
    destruct (getUserImages_ok _ _ _ _ _ _ H) as (hits & Hmap).
    destruct (mapPushing_userImages uuid hits []) as (ms & Hms & Hall).
    rewrite Hms in Hmap. injection Hmap as Hl Hi.
    rewrite <- Hi, <- Hl. split; [exact Hall | reflexivity].
  - intros fileList token w r w' H.
    destruct fileList as [|file fileList].
    + cbv in H. inversion H; subst. split; [constructor | reflexivity].
    + assert (file :: fileList <> []) as Hne by discriminate.
      destruct (getImagesByFilenames_ok _ _ _ _ _ Hne H) as (hits & Hmap).
      apply mapPushing_fileImages in Hmap. destruct Hmap as [Hids Hall].
      split; [|exact Hids].
      eapply Forall_impl; [|exact Hall].
      intros m (_ & _ & Hid). exact Hid.
  - intros uuid filename' token w m w' H.
    unfold Sirv.getFileInfo in H. unfold bind at 1 in H.
    destruct (getTokenIfNotExist token w) as [[_t|e] w1]; [|discriminate].
    unfold bind at 1 in H.
    match type of H with
    | context [client_get ?tr ?u ?h w1] =>
        destruct (client_get tr u h w1) as [[res|e] w2]; [|discriminate]
    end.
    destruct (status res =? 200)%Z; [|discriminate].
    unfold bind, lift in H.
    destruct (readStat (data res)) as [[[[c t] ct] x]|e]; [|discriminate].
    inversion H; subst; split; reflexivity.
Qed.

(** C9.  For a list of filenames that is not empty, the search request of
    [getImagesByFilenames] has the result size 50 whatever the length of
    the list; the operation sends nothing but a token request and that
    search request, and sends the search request once a token is resolved. *)
Theorem filenames_search_size (fileList : list string) (token : option string)
        (w : World) :
  fileList <> [] ->
  (forall _t, url (filenamesSearch fileList _t) = "/files/search" /\
              exists query, body (filenamesSearch fileList _t)
                            = SearchBody query None 50%Z) /\
  (exists new,
      sent (snd (getImagesByFilenames fileList token w)) = (sent w ++ new)%list /\
      Forall (fun r => r = tokenRequest false \/
                       exists _t, r = filenamesSearch fileList _t) new) /\
  (forall _t w1,
      getTokenIfNotExist token w = (Ok _t, w1) ->
      sent (snd (getImagesByFilenames fileList token w)) =
      (sent w1 ++ [filenamesSearch fileList _t])%list).
Proof.
  intro Hne. destruct fileList as [|file fileList]; [contradiction|].
  split; [intro _t; split; [reflexivity | eexists; reflexivity]|].
  assert (forall _t w1,
             getTokenIfNotExist token w = (Ok _t, w1) ->
             sent (snd (getImagesByFilenames (file :: fileList) token w)) =
             (sent w1 ++ [filenamesSearch (file :: fileList) _t])%list) as Hsearch.
  { intros _t w1 H. unfold Sirv.getImagesByFilenames. cbn [List.length Nat.eqb].
    unfold bind at 1. rewrite H. apply bind_send_sent. quiet_continuation. }
  split; [|exact Hsearch].
  destruct (getTokenIfNotExist_sent token w) as (new & Hnew & Hall).
  destruct (getTokenIfNotExist token w) as [[_t|e] w1] eqn:E.
  - exists (new ++ [filenamesSearch (file :: fileList) _t])%list. split.
    + rewrite (Hsearch _ _ eq_refl). cbn [snd] in Hnew. rewrite Hnew.
      symmetry. apply app_assoc.
    + apply Forall_app. split.
      * eapply Forall_impl; [|exact Hall]. intros r Hr. left. exact Hr.
      * constructor; [right; eexists; reflexivity | constructor].
  - exists new. split.
    + unfold Sirv.getImagesByFilenames. cbn [List.length Nat.eqb].
      unfold bind at 1. rewrite E. exact Hnew.
    + eapply Forall_impl; [|exact Hall]. intros r Hr. left. exact Hr.
Qed.

(** ** The owner marker file *)

(** C10.  With a [null] owner id [addUserIdFile] returns [false] and
    leaves the world as it is: no token is acquired and no request is sent.
    With an owner id it sends nothing but a token request and the upload
    of the marker, whose body holds the owner id in lower case and a
    timestamp; once a token is resolved the upload is sent, and its
    timestamp is the time read then. *)
Theorem addUserIdFile_contract (filename : string) (token : option string)
        (w : World) :
  addUserIdFile filename None token w = (Ok false, w) /\
  (forall uid ts _t,
      body (uidFileRequest filename uid ts _t) = UidBody (toLowerCase uid) ts) /\
  (forall uid,
      (exists new,
          sent (snd (addUserIdFile filename (Some uid) token w))
          = (sent w ++ new)%list /\
          Forall (fun r => r = tokenRequest true \/
                           exists ts _t, r = uidFileRequest filename uid ts _t) new) /\
      (forall _t w1,
          getAdminTokenIfNotExist token w = (Ok _t, w1) ->
          sent (snd (addUserIdFile filename (Some uid) token w)) =
          (sent w1 ++ [uidFileRequest filename uid (Date_now w1) _t])%list)).
Proof.
  split; [reflexivity|]. split; [reflexivity|]. intro uid.
  assert (forall _t w1,
             getAdminTokenIfNotExist token w = (Ok _t, w1) ->
             sent (snd (addUserIdFile filename (Some uid) token w)) =
             (sent w1 ++ [uidFileRequest filename uid (Date_now w1) _t])%list)
    as Hupload.
  { intros _t w1 H. unfold Sirv.addUserIdFile, tryCatch, bind at 1. rewrite H.
    unfold bind, client_post, Sirv.send.
    fold (uidFileRequest filename uid (Date_now w1) _t).
    destruct (transport (sent w1) (uidFileRequest filename uid (Date_now w1) _t))
      as [res|e]; [|reflexivity].
    destruct ((200 <=? status res)%Z && (status res <=? 204)%Z); reflexivity. }
  split; [|exact Hupload].
  destruct (getAdminTokenIfNotExist_sent token w) as (new & Hnew & Hall).
  destruct (getAdminTokenIfNotExist token w) as [[_t|e] w1] eqn:E.
  - exists (new ++ [uidFileRequest filename uid (Date_now w1) _t])%list. split.
    + rewrite (Hupload _ _ eq_refl). cbn [snd] in Hnew. rewrite Hnew.
      symmetry. apply app_assoc.
    + apply Forall_app. split.
      * eapply Forall_impl; [|exact Hall]. intros r Hr. left. exact Hr.
      * constructor; [right; do 2 eexists; reflexivity | constructor].
  - exists new. split.
    + unfold Sirv.addUserIdFile, tryCatch, bind at 1. rewrite E. exact Hnew.
    + eapply Forall_impl; [|exact Hall]. intros r Hr. left. exact Hr.
Qed.

End ClientFacts.

(* ===================================================================== *)
(** * The token manager *)
(* ===================================================================== *)

Section TokenContract.

Import Sirv.

Variable SIRV_CONFIG : SirvConfig.

Local Abbreviation tokenParams := (Sirv.tokenParams SIRV_CONFIG).
Local Abbreviation tokenRequest := (Sirv.tokenRequest SIRV_CONFIG).
Local Abbreviation getToken := (Sirv.getToken SIRV_CONFIG).

(** What the defaults of [axios] make of an answer. *)
Lemma axiosDefault_answer (remote : list Request -> Request -> Answer)
      (history : list Request) (r : Request) (res : Response) :
  remote history r = Responds res ->
  axiosDefault remote history r =
  if ((200 <=? status res) && (status res <? 300))%Z then Resolves res
  else Rejects (TransportError (Some (status res))).
Proof. intro H. unfold axiosDefault. rewrite H. reflexivity. Qed.


End TokenContract.

(* ===================================================================== *)
(** * The statements at concrete inputs *)
(* ===================================================================== *)

Section ClientWitnesses.

Import Sirv.

Local Abbreviation run_getToken cfg srv := (Sirv.getToken cfg srv).
Local Abbreviation run_createUserDir cfg srv := (Sirv.createUserDir cfg srv).
Local Abbreviation run_getImagesByFilenames cfg srv :=
  (Sirv.getImagesByFilenames cfg srv Inputs.hash Inputs.namespaceURL
                             Inputs.lastSegment Inputs.keep).
Local Abbreviation run_getUserImages cfg srv :=
  (Sirv.getUserImages cfg srv Inputs.hash Inputs.namespaceURL).
Local Abbreviation run_addUserIdFile cfg srv :=
  (Sirv.addUserIdFile cfg srv Inputs.clock Inputs.lower).



Lemma createUserDir_propagates_token_failure_witness :
  fst (run_createUserDir Inputs.configWithoutAdmin Inputs.server "abc" None
                         Inputs.emptyWorld)
  = Throw (Error "Sirv API.getUserImages(): unable to get a token") /\
  fst (run_createUserDir Inputs.config Inputs.unreachableServer "abc" None
                         Inputs.emptyWorld)
  = Throw (TransportError None).
Proof.
  split.
  - apply (createUserDir_propagates_token_failure
             Inputs.configWithoutAdmin Inputs.server "abc" None Inputs.emptyWorld).
    left. reflexivity.
  - apply (proj2 (createUserDir_propagates_token_failure
                    Inputs.config Inputs.unreachableServer "abc" None
                    Inputs.emptyWorld)
                 "rw-id" "rw-secret" (TransportError None));
      reflexivity.
Defined.

Lemma createUserDir_ignores_supplied_token_witness :
  sent (snd (run_createUserDir Inputs.config Inputs.server "abc"
                               (Some "caller-token") Inputs.emptyWorld))
  = [Sirv.tokenRequest Inputs.config true; mkdirRequest "abc" "fresh-token"].
Proof.
  destruct (createUserDir_ignores_supplied_token
              Inputs.config Inputs.server "abc" "caller-token" Inputs.emptyWorld
              "rw-id" "rw-secret" eq_refl eq_refl) as [_ H].
  apply (H _ "fresh-token" eq_refl); reflexivity.
Defined.

Lemma getImagesByFilenames_contract_witness :
  exists r w',
    ["one.jpg"; "two.png"] <> [] /\
    run_getImagesByFilenames Inputs.config Inputs.server ["one.jpg"; "two.png"]
                             (Some "caller-token") Inputs.emptyWorld = (Ok r, w') /\
    map meta (filesMediaList r)
    = [JsObject [("width", JsNumber 800); ("height", JsNumber 600);
                 ("format", JsString "JPEG")];
       JsObject [("width", JsNumber 10); ("height", JsUndefined);
                 ("format", JsUndefined)]] /\
    exists _t w1 res hits,
      Sirv.getTokenIfNotExist Inputs.config Inputs.server (Some "caller-token")
                              Inputs.emptyWorld = (Ok _t, w1) /\
      Inputs.server (sent w1)
                    (Sirv.filenamesSearch Inputs.lastSegment Inputs.keep
                                          ["one.jpg"; "two.png"] _t)
      = Resolves res /\
      status res = 200%Z /\
      dataHits (data res) = Some hits /\
      Forall2 (fun entry m =>
                 ownerId m = "" /\
                 filename m = srcFilename (_source entry) /\
                 meta m = JsObject
                            [("width", getProp "width" (srcMeta (_source entry)));
                             ("height", getProp "height" (srcMeta (_source entry)));
                             ("format", getProp "format" (srcMeta (_source entry)))])
              hits (filesMediaList r).
Proof.
  eexists. eexists.
  assert (["one.jpg"; "two.png"] <> []) as Hne by discriminate.
  split; [exact Hne|]. split; [cbv; reflexivity|]. split; [reflexivity|].
  eapply (proj2 (getImagesByFilenames_contract
                   Inputs.config Inputs.server Inputs.hash Inputs.namespaceURL
                   Inputs.lastSegment Inputs.keep)
                ["one.jpg"; "two.png"] (Some "caller-token") Inputs.emptyWorld
                _ _ Hne).
  cbv. reflexivity.
Defined.

Lemma mediaId_is_hash_of_filename_witness :
  exists r w',
    run_getUserImages Inputs.config Inputs.server "abc" None None Inputs.emptyWorld
    = (Ok r, w') /\
    mediaIdList r = [Inputs.hash "/u/abc/one.jpg" Inputs.namespaceURL;
                     Inputs.hash "/u/abc/two.png" Inputs.namespaceURL] /\
    Forall (fun m => mediaId m
                     = Sirv.mediaUrlHash Inputs.hash Inputs.namespaceURL (filename m))
           (mediaList r) /\
    mediaIdList r = map mediaId (mediaList r).
Proof.
  eexists. eexists. split; [cbv; reflexivity|]. split; [reflexivity|].
  eapply (proj1 (proj2 (mediaId_is_hash_of_filename
                          Inputs.config Inputs.server Inputs.hash
                          Inputs.namespaceURL Inputs.lastSegment Inputs.keep
                          Inputs.keep))
                "abc" None None Inputs.emptyWorld _ _).
  cbv. reflexivity.
Defined.

Lemma filenames_search_size_witness :
  ["one.jpg"; "two.png"] <> [] /\
  sent (snd (run_getImagesByFilenames Inputs.config Inputs.server
                                      ["one.jpg"; "two.png"] None Inputs.emptyWorld))
  = [Sirv.tokenRequest Inputs.config false;
     {| method := POST; url := "/files/search";
        body := SearchBody
                  "(filename:one.jpg OR filename:two.png) AND -dirname:\/.Trash"
                  None 50%Z;
        reqHeaders := [("content-type", "application/json");
                       ("Authorization", "bearer fresh-token")] |}].
Proof.
  assert (["one.jpg"; "two.png"] <> []) as Hne by discriminate.
  split; [exact Hne|].
  destruct (filenames_search_size
              Inputs.config Inputs.server Inputs.hash Inputs.namespaceURL
              Inputs.lastSegment Inputs.keep
              ["one.jpg"; "two.png"] None Inputs.emptyWorld Hne) as (_ & _ & H).
  apply (H "fresh-token"
           {| sent := [Sirv.tokenRequest Inputs.config false]; console := [] |}).
  reflexivity.
Defined.

Lemma addUserIdFile_contract_witness :
  run_addUserIdFile Inputs.config Inputs.server "/u/abc/uid.json" None None
                    Inputs.emptyWorld = (Ok false, Inputs.emptyWorld) /\
  sent (snd (run_addUserIdFile Inputs.config Inputs.server "/u/abc/uid.json"
                               (Some "AbC_User") (Some "caller-token")
                               Inputs.emptyWorld))
  = [ {| method := POST; url := "/files/upload?filename=/u/abc/uid.json";
         body := UidBody "abc_user" 1650000000000%Z;
         reqHeaders := [("Content-Type", "application/json");
                        ("Authorization", "bearer caller-token")] |} ].
Proof.
  destruct (addUserIdFile_contract
              Inputs.config Inputs.server Inputs.clock Inputs.lower
              "/u/abc/uid.json" None Inputs.emptyWorld) as [Hnull _].
  split; [exact Hnull|].
  destruct (addUserIdFile_contract
              Inputs.config Inputs.server Inputs.clock Inputs.lower
              "/u/abc/uid.json" (Some "caller-token") Inputs.emptyWorld)
    as (_ & _ & H).
  destruct (H "AbC_User") as [_ Hsent].
  apply (Hsent "caller-token" Inputs.emptyWorld). reflexivity.
Defined.

(** A rejected directory request is logged and gives [false]. *)
Lemma createUserDir_swallows_rejected_request :
  run_createUserDir Inputs.config Inputs.tokenOnlyServer "abc" None Inputs.emptyWorld
  = (Ok false,
     {| sent := [Sirv.tokenRequest Inputs.config true;
                 mkdirRequest "abc" "fresh-token"];
        console := [[LogString "Image API createUserDir() failed"; LogNumber 409];
                    [LogExn (TransportError (Some 409%Z))]] |}).
Proof. reflexivity. Qed.

End ClientWitnesses.

(* ===================================================================== *)
(** * The matcher against the meaning of patterns *)
(* ===================================================================== *)

Section PatternFacts.

Import Helper.

Lemma append_nil_r (s : string) : s ++ "" = s.
Proof. induction s as [|c s IH]; simpl; [reflexivity | rewrite IH; reflexivity]. Qed.

Lemma append_assoc (s1 s2 s3 : string) : (s1 ++ s2) ++ s3 = s1 ++ (s2 ++ s3).
Proof.
  induction s1 as [|c s1 IH]; simpl; [reflexivity | rewrite IH; reflexivity].
Qed.

Lemma length_append (s1 s2 : string) :
  String.length (s1 ++ s2) = (String.length s1 + String.length s2)%nat.
Proof.
  induction s1 as [|c s1 IH]; simpl; [reflexivity | rewrite IH; reflexivity].
Qed.

Lemma length_nonempty (s : string) : s <> "" -> (0 < String.length s)%nat.
Proof. destruct s; [congruence | simpl; lia]. Qed.

Lemma below_within (hi : option nat) (cnt : nat) :
  below hi cnt = true -> within hi (S cnt).
Proof.
  destruct hi as [h|]; simpl; [|trivial].
  intro H. apply Nat.ltb_lt in H. lia.
Qed.

Lemma within_below (hi : option nat) (cnt m : nat) :
  within hi (cnt + S m) -> below hi cnt = true.
Proof.
  destruct hi as [h|]; simpl; [|trivial].
  intro H. apply Nat.ltb_lt. lia.
Qed.

(** [run] only looks at the results of its continuation. *)
Lemma run_ext (r : regex) :
  forall b s k1 k2,
    (forall b' s', k1 b' s' = k2 b' s') -> run r b s k1 = run r b s k2.
Proof.
  induction r as [|p|r1 IH1 r2 IH2|r1 IH1 r2 IH2|r IH lo hi]; intros b s k1 k2 Hk.
  - simpl. destruct b; [apply Hk | reflexivity].
  - simpl. destruct s as [|c s]; [reflexivity|]. destruct (p c); [apply Hk | reflexivity].
  - simpl. apply IH1. intros b' s'. apply IH2. exact Hk.
  - simpl. rewrite (IH1 b s k1 k2 Hk), (IH2 b s k1 k2 Hk). reflexivity.
  - cbn [run]. generalize (String.length s) as fuel. generalize 0%nat as cnt.
    intros cnt fuel. revert cnt b s.
    induction fuel as [|fuel IHf]; intros cnt b s.
    + rewrite Hk. reflexivity.
    + rewrite Hk. destruct (below hi cnt); [|reflexivity].
      erewrite IH; [reflexivity|].
      intros b' s'. cbv beta.
      destruct (String.length s' <? String.length s)%nat; [apply IHf | reflexivity].
Qed.

Lemma run_Rep (r : regex) (lo : nat) (hi : option nat) (b : bool) (s : string)
      (k : bool -> string -> option string) :
  run (Rep r lo hi) b s k = repLoop (run r) lo hi k (String.length s) 0 b s.
Proof.
  cbn [run]. generalize (String.length s) as fuel. generalize 0%nat as cnt.
  intros cnt fuel. revert cnt b s.
  induction fuel as [|fuel IHf]; intros cnt b s.
  - reflexivity.
  - cbn [repLoop]. destruct (below hi cnt); [|reflexivity].
    erewrite run_ext; [reflexivity|].
    intros b' s'. cbv beta.
    destruct (String.length s' <? String.length s)%nat; [apply IHf | reflexivity].
Qed.

(** ** Soundness: a success of the matcher is a match *)

Section Loop.

Variable step : bool -> string -> (bool -> string -> option string) -> option string.
Variable R : bool -> string -> bool -> Prop.
Variables (lo : nat) (hi : option nat).
Variable k : bool -> string -> option string.

Hypothesis step_sound :
  forall b s k' x,
    step b s k' = Some x ->
    exists w s' b', s = w ++ s' /\ R b w b' /\ k' b' s' = Some x.

Lemma repLoop_sound (fuel cnt : nat) (b : bool) (s x : string) :
  within hi cnt ->
  repLoop step lo hi k fuel cnt b s = Some x ->
  exists w s' b' m,
    s = w ++ s' /\ Iter R m b w b' /\ (lo <= cnt + m)%nat /\
    within hi (cnt + m) /\ k b' s' = Some x.
Proof.
  revert cnt b s.
  assert (forall cnt b s,
             within hi cnt ->
             (if (lo <=? cnt)%nat then k b s else None) = Some x ->
             exists w s' b' m,
               s = w ++ s' /\ Iter R m b w b' /\ (lo <= cnt + m)%nat /\
               within hi (cnt + m) /\ k b' s' = Some x) as Hstop.
  { intros cnt b s Hw H. destruct (lo <=? cnt)%nat eqn:E; [|discriminate].
    apply Nat.leb_le in E. exists "", s, b, 0%nat.
    rewrite Nat.add_0_r. repeat split; try assumption. constructor. }
  induction fuel as [|fuel IH]; intros cnt b s Hw H; simpl in H.
  - apply Hstop; assumption.
  - destruct (below hi cnt) eqn:Eb; [|apply Hstop; assumption].
    match type of H with
    | match ?m with _ => _ end = _ => destruct m as [y|] eqn:Es
    end; [|apply Hstop; assumption].
    inversion H; subst y. clear H.
    apply step_sound in Es. destruct Es as (w1 & s1 & b1 & -> & HR & Hk).
    destruct (String.length s1 <? String.length (w1 ++ s1))%nat eqn:El;
      [|discriminate].
    apply Nat.ltb_lt in El. rewrite length_append in El.
    apply IH in Hk; [|apply below_within; exact Eb].
    destruct Hk as (w2 & s2 & b2 & m & -> & Hit & Hlo & Hhi & Hk).
    exists (w1 ++ w2), s2, b2, (S m). repeat split.
    + symmetry. apply append_assoc.
    + econstructor; [|exact HR|exact Hit]. intros ->. simpl in El. lia.
    + lia.
    + replace (cnt + S m)%nat with (S cnt + m)%nat by lia. exact Hhi.
    + exact Hk.
Qed.

Hypothesis step_complete :
  forall b w b' s' k' x,
    R b w b' -> k' b' s' = Some x -> exists y, step b (w ++ s') k' = Some y.

Lemma repLoop_complete (m : nat) :
  forall fuel cnt b w b' s' x,
    Iter R m b w b' ->
    (String.length w <= fuel)%nat ->
    (lo <= cnt + m)%nat -> within hi (cnt + m) ->
    k b' s' = Some x ->
    exists y, repLoop step lo hi k fuel cnt b (w ++ s') = Some y.
Proof.
  induction m as [|m IH]; intros fuel cnt b w b' s' x Hit Hfuel Hlo Hhi Hk.
  - inversion Hit; subst. simpl append.
    assert ((lo <=? cnt)%nat = true) as E by (apply Nat.leb_le; lia).
    destruct fuel as [|fuel]; simpl; rewrite E.
    + eauto.
    + destruct (below hi cnt); [|eauto].
      match goal with
      | |- exists y, match ?t with _ => _ end = _ => destruct t
      end; eauto.
  - inversion Hit as [|n b0 b1 b2 w1 w2 Hne HR Hrest]; subst.
    pose proof (length_nonempty _ Hne) as Hpos.
    rewrite length_append in Hfuel.
    destruct fuel as [|fuel]; [lia|]. simpl.
    rewrite (within_below _ _ _ Hhi).
    destruct (IH fuel (S cnt) b1 w2 b' s' x Hrest) as (y & Hy);
      [lia | lia | replace (S cnt + m)%nat with (cnt + S m)%nat by lia; exact Hhi
       | exact Hk |].
    rewrite append_assoc.
    edestruct (step_complete b w1 b1 (w2 ++ s')) as (y' & Hy'); [exact HR | |].
    2: { rewrite Hy'. eauto. }
    cbv beta.
    assert ((String.length (w2 ++ s') <? String.length (w1 ++ w2 ++ s'))%nat = true)
      as El by (apply Nat.ltb_lt; rewrite (length_append w1); lia).
    rewrite El. exact Hy.
Qed.

End Loop.

(** A success of [run] is a match of the pattern at the front of the
    input, followed by a success of the continuation on the rest. *)
Lemma run_sound (r : regex) :
  forall b s k x,
    run r b s k = Some x ->
    exists w s' b', s = w ++ s' /\ Matches r b w b' /\ k b' s' = Some x.
Proof.
  induction r as [|p|r1 IH1 r2 IH2|r1 IH1 r2 IH2|r IH lo hi]; intros b s k x H.
  - simpl in H. destruct b; [|discriminate].
    exists "", s, true. repeat split. exact H.
  - simpl in H. destruct s as [|c s]; [discriminate|].
    destruct (p c) eqn:E; [|discriminate].
    exists (String c ""), s, false. repeat split; [|exact H].
    exists c. repeat split. exact E.
  - simpl in H. apply IH1 in H. destruct H as (w1 & s1 & b1 & -> & M1 & H).
    apply IH2 in H. destruct H as (w2 & s2 & b2 & -> & M2 & H).
    exists (w1 ++ w2), s2, b2. repeat split.
    + symmetry. apply append_assoc.
    + simpl. exists w1, w2, b1. repeat split; assumption.
    + exact H.
  - simpl in H. destruct (run r1 b s k) as [y|] eqn:E.
    + inversion H; subst y. apply IH1 in E.
      destruct E as (w & s' & b' & -> & M & Hk).
      exists w, s', b'. repeat split; [left; exact M | exact Hk].
    + apply IH2 in H. destruct H as (w & s' & b' & -> & M & Hk).
      exists w, s', b'. repeat split; [right; exact M | exact Hk].
  - rewrite run_Rep in H.
    apply (repLoop_sound (run r) (Matches r) lo hi k IH) in H.
    + destruct H as (w & s' & b' & m & -> & Hit & Hlo & Hhi & Hk).
      exists w, s', b'. repeat split; [|exact Hk].
      simpl. exists m. repeat split; assumption.
    + destruct hi; simpl; [lia | trivial].
Qed.

(** ** Completeness: where a match exists the matcher succeeds *)

Lemma run_complete (r : regex) :
  forall b w b' s' k x,
    Matches r b w b' -> k b' s' = Some x ->
    exists y, run r b (w ++ s') k = Some y.
Proof.
  induction r as [|p|r1 IH1 r2 IH2|r1 IH1 r2 IH2|r IH lo hi];
    intros b w b' s' k x M Hk.
  - destruct M as (-> & -> & ->). simpl. eauto.
  - destruct M as (c & -> & Hp & ->). simpl. rewrite Hp. eauto.
  - destruct M as (w1 & w2 & b1 & -> & M1 & M2).
    destruct (IH2 _ _ _ _ _ _ M2 Hk) as (y & Hy).
    rewrite append_assoc. simpl.
    apply (IH1 b w1 b1 (w2 ++ s') (fun b0 s0 => run r2 b0 s0 k) y M1 Hy).
  - simpl. destruct M as [M|M].
    + destruct (IH1 _ _ _ _ _ _ M Hk) as (y & Hy). rewrite Hy. eauto.
    + destruct (run r1 b (w ++ s') k); [eauto|].
      apply (IH2 _ _ _ _ _ _ M Hk).
  - destruct M as (m & Hlo & Hhi & Hit). rewrite run_Rep.
    apply (repLoop_complete (run r) (Matches r) lo hi k IH m _ 0%nat b w b' s' x);
      try assumption.
    rewrite length_append. lia.
Qed.

(** ** The leftmost match *)

Lemma search_searchWith (r : regex) (s : string) :
  forall b, search r b s = searchWith r (fun _ rest => Some rest) b s.
Proof.
  induction s as [|c s IH]; intro b; simpl.
  - reflexivity.
  - rewrite IH. reflexivity.
Qed.

Lemma searchWith_sound (r : regex) (k : bool -> string -> option string)
      (s : string) :
  forall b pre rest,
    searchWith r k b s = Some (pre, rest) ->
    exists w s' b',
      s = pre ++ w ++ s' /\ Matches r (startFlag b pre) w b' /\
      k b' s' = Some rest.
Proof.
  induction s as [|c s IH]; intros b pre rest H.
  - simpl in H. destruct (run r b "" k) as [y|] eqn:E; [|discriminate].
    inversion H; subst. apply run_sound in E. exact E.
  - simpl in H. destruct (run r b (String c s) k) as [y|] eqn:E.
    + inversion H; subst. apply run_sound in E. exact E.
    + destruct (searchWith r k false s) as [[pre' rest']|] eqn:Es; [|discriminate].
      inversion H; subst. apply IH in Es.
      destruct Es as (w & s' & b' & -> & M & Hk).
      exists w, s', b'. repeat split; [|exact Hk].
      destruct pre'; exact M.
Qed.

Lemma searchWith_complete (r : regex) (k : bool -> string -> option string)
      (pre : string) :
  forall b w b' s' x,
    Matches r (startFlag b pre) w b' -> k b' s' = Some x ->
    exists found, searchWith r k b (pre ++ w ++ s') = Some found.
Proof.
  induction pre as [|c pre IH]; intros b w b' s' x M Hk.
  - simpl in M. simpl append.
    destruct (run_complete r b w b' s' k x M Hk) as (y & Hy).
    destruct (w ++ s') as [|c t] eqn:E; simpl; rewrite Hy; eauto.
  - simpl append. simpl searchWith.
    destruct (run r b (String c (pre ++ w ++ s')) k); [eauto|].
    destruct (IH false w b' s' x) as ([pre' rest'] & Hf).
    + destruct pre; exact M.
    + exact Hk.
    + rewrite Hf. eauto.
Qed.

Lemma test_spec (r : regex) (s : string) :
  test r s = true <->
  exists pre w post b',
    s = pre ++ w ++ post /\ Matches r (startFlag true pre) w b'.
Proof.
  unfold test. rewrite search_searchWith. split.
  - destruct (searchWith r (fun _ rest => Some rest) true s) as [[pre rest]|] eqn:E;
      [|discriminate].
    intros _. apply searchWith_sound in E.
    destruct E as (w & s' & b' & -> & M & _). exists pre, w, s', b'. split; [reflexivity | exact M].
  - intros (pre & w & post & b' & -> & M).
    destruct (searchWith_complete r (fun _ rest => Some rest) pre true w b' post post
                                  M eq_refl) as (found & ->).
    reflexivity.
Qed.

Lemma testToEnd_spec (r : regex) (s : string) :
  testToEnd r s = true <->
  exists pre w b', s = pre ++ w /\ Matches r (startFlag true pre) w b'.
Proof.
  unfold testToEnd. split.
  - destruct (searchWith r atEnd true s) as [[pre rest]|] eqn:E; [|discriminate].
    intros _. apply searchWith_sound in E.
    destruct E as (w & s' & b' & -> & M & Hk).
    destruct s'; [|discriminate]. rewrite append_nil_r.
    exists pre, w, b'. split; [reflexivity | exact M].
  - intros (pre & w & b' & -> & M).
    destruct (searchWith_complete r atEnd pre true w b' "" "" M eq_refl)
      as (found & Hf).
    rewrite append_nil_r in Hf. rewrite Hf. reflexivity.
Qed.

End PatternFacts.

(* ===================================================================== *)
(** * Properties of the name sanitizer and of the username check *)
(* ===================================================================== *)

Section SanitizerFacts.

Import Helper.

Lemma anyChar_append (p : ascii -> bool) (u v : string) :
  anyChar p (u ++ v) = anyChar p u || anyChar p v.
Proof.
  induction u as [|c u IH]; simpl; [reflexivity|].
  rewrite IH. apply orb_assoc.
Qed.

(** Every match of the pattern holds one of the four characters. *)
Lemma token_decorative (b b' : bool) (tok : string) :
  Matches sanitizePattern b tok b' -> anyChar decorative tok = true.
Proof.
  intros [M|[M|M]].
  - destruct M as (w1 & w2 & b1 & -> & _ & M).
    destruct M as (w3 & w4 & b2 & -> & _ & M).
    destruct M as (w5 & w6 & b3 & -> & _ & M).
    destruct M as (w7 & w8 & b4 & -> & (c & -> & Hc & _) & _).
    apply Ascii.eqb_eq in Hc. subst c.
    rewrite !anyChar_append. simpl. rewrite !orb_true_r. reflexivity.
  - destruct M as (w1 & w2 & b1 & -> & _ & (c & -> & Hc & _)).
    rewrite anyChar_append. simpl. unfold decorative.
    unfold dashColon in Hc.
    destruct (Ascii.eqb c "-"), (Ascii.eqb c ":"); try discriminate;
      rewrite ?orb_true_r; reflexivity.
  - destruct M as (w1 & w2 & b1 & -> & _ & (c & -> & Hc & _)).
    apply Ascii.eqb_eq in Hc. subst c.
    rewrite anyChar_append. simpl. rewrite !orb_true_r. reflexivity.
Qed.

Lemma matches_nonempty_length (u tok v : string) :
  (String.length (u ++ v) <= String.length (u ++ tok ++ v))%nat.
Proof. rewrite !length_append. lia. Qed.

(** What [sanitizeName] does, by the leftmost match. *)
Lemma sanitizeName_cases (s : string) :
  (search sanitizePattern true s = None /\ sanitizeName s = s) \/
  exists pre tok post b',
    s = pre ++ tok ++ post /\ sanitizeName s = pre ++ post /\
    Matches sanitizePattern (startFlag true pre) tok b'.
Proof.
  unfold sanitizeName, replaceFirst.
  destruct (search sanitizePattern true s) as [[pre rest]|] eqn:E.
  - right. rewrite search_searchWith in E. apply searchWith_sound in E.
    destruct E as (w & s' & b' & -> & M & Hk). inversion Hk; subst.
    exists pre, w, rest, b'. repeat split. exact M.
  - left. split; reflexivity.
Qed.

(** X4.  The result of [sanitizeName] is the input with at most one block of
    consecutive characters taken out, hence never longer than the input;
    a block that is taken out is a match of the pattern at its place, and
    one that starts with an opening parenthesis is at the start of the
    input. *)
Theorem sanitizeName_removes_one_block (s : string) :
  (String.length (sanitizeName s) <= String.length s)%nat /\
  (sanitizeName s = s \/
   exists pre tok post b',
     s = pre ++ tok ++ post /\ sanitizeName s = pre ++ post /\
     Matches sanitizePattern (startFlag true pre) tok b' /\
     anyChar decorative tok = true /\
     (forall t, tok = String "(" t -> pre = "")).
Proof.
  destruct (sanitizeName_cases s) as [[_ H]|(pre & tok & post & b' & Hs & Hr & M)].
  - rewrite H. split; [lia | left; reflexivity].
  - split.
    + rewrite Hr, Hs. apply matches_nonempty_length.
    + right. exists pre, tok, post, b'. repeat split; try assumption.
      * eapply token_decorative. exact M.
      * intros t Ht. subst tok. destruct pre as [|c pre]; [reflexivity|].
        exfalso. simpl in M. destruct M as [M|[M|M]].
        -- destruct M as (w1 & w2 & b1 & _ & (Hb & _) & _). discriminate.
        -- destruct M as (w1 & w2 & b1 & Hw & [M|M] & _).
           ++ destruct M as (w3 & w4 & b2 & -> & (n & _ & Hn & Hit) & (d & -> & Hd & _)).
              inversion Hit as [|n' x1 x2 x3 u1 u2 Hne (e & -> & He & _) Hrest]; subst.
              ** simpl in Hw. inversion Hw; subst. discriminate.
              ** simpl in Hw. inversion Hw; subst. discriminate.
           ++ destruct M as (w3 & w4 & b2 & -> & (d & -> & Hd & _) & _).
              simpl in Hw. inversion Hw; subst. discriminate.
        -- destruct M as (w1 & w2 & b1 & Hw & (n & Hn & _ & Hit) & _).
           inversion Hit as [|n' x1 x2 x3 u1 u2 Hne (e & -> & He & _) Hrest]; subst.
           ++ lia.
           ++ simpl in Hw. inversion Hw; subst. discriminate.
Qed.

(** X5.  A name without a closing parenthesis, a hyphen, a colon or a dot is
    returned as it is. *)
Theorem sanitizeName_keeps_plain_names (s : string) :
  anyChar decorative s = false -> sanitizeName s = s.
Proof.
  intro H.
  destruct (sanitizeName_cases s) as [[_ Hs]|(pre & tok & post & b' & Hs & _ & M)].
  - exact Hs.
  - apply token_decorative in M. subst s.
    rewrite !anyChar_append, M, orb_true_r in H. discriminate.
Qed.

(** ** Leading tokens *)

Ltac by_chars :=
  intros;
  repeat match goal with c : ascii |- _ => destruct c as [[] [] [] [] [] [] [] []] end;
  vm_compute in *; first [discriminate | repeat split; reflexivity].

Lemma digit19_facts c : digit19 c = true -> Ascii.eqb "(" c = false /\ digit c = true /\ letter c = false.
Proof. by_chars. Qed.
Lemma digit_facts c : digit c = true -> Ascii.eqb "(" c = false /\ letter c = false.
Proof. by_chars. Qed.
Lemma dashColon_facts c : dashColon c = true -> digit19 c = false /\ digit c = false.
Proof. by_chars. Qed.
Lemma letter_facts c : letter c = true -> Ascii.eqb "(" c = false /\ digit c = false /\ digit19 c = false /\ Ascii.eqb "." c = false.
Proof. by_chars. Qed.


Lemma replace_at_start (r : regex) (s rest : string) :
  run r true s keepRest = Some rest -> replaceFirst r s = rest.
Proof.
  intro H. unfold replaceFirst. unfold keepRest in H.
  destruct s; simpl; rewrite H; reflexivity.
Qed.

Lemma run_Seq (r1 r2 : regex) (b : bool) (s : string)
      (k : bool -> string -> option string) :
  run (Seq r1 r2) b s k = run r1 b s (fun b' s' => run r2 b' s' k).
Proof. reflexivity. Qed.

Lemma run_Alt (r1 r2 : regex) (b : bool) (s : string)
      (k : bool -> string -> option string) :
  run (Alt r1 r2) b s k =
  match run r1 b s k with Some x => Some x | None => run r2 b s k end.
Proof. reflexivity. Qed.

(** The spaces after the closing parenthesis are all taken. *)
Lemma spaces_loop (rest : string) :
  forall fuel cnt b,
    (String.length rest <= fuel)%nat ->
    repLoop (run (chr " ")) 0 None keepRest fuel cnt b rest
    = Some (dropSpaces rest).
Proof.
  induction rest as [|c rest IH]; intros fuel cnt b Hf.
  - destruct fuel; reflexivity.
  - destruct fuel as [|fuel]; [simpl in Hf; lia|].
    cbn [repLoop below Nat.leb chr run dropSpaces].
    destruct (Ascii.eqb " " c); [|reflexivity].
    assert ((String.length rest <? String.length (String c rest))%nat = true) as El
        by (apply Nat.ltb_lt; simpl; lia).
    rewrite El, IH; [reflexivity | simpl in Hf; lia].
Qed.

Lemma afterCode_paren (b : bool) (rest : string) :
  afterCode b (String ")" rest) = Some (dropSpaces rest).
Proof.
  unfold afterCode. rewrite run_Seq. cbn [run chr]. cbn [Ascii.eqb Bool.eqb].
  change (run (Rep (Cls (Ascii.eqb " ")) 0 None) false rest keepRest
          = Some (dropSpaces rest)).
  rewrite run_Rep. apply spaces_loop. lia.
Qed.

Lemma no_paren_head (c : ascii) (rest : string) :
  anyChar (Ascii.eqb ")") (String c rest) = false ->
  Ascii.eqb ")" c = false /\ anyChar (Ascii.eqb ")") rest = false.
Proof. simpl. intro H. apply orb_false_iff in H. exact H. Qed.

Lemma no_paren_cons (c : ascii) (rest : string) :
  Ascii.eqb ")" c = false -> anyChar (Ascii.eqb ")") rest = false ->
  anyChar (Ascii.eqb ")") (String c rest) = false.
Proof. intros H1 H2. cbn [anyChar]. rewrite H1, H2. reflexivity. Qed.

Lemma afterCode_none (b : bool) (s : string) :
  anyChar (Ascii.eqb ")") s = false -> afterCode b s = None.
Proof.
  destruct s as [|c s]; [reflexivity|]. intro H. apply no_paren_head in H.
  unfold afterCode. rewrite run_Seq. cbn [run chr].
  rewrite (proj1 H). reflexivity.
Qed.

Lemma parenCode_run (t : string) :
  run parenCode true (String "(" t) keepRest
  = repLoop (run (Cls dot)) 1 (Some 3) afterCode (String.length t) 0 false t.
Proof.
  unfold parenCode. rewrite run_Seq. cbn [run].
  change (run (Seq (chr "(")
                   (Seq (Rep (Cls dot) 1 (Some 3))
                        (Seq (chr ")") (Rep (chr " ") 0 None))))
              true (String "(" t) keepRest
          = repLoop (run (Cls dot)) 1 (Some 3) afterCode (String.length t) 0 false t).
  rewrite run_Seq. cbn [run chr]. cbn [Ascii.eqb Bool.eqb].
  change (run (Seq (Rep (Cls dot) 1 (Some 3))
                   (Seq (chr ")") (Rep (chr " ") 0 None)))
              false t keepRest
          = repLoop (run (Cls dot)) 1 (Some 3) afterCode (String.length t) 0 false t).
  rewrite run_Seq, run_Rep. reflexivity.
Qed.

Lemma leb_succ (n : nat) : (n <=? S n)%nat = true.
Proof. apply Nat.leb_le; lia. Qed.

Lemma leb_succ2 (n : nat) : (n <=? S (S n))%nat = true.
Proof. apply Nat.leb_le; lia. Qed.

Lemma leb_succ3 (n : nat) : (S (S n) <=? S (S (S n)))%nat = true.
Proof. apply Nat.leb_le; lia. Qed.

Section Dots.

Variable k0 : bool -> string -> option string.
Variables rest X : string.
Hypothesis Hyes : forall b, k0 b (String ")" rest) = Some X.
Hypothesis Hno : forall b s, anyChar (Ascii.eqb ")") s = false -> k0 b s = None.
Hypothesis Hr : anyChar (Ascii.eqb ")") rest = false.

Ltac ev :=
  cbn [repLoop below Nat.leb Nat.ltb run String.length append];
  rewrite ?Hyes.

(** The loop of [.{1,3}] on a code of one to three characters: the
    longer attempts end inside [rest], where no parenthesis closes them. *)
Lemma dots_loop (code : string) :
  (1 <= String.length code <= 3)%nat -> allChars dot code = true ->
  repLoop (run (Cls dot)) 1 (Some 3) k0
          (String.length (code ++ String ")" rest)) 0 false
          (code ++ String ")" rest)
  = Some X.
Proof.
  intros Hlen Hdot.
  assert (dot ")" = true) as Hp by reflexivity.
  destruct code as [|c1 [|c2 [|c3 [|c4 code]]]]; simpl in Hlen; try lia;
    cbn [allChars] in Hdot; rewrite ?andb_true_r in Hdot.
  - ev. rewrite Hdot, ?leb_succ. ev. rewrite Hp, ?Nat.leb_refl.
    destruct rest as [|e1 rest1].
    + ev. rewrite (Hno _ "" eq_refl). ev. reflexivity.
    + apply no_paren_head in Hr. destruct Hr as [He1 Hr1].
      ev. destruct (dot e1).
      * rewrite ?Nat.leb_refl. destruct rest1 as [|e2 rest2].
        -- ev. rewrite (Hno _ "" eq_refl).
           rewrite (Hno _ (String e1 "")); [reflexivity|].
           apply no_paren_cons; [exact He1 | reflexivity].
        -- ev. rewrite (Hno _ (String e2 rest2) Hr1).
           rewrite (Hno _ (String e1 (String e2 rest2))); [reflexivity|].
           apply no_paren_cons; assumption.
      * rewrite (Hno _ (String e1 rest1)); [reflexivity|].
        apply no_paren_cons; assumption.
  - apply andb_true_iff in Hdot. destruct Hdot as [H1 H2].
    ev. rewrite H1, ?leb_succ, ?leb_succ2. ev.
    rewrite H2, ?leb_succ, ?Nat.leb_refl. ev.
    rewrite Hp, ?Nat.leb_refl.
    destruct rest as [|e1 rest1].
    + ev. rewrite (Hno _ "" eq_refl). reflexivity.
    + ev. rewrite (Hno _ _ Hr). reflexivity.
  - apply andb_true_iff in Hdot. destruct Hdot as [H1 Hdot].
    apply andb_true_iff in Hdot. destruct Hdot as [H2 H3].
    ev. rewrite H1, ?leb_succ3, ?leb_succ, ?leb_succ2. ev.
    rewrite H2, ?leb_succ3, ?leb_succ, ?Nat.leb_refl. ev.
    rewrite H3, ?leb_succ, ?Nat.leb_refl. ev. reflexivity.
Qed.

End Dots.

Ltac evaluate_pattern :=
  unfold sanitizePattern, parenCode, numberPrefix, abbreviation, chr, keepRest;
  cbn [run String.length Nat.leb Nat.ltb below].

(** X6.  A decorative token at the start of a name is taken out and the
    rest of the name is returned as it is: a code of one to three
    characters in parentheses, together with the spaces after it, when no
    parenthesis closes later in the name; a number from 1 to 99 written
    with one or two digits, followed by a hyphen or a colon; one or two
    letters followed by a dot. *)
Theorem sanitizeName_strips_leading_token :
  (forall code rest,
      (1 <= String.length code <= 3)%nat -> allChars dot code = true ->
      anyChar (Ascii.eqb ")") rest = false ->
      sanitizeName (String "(" (code ++ String ")" rest)) = dropSpaces rest) /\
  (forall d sep rest,
      digit19 d = true -> dashColon sep = true ->
      sanitizeName (String d (String sep rest)) = rest) /\
  (forall d1 d2 sep rest,
      digit d1 = true -> digit19 d2 = true -> dashColon sep = true ->
      sanitizeName (String d1 (String d2 (String sep rest))) = rest) /\
  (forall d1 sep rest,
      digit19 d1 = true -> dashColon sep = true ->
      sanitizeName (String d1 (String "0" (String sep rest))) = rest) /\
  (forall l rest,
      letter l = true ->
      sanitizeName (String l (String "." rest)) = rest) /\
  (forall l1 l2 rest,
      letter l1 = true -> letter l2 = true ->
      sanitizeName (String l1 (String l2 (String "." rest))) = rest).
Proof.
  repeat split.
  - intros code rest Hlen Hdot Hr. apply replace_at_start.
    unfold sanitizePattern. rewrite run_Alt, parenCode_run.
    rewrite (dots_loop afterCode rest (dropSpaces rest)); try assumption.
    + reflexivity.
    + intro b. apply afterCode_paren.
    + intros b s. apply afterCode_none.
  - intros d sep rest Hd Hs. apply replace_at_start.
    pose proof (digit19_facts _ Hd) as (E1 & E2 & E3).
    pose proof (dashColon_facts _ Hs) as (E4 & E5).
    evaluate_pattern.
    rewrite ?E1, ?E2, ?E3, ?E4, ?E5, ?Hd, ?Hs, ?Nat.leb_refl. reflexivity.
  - intros d1 d2 sep rest Hd1 Hd2 Hs. apply replace_at_start.
    pose proof (digit_facts _ Hd1) as (E0 & E0').
    pose proof (digit19_facts _ Hd2) as (E1 & E2 & E3).
    pose proof (dashColon_facts _ Hs) as (E4 & E5).
    evaluate_pattern.
    rewrite ?E0, ?E0', ?E1, ?E2, ?E3, ?E4, ?E5, ?Hd1, ?Hd2, ?Hs, ?Nat.leb_refl.
    rewrite ?leb_succ, ?Hd2, ?Hs. reflexivity.
  - intros d1 sep rest Hd1 Hs. apply replace_at_start.
    pose proof (digit19_facts _ Hd1) as (E1 & E2 & E3).
    pose proof (dashColon_facts _ Hs) as (E4 & E5).
    evaluate_pattern.
    rewrite ?E1, ?E2, ?E3, ?E4, ?E5, ?Hd1, ?Hs, ?Nat.leb_refl.
    rewrite ?leb_succ. cbn. rewrite ?Hd1, ?Hs. cbn. rewrite ?Hs. reflexivity.
  - intros l rest Hl. apply replace_at_start.
    pose proof (letter_facts _ Hl) as (E1 & E2 & E3 & E4).
    evaluate_pattern.
    rewrite ?E1, ?E2, ?E3, ?E4, ?Hl, ?Nat.leb_refl. cbn. rewrite ?E3, ?Hl. cbn.
    rewrite ?leb_succ, ?Nat.leb_refl. cbn. reflexivity.
  - intros l1 l2 rest Hl1 Hl2. apply replace_at_start.
    pose proof (letter_facts _ Hl1) as (E1 & E2 & E3 & E4).
    pose proof (letter_facts _ Hl2) as (F1 & F2 & F3 & F4).
    evaluate_pattern.
    rewrite ?E1, ?E2, ?E3, ?E4, ?Hl1, ?Nat.leb_refl. cbn.
    rewrite ?E3, ?E2, ?Hl1, ?leb_succ, ?leb_succ2. cbn.
    rewrite ?Hl2, ?F2, ?F3, ?leb_succ, ?Nat.leb_refl. cbn.
    rewrite ?Nat.leb_refl. cbn. reflexivity.
Qed.

End SanitizerFacts.

Section UsernameFacts.

Import Helper.

(** The group the pattern of usernames repeats: an optional separator and
    one of [[a-zA-Z0-9]]. *)
Local Abbreviation group := (Seq (Rep (Cls separator) 0 (Some 1)) (Cls alnum)).

Lemma word_matches (rest : string) :
  forall c b w b',
    Matches (word c rest) b w b' <->
    sameIgnoringCase w (String c rest) = true /\ b' = false.
Proof.
  induction rest as [|e rest IH]; intros c b w b'.
  - simpl. split.
    + intros (d & -> & Hd & ->). simpl. rewrite Hd. split; reflexivity.
    + intros [H ->]. destruct w as [|d [|d' w]]; simpl in H; try discriminate.
      * exists d. rewrite andb_true_r in H. repeat split. exact H.
      * rewrite andb_false_r in H. discriminate.
  - cbn [word Matches]. split.
    + intros (w1 & w2 & b1 & -> & (d & -> & Hd & ->) & M).
      apply IH in M. destruct M as [M ->]. split; [|reflexivity].
      simpl. simpl in Hd. rewrite Hd. exact M.
    + intros [H ->]. destruct w as [|d w]; [discriminate|].
      cbn [sameIgnoringCase] in H. apply andb_true_iff in H. destruct H as [Hd Hw].
      exists (String d ""), w, false. repeat split.
      * exists d. repeat split. exact Hd.
      * apply IH. split; [exact Hw | reflexivity].
Qed.

Lemma keyword_matches b w b' :
  Matches regUsernameKeywords b w b' <-> isKeyword w = true /\ b' = false.
Proof.
  unfold regUsernameKeywords, isKeyword. cbn [Matches]. rewrite !word_matches.
  rewrite !orb_true_iff. tauto.
Qed.

Lemma keyword_test uid :
  test regUsernameKeywords uid = true <->
  exists pre w post, uid = pre ++ w ++ post /\ isKeyword w = true.
Proof.
  rewrite test_spec. split.
  - intros (pre & w & post & b' & -> & M). apply keyword_matches in M.
    exists pre, w, post. split; [reflexivity | apply M].
  - intros (pre & w & post & -> & H). exists pre, w, post, false.
    split; [reflexivity|]. apply keyword_matches. split; [exact H | reflexivity].
Qed.

Lemma iter_alnum n b u b2 :
  Iter (Matches (Cls alnum)) n b u b2 -> allChars alnum u = true.
Proof.
  induction 1 as [|n b b1 b2 w1 w2 Hne (c & -> & Hc & _) _ IH]; [reflexivity|].
  simpl. rewrite Hc, IH. reflexivity.
Qed.

Lemma iter_groups m b u b2 :
  Iter (Matches group) m b u b2 -> tailShape false u = true.
Proof.
  induction 1 as [|n b b1 b2 w1 w2 Hne M _ IH]; [reflexivity|].
  destruct M as (ws & wc & b3 & -> & (k & _ & Hk & Hit) & (c & -> & Hc & _)).
  inversion Hit as [|k' x1 x2 x3 u1 u2 Hne1 (d & -> & Hd & _) Hrest]; subst.
  - simpl. rewrite Hc. exact IH.
  - inversion Hrest; subst; [|simpl in Hk; lia].
    simpl. destruct (alnum d).
    + rewrite Hc. exact IH.
    + rewrite Hd, Hc. exact IH.
Qed.

Lemma tail_alnum_prefix u v :
  allChars alnum u = true -> tailShape false v = true -> tailShape false (u ++ v) = true.
Proof.
  induction u as [|c u IH]; simpl; intros Hu Hv; [exact Hv|].
  apply andb_true_iff in Hu. destruct Hu as [Hc Hu]. rewrite Hc. apply IH; assumption.
Qed.

Lemma group_plain c b : alnum c = true -> Matches group b (String c "") false.
Proof.
  intro Hc. exists "", (String c ""), b. repeat split.
  - exists 0%nat. repeat split; [lia | simpl; lia | constructor].
  - exists c. repeat split. exact Hc.
Qed.

Lemma group_separated d c b :
  separator d = true -> alnum c = true ->
  Matches group b (String d (String c "")) false.
Proof.
  intros Hd Hc. exists (String d ""), (String c ""), false. repeat split.
  - exists 1%nat. repeat split; [lia | simpl; lia |].
    change (String d "") with (String d "" ++ "").
    econstructor; [discriminate | exists d; repeat split; exact Hd | constructor].
  - exists c. repeat split. exact Hc.
Qed.

Lemma shape_groups (t : string) :
  (tailShape false t = true -> exists m b2, Iter (Matches group) m false t b2) /\
  (forall d, separator d = true -> tailShape true t = true ->
             exists m b2, Iter (Matches group) m false (String d t) b2).
Proof.
  induction t as [|c t [IHp IHs]].
  - split; [intros _; exists 0%nat, false; constructor | intros d _ H; discriminate].
  - split.
    + simpl. destruct (alnum c) eqn:Ec.
      * intro H. destruct (IHp H) as (m & b2 & Hit).
        exists (S m), b2. change (String c t) with (String c "" ++ t).
        econstructor; [discriminate | apply group_plain; exact Ec | exact Hit].
      * destruct (separator c) eqn:Es; [|discriminate].
        simpl. intro H. apply (IHs c Es H).
    + intros d Hd. simpl. destruct (alnum c) eqn:Ec.
      * intro H. destruct (IHp H) as (m & b2 & Hit).
        exists (S m), b2. change (String d (String c t)) with (String d (String c "") ++ t).
        econstructor; [discriminate | apply group_separated; assumption | exact Hit].
      * destruct (separator c); simpl; discriminate.
Qed.

Lemma username_shape uid : testToEnd regUsername uid = usernameShape uid.
Proof.
  apply eq_true_iff_eq. rewrite testToEnd_spec. split.
  - intros (pre & w & b' & -> & M).
    destruct M as (w0 & w' & b0 & -> & (Hf & -> & ->) & M).
    destruct pre; [|discriminate]. simpl.
    destruct M as (u1 & u2 & b1 & -> & (n & Hn & _ & Hit1) & (m & _ & _ & Hit2)).
    pose proof (iter_alnum _ _ _ _ Hit1) as Ha.
    pose proof (iter_groups _ _ _ _ Hit2) as Hg.
    inversion Hit1 as [|n' x1 x2 x3 v1 v2 Hne (c & -> & Hc & _) Hrest]; subst; [lia|].
    simpl. rewrite Hc. simpl in Ha. rewrite Hc in Ha. simpl in Ha.
    apply tail_alnum_prefix; assumption.
  - intro H. destruct uid as [|c t]; [discriminate|]. simpl in H.
    apply andb_true_iff in H. destruct H as [Hc Ht].
    destruct (proj1 (shape_groups t) Ht) as (m & b2 & Hit).
    exists "", (String c t), b2. split; [reflexivity|].
    exists "", (String c t), true. repeat split.
    exists (String c ""), t, false. repeat split.
    + exists 1%nat. repeat split; [lia|].
      change (String c "") with (String c "" ++ "").
      econstructor; [discriminate | exists c; repeat split; exact Hc | constructor].
    + exists m. repeat split; [lia | exact Hit].
Qed.

(** X7.  [checkUsername] accepts exactly the names of at most 30 characters
    that start with a letter or a digit, go on with letters, digits and
    the separators [_], [\], [.] and [-], each separator alone and
    followed by a letter or a digit, and that hold none of the words
    [openbeta], [0penbeta] and [admin] in any case of their letters. *)
Theorem checkUsername_spec (uid : string) :
  checkUsername (Some uid) = true <->
  (String.length uid <= 30)%nat /\ usernameShape uid = true /\
  ~ (exists pre w post, uid = pre ++ w ++ post /\ isKeyword w = true).
Proof.
  unfold checkUsername. rewrite !andb_true_iff, negb_true_iff, username_shape.
  rewrite Nat.leb_le. rewrite <- keyword_test.
  destruct (test regUsernameKeywords uid); split.
  - intros [[_ H] _]. discriminate.
  - intros (_ & _ & H). exfalso. apply H. reflexivity.
  - intros [[H1 _] H2]. repeat split; [assumption..|discriminate].
  - intros (H1 & H2 & _). repeat split; assumption.
Qed.

End UsernameFacts.

(* ===================================================================== *)
(** * More on the aggregation *)
(* ===================================================================== *)

Section CountingFacts.

Import Helper.

Variable A : Arith.

Local Abbreviation bump := (Helper.bump A).

Lemma lookup_assign (k key : string) (v : num A) (acc : Counter A) :
  lookup A key (assign A k v acc) =
  if String.eqb k key then Some v else lookup A key acc.
Proof.
  induction acc as [|[k0 c] rest IH]; simpl.
  - destruct (String.eqb k key); reflexivity.
  - destruct (String.eqb k0 k) eqn:E0; simpl.
    + apply String.eqb_eq in E0. subst k0.
      destruct (String.eqb k key); reflexivity.
    + destruct (String.eqb k0 key) eqn:E1.
      * apply String.eqb_eq in E1. subst k0.
        rewrite String.eqb_sym in E0. rewrite E0. reflexivity.
      * exact IH.
Qed.

Lemma lookup_countDiscipline (key : string) (acc : Counter A) (entry : string * bool) :
  lookup A key (countDiscipline A acc entry) =
  if String.eqb (fst entry) key && snd entry then bump (lookup A key acc)
  else lookup A key acc.
Proof.
  destruct entry as [k [|]]; simpl.
  - rewrite andb_true_r.
    destruct (lookup A k acc) as [c|] eqn:E; rewrite lookup_assign;
      destruct (String.eqb k key) eqn:Ek; try reflexivity;
      apply String.eqb_eq in Ek; subst k; rewrite E; reflexivity.
  - rewrite andb_false_r. reflexivity.
Qed.

Lemma lookup_record (key : string) (entries : ClimbDisciplineRecord) :
  forall acc,
    lookup A key (fold_left (countDiscipline A) entries acc) =
    Nat.iter (List.length (filter (fun e => String.eqb (fst e) key && snd e) entries))
             bump (lookup A key acc).
Proof.
  induction entries as [|e entries IH]; intro acc; simpl; [reflexivity|].
  rewrite IH, lookup_countDiscipline.
  destruct (String.eqb (fst e) key && snd e); [|reflexivity].
  simpl. rewrite <- Nat.iter_succ_r. reflexivity.
Qed.

Lemma iter_bump_add (n m : nat) (c : option (num A)) :
  Nat.iter n bump (Nat.iter m bump c) = Nat.iter (m + n) bump c.
Proof. rewrite Nat.add_comm. symmetry. apply Nat.iter_add. Qed.

Lemma lookup_collection (key : string) (climbs : list Climb) :
  forall acc,
    lookup A key (fold_left (fun acc climb =>
                               fold_left (countDiscipline A) (type climb) acc)
                            climbs acc) =
    Nat.iter (flagsOf key climbs) bump (lookup A key acc).
Proof.
  induction climbs as [|c climbs IH]; intro acc; [reflexivity|].
  simpl fold_left. rewrite IH, lookup_record.
  unfold flagsOf. simpl map. simpl list_sum. fold (flagsOf key climbs).
  apply iter_bump_add.
Qed.

Lemma iter_bump_none (n : nat) :
  Nat.iter n bump None = match n with O => None | S m => Some (countAfter A m) end.
Proof.
  induction n as [|n IH]; [reflexivity|].
  simpl. rewrite IH. destruct n; reflexivity.
Qed.

Lemma lookup_typeToCount (climbs : list Climb) (key : string) :
  lookup A key (typeToCount A climbs) =
  match flagsOf key climbs with
  | O => None
  | S n => Some (countAfter A n)
  end.
Proof.
  unfold typeToCount. rewrite lookup_collection. apply iter_bump_none.
Qed.

(** X1.  The count of a discipline in [typeToCount] is the number of its
    true flags over all records, reached by adding [1] that many times less
    one to the first [1]; a discipline without a true flag has no entry. *)
Theorem typeToCount_counts (climbs : list Climb) (key : string) :
  lookup A key (typeToCount A climbs) =
  match flagsOf key climbs with
  | O => None
  | S n => Some (countAfter A n)
  end.
Proof.
  unfold typeToCount. rewrite lookup_collection. apply iter_bump_none.
Qed.

(** ** The disciplines counted *)

Lemma lookup_In (key : string) (acc : Counter A) :
  lookup A key acc <> None <-> In key (map fst acc).
Proof.
  induction acc as [|[k c] rest IH]; simpl.
  - split; [congruence | tauto].
  - destruct (String.eqb k key) eqn:E.
    + apply String.eqb_eq in E. split; [intros _; left; exact E | intros _; discriminate].
    + apply String.eqb_neq in E. rewrite IH. split; [tauto|]. intros [H|H]; [contradiction|exact H].
Qed.

Lemma keys_assign (k : string) (v : num A) (acc : Counter A) :
  map fst (assign A k v acc) =
  if in_dec string_dec k (map fst acc) then map fst acc else (map fst acc ++ [k])%list.
Proof.
  induction acc as [|[k0 c] rest IH]; simpl; [reflexivity|].
  destruct (String.eqb k0 k) eqn:E.
  - apply String.eqb_eq in E. subst k0. simpl.
    destruct (string_dec k k); [reflexivity | congruence].
  - apply String.eqb_neq in E. simpl. rewrite IH.
    destruct (string_dec k0 k); [contradiction|].
    destruct (in_dec string_dec k (map fst rest)); reflexivity.
Qed.

Lemma NoDup_snoc (l : list string) (k : string) :
  NoDup l -> ~ In k l -> NoDup (l ++ [k]).
Proof.
  intros Hl Hk. induction Hl as [|x l Hx Hl IH]; simpl.
  - repeat constructor. intros [].
  - constructor.
    + rewrite in_app_iff. intros [H|[H|[]]]; [contradiction|].
      subst. apply Hk. left. reflexivity.
    + apply IH. intro H. apply Hk. right. exact H.
Qed.

Lemma keys_countDiscipline (acc : Counter A) (entry : string * bool) :
  NoDup (map fst acc) -> NoDup (map fst (countDiscipline A acc entry)).
Proof.
  intro H. destruct entry as [k [|]]; simpl; [|exact H].
  destruct (lookup A k acc); rewrite keys_assign;
    destruct (in_dec string_dec k (map fst acc)); try assumption;
    apply NoDup_snoc; assumption.
Qed.

Lemma keys_typeToCount (climbs : list Climb) :
  NoDup (map fst (typeToCount A climbs)).
Proof.
  unfold typeToCount.
  assert (NoDup (map fst (@nil (string * num A)))) as H by constructor.
  revert H. generalize (@nil (string * num A)).
  induction climbs as [|c climbs IH]; intros acc H; [exact H|].
  simpl. apply IH. clear IH.
  revert acc H. induction (type c) as [|e es IHe]; intros acc H; [exact H|].
  simpl. apply IHe. apply keys_countDiscipline. exact H.
Qed.

Lemma addKey_in_dec (keys : list string) (key : string) :
  addKey keys key =
  if in_dec string_dec key keys then keys else (keys ++ [key])%list.
Proof.
  unfold addKey. destruct (in_dec string_dec key keys) as [Hin|Hout].
  - assert (existsb (String.eqb key) keys = true) as ->; [|reflexivity].
    apply existsb_exists. exists key. split; [exact Hin | apply String.eqb_refl].
  - destruct (existsb (String.eqb key) keys) eqn:E; [|reflexivity].
    apply existsb_exists in E. destruct E as (x & Hx & Ex).
    apply String.eqb_eq in Ex. subst x. contradiction.
Qed.

Lemma keys_of_countDiscipline (acc : Counter A) (entry : string * bool) :
  map fst (countDiscipline A acc entry) =
  if snd entry then addKey (map fst acc) (fst entry) else map fst acc.
Proof.
  destruct entry as [k [|]]; simpl; [|reflexivity].
  rewrite addKey_in_dec. destruct (lookup A k acc); apply keys_assign.
Qed.

Lemma keys_of_record (entries : ClimbDisciplineRecord) :
  forall acc,
    map fst (fold_left (countDiscipline A) entries acc) =
    fold_left addKey (map fst (filter snd entries)) (map fst acc).
Proof.
  induction entries as [|[k b] entries IH]; intro acc; [reflexivity|].
  cbn [fold_left filter]. rewrite IH, keys_of_countDiscipline.
  destruct b; reflexivity.
Qed.

Lemma keys_of_collection (climbs : list Climb) :
  forall acc,
    map fst (fold_left (fun acc climb =>
                          fold_left (countDiscipline A) (type climb) acc)
                       climbs acc) =
    fold_left addKey (flagged climbs) (map fst acc).
Proof.
  induction climbs as [|c climbs IH]; intro acc; [reflexivity|].
  cbn [fold_left]. rewrite IH, keys_of_record.
  unfold flagged. cbn [flat_map]. rewrite fold_left_app. reflexivity.
Qed.

Lemma keys_in_order (climbs : list Climb) :
  map fst (typeToCount A climbs) = disciplinesInOrder climbs.
Proof. unfold typeToCount. apply keys_of_collection. Qed.

(** The values of a counter without a repeated key are read back by its
    keys. *)
Lemma values_by_keys (f : string -> num A) (acc : Counter A) :
  NoDup (map fst acc) ->
  (forall key c, lookup A key acc = Some c -> f key = c) ->
  map snd acc = map f (map fst acc).
Proof.
  induction acc as [|[k c] rest IH]; intros Hnd Hf; [reflexivity|].
  cbn [map fst snd]. cbn [map fst] in Hnd. inversion Hnd as [|? ? Hk Hrest]; subst.
  f_equal.
  - symmetry. apply Hf. simpl. rewrite String.eqb_refl. reflexivity.
  - apply IH; [exact Hrest|]. intros key c' Hl. apply Hf. simpl.
    destruct (String.eqb k key) eqn:E; [|exact Hl].
    apply String.eqb_eq in E. subst key. exfalso. apply Hk.
    apply lookup_In. rewrite Hl. discriminate.
Qed.

Lemma counts_by_keys (climbs : list Climb) :
  map snd (typeToCount A climbs) =
  map (countOf A climbs) (map fst (typeToCount A climbs)).
Proof.
  apply values_by_keys; [apply keys_typeToCount|].
  intros key c Hl. rewrite lookup_typeToCount in Hl. unfold countOf.
  destruct (flagsOf key climbs); [discriminate|].
  inversion Hl. reflexivity.
Qed.

(** X2.  The result has one percentage and one colour for each discipline
    that has a true flag somewhere, no discipline twice, in the order in
    which the disciplines got their first true flag.  The percentage at
    the place of a discipline is the count of that discipline divided by
    the sum of the counts taken in that order, times 100, and the colour
    at its place is the configured colour of that discipline. *)
Theorem one_entry_per_discipline (ClimbTypeToColor : string -> option string)
        (climbs : list Climb) :
  map fst (typeToCount A climbs) = disciplinesInOrder climbs /\
  NoDup (disciplinesInOrder climbs) /\
  (forall key, In key (disciplinesInOrder climbs) <-> (0 < flagsOf key climbs)%nat) /\
  percents (computeClimbingPercentsAndColors A ClimbTypeToColor climbs)
  = map (fun key =>
           mul A (div A (countOf A climbs key)
                        (total A (map (countOf A climbs) (disciplinesInOrder climbs))))
                 (hundred A))
        (disciplinesInOrder climbs) /\
  colors (computeClimbingPercentsAndColors A ClimbTypeToColor climbs)
  = map ClimbTypeToColor (disciplinesInOrder climbs).
Proof.
  rewrite <- keys_in_order.
  split; [reflexivity|]. split; [apply keys_typeToCount|]. split; [|split].
  - intro key. split; intro H.
    + apply lookup_In in H. rewrite lookup_typeToCount in H.
      destruct (flagsOf key climbs); [congruence | lia].
    + apply lookup_In. rewrite lookup_typeToCount.
      destruct (flagsOf key climbs); [lia | discriminate].
  - unfold computeClimbingPercentsAndColors. cbn [percents].
    rewrite counts_by_keys. rewrite map_map. reflexivity.
  - reflexivity.
Qed.

End CountingFacts.

(* ===================================================================== *)
(** * The sum of the percentages in binary64 *)
(* ===================================================================== *)

(** The percentages are computed with one division and one multiplication
    each, after the additions of the total, and are added again.  Each of
    these operations rounds to nearest: on numbers above zero that stay
    far from the ends of the exponent range, the result of an operation is
    the exact result times [1 + d] with [|d| <= 2^-53].  This is proved
    below from the specification of the operations, and the roundings
    are counted along the computation. *)

Section RoundingFacts.

Import Helper.
Import Rounding.
Local Open Scope R_scope.

(** ** Powers of two *)

Lemma bpow_gt_0 e : 0 < bpow e.
Proof. apply powerRZ_lt. lra. Qed.

Lemma bpow_add a b : bpow (a + b) = bpow a * bpow b.
Proof. apply powerRZ_add. lra. Qed.

Lemma bpow_0 : bpow 0 = 1.
Proof. reflexivity. Qed.

Lemma bpow_1 : bpow 1 = 2.
Proof. unfold bpow. simpl. lra. Qed.

Lemma bpow_opp e : bpow (- e) = / bpow e.
Proof. apply powerRZ_neg'. Qed.

Lemma bpow_succ e : bpow (e + 1) = 2 * bpow e.
Proof. rewrite bpow_add, bpow_1. lra. Qed.

Lemma bpow_IZR e : (0 <= e)%Z -> bpow e = IZR (2 ^ e).
Proof.
  intro H. destruct e as [|p|p]; [reflexivity| |lia].
  unfold bpow. rewrite <- Zpower_pos_powerRZ. reflexivity.
Qed.

Lemma bpow_ge_1 e : (0 <= e)%Z -> 1 <= bpow e.
Proof.
  intro H. rewrite bpow_IZR by exact H. apply IZR_le.
  assert (0 < 2 ^ e)%Z by (apply Z.pow_pos_nonneg; lia). lia.
Qed.

Lemma bpow_le a b : (a <= b)%Z -> bpow a <= bpow b.
Proof.
  intro H. replace b with (a + (b - a))%Z by lia. rewrite bpow_add.
  assert (1 <= bpow (b - a)) by (apply bpow_ge_1; lia).
  pose proof (bpow_gt_0 a). nra.
Qed.

Lemma bpow_lt a b : (a < b)%Z -> bpow a < bpow b.
Proof.
  intro H. replace b with (a + 1 + (b - a - 1))%Z by lia.
  rewrite bpow_add, bpow_succ.
  assert (1 <= bpow (b - a - 1)) by (apply bpow_ge_1; lia).
  pose proof (bpow_gt_0 a). nra.
Qed.

Lemma bpow_lt_inv a b : bpow a < bpow b -> (a < b)%Z.
Proof.
  intro H. destruct (Z_lt_le_dec a b) as [L|L]; [exact L|].
  apply bpow_le in L. lra.
Qed.

Lemma bpow_le_inv a b : bpow a <= bpow b -> (a <= b)%Z.
Proof.
  intro H. destruct (Z_le_gt_dec a b) as [L|L]; [exact L|].
  assert (b < a)%Z as L' by lia. apply bpow_lt in L'. lra.
Qed.

(** ** Digits *)

Lemma digits2_pos_bounds p :
  (2 ^ (Zpos (digits2_pos p) - 1) <= Zpos p < 2 ^ Zpos (digits2_pos p))%Z.
Proof.
  induction p as [p IH|p IH|]; cbn [digits2_pos].
  - rewrite Pos2Z.inj_succ.
    replace (Z.succ (Zpos (digits2_pos p)) - 1)%Z
      with (Z.succ (Zpos (digits2_pos p) - 1)) by lia.
    rewrite !Z.pow_succ_r by lia. lia.
  - rewrite Pos2Z.inj_succ.
    replace (Z.succ (Zpos (digits2_pos p)) - 1)%Z
      with (Z.succ (Zpos (digits2_pos p) - 1)) by lia.
    rewrite !Z.pow_succ_r by lia. lia.
  - simpl. lia.
Qed.

Lemma Zdigits2_bounds m :
  (0 < m)%Z -> (2 ^ (Zdigits2 m - 1) <= m < 2 ^ Zdigits2 m)%Z.
Proof.
  intro H. destruct m as [|p|p]; try lia. apply digits2_pos_bounds.
Qed.

Lemma Zdigits2_pos m : (0 < m)%Z -> (0 < Zdigits2 m)%Z.
Proof. intro H. destruct m; simpl; lia. Qed.

Lemma Zdigits2_unique m k :
  (0 < m)%Z -> (2 ^ (k - 1) <= m < 2 ^ k)%Z -> Zdigits2 m = k.
Proof.
  intros Hm Hk. pose proof (Zdigits2_bounds m Hm) as Hd.
  pose proof (Zdigits2_pos m Hm) as Hp.
  assert (0 < k)%Z as Hk0.
  { destruct (Z_lt_le_dec 0 k); [assumption|]. exfalso.
    destruct k as [|q|q]; [simpl in Hk; lia | lia |].
    rewrite (Z.pow_neg_r 2 (Zneg q)) in Hk by lia. lia. }
  destruct (Z.lt_trichotomy (Zdigits2 m) k) as [L|[L|L]]; [|exact L|].
  - assert (2 ^ Zdigits2 m <= 2 ^ (k - 1))%Z by (apply Z.pow_le_mono_r; lia). lia.
  - assert (2 ^ k <= 2 ^ (Zdigits2 m - 1))%Z by (apply Z.pow_le_mono_r; lia). lia.
Qed.

(** ** Locations *)

Lemma Loc_bounds mrs y : Loc mrs y -> IZR (shr_m mrs) <= y < IZR (shr_m mrs) + 1.
Proof. unfold Loc. destruct (shr_r mrs), (shr_s mrs); lra. Qed.

Lemma shr_1_m mrs : (0 <= shr_m mrs)%Z -> shr_m (shr_1 mrs) = (shr_m mrs / 2)%Z.
Proof.
  destruct mrs as [m r s]. cbn [shr_m]. intro H.
  destruct m as [|p|p]; [reflexivity| |lia].
  destruct p as [p|p|]; cbn [shr_1 shr_m].
  - rewrite Pos2Z.inj_xI. apply Z.div_unique with 1%Z; lia.
  - rewrite Pos2Z.inj_xO. apply Z.div_unique with 0%Z; lia.
  - reflexivity.
Qed.

Lemma shr_1_Loc mrs y :
  (0 <= shr_m mrs)%Z -> Loc mrs y -> Loc (shr_1 mrs) (y / 2).
Proof.
  destruct mrs as [m r s]. cbn [shr_m]. intros H HL.
  destruct m as [|p|p]; [| |lia].
  - unfold Loc in *. cbn [shr_1 shr_m shr_r shr_s] in *.
    destruct r, s; cbn [orb]; lra.
  - destruct p as [p|p|]; unfold Loc in *; cbn [shr_1 shr_m shr_r shr_s] in *.
    + rewrite IZR_POS_xI in HL. destruct r, s; cbn [orb]; lra.
    + rewrite IZR_POS_xO in HL. destruct r, s; cbn [orb]; lra.
    + destruct r, s; cbn [orb]; lra.
Qed.

Lemma iter_shr_1 p :
  forall mrs y,
    (0 <= shr_m mrs)%Z -> Loc mrs y ->
    (0 <= shr_m (iter_pos shr_1 p mrs))%Z /\
    shr_m (iter_pos shr_1 p mrs) = (shr_m mrs / 2 ^ Zpos p)%Z /\
    Loc (iter_pos shr_1 p mrs) (y * bpow (- Zpos p)).
Proof.
  assert (forall mrs y, (0 <= shr_m mrs)%Z -> Loc mrs y ->
            (0 <= shr_m (shr_1 mrs))%Z /\
            shr_m (shr_1 mrs) = (shr_m mrs / 2 ^ 1)%Z /\
            Loc (shr_1 mrs) (y * bpow (- 1))) as Hone.
  { intros mrs y Hm HL. rewrite shr_1_m by exact Hm.
    split; [apply Z.div_pos; lia|]. split; [reflexivity|].
    replace (bpow (-1)) with (/ 2) by (unfold bpow; simpl; f_equal; lra).
    apply shr_1_Loc; assumption. }
  induction p as [p IH|p IH|]; intros mrs y Hm HL; cbn [iter_pos].
  - destruct (Hone mrs y Hm HL) as (H1 & E1 & L1).
    destruct (IH _ _ H1 L1) as (H2 & E2 & L2).
    destruct (IH _ _ H2 L2) as (H3 & E3 & L3).
    split; [exact H3|]. split.
    + rewrite E3, E2, E1. rewrite !Z.div_div by (try apply Z.pow_pos_nonneg; lia).
      f_equal. rewrite Pos2Z.inj_xI. rewrite <- !Z.pow_add_r by lia. f_equal. lia.
    + replace (y * bpow (- Zpos p~1)) with (y * bpow (-1) * bpow (- Zpos p) * bpow (- Zpos p)).
      * exact L3.
      * rewrite Pos2Z.inj_xI. rewrite !Rmult_assoc. f_equal.
        rewrite <- !bpow_add. f_equal. lia.
  - destruct (IH _ _ Hm HL) as (H2 & E2 & L2).
    destruct (IH _ _ H2 L2) as (H3 & E3 & L3).
    split; [exact H3|]. split.
    + rewrite E3, E2. rewrite !Z.div_div by (try apply Z.pow_pos_nonneg; lia).
      f_equal. rewrite Pos2Z.inj_xO. rewrite <- !Z.pow_add_r by lia. f_equal. lia.
    + replace (y * bpow (- Zpos p~0)) with (y * bpow (- Zpos p) * bpow (- Zpos p)).
      * exact L3.
      * rewrite Pos2Z.inj_xO. rewrite !Rmult_assoc. f_equal.
        rewrite <- !bpow_add. f_equal. lia.
  - apply Hone; assumption.
Qed.

(** ** Rounding to the format *)

Lemma fexp_normal k : (-1021 <= k)%Z -> fexp prec emax k = (k - 53)%Z.
Proof. intro H. unfold fexp, SpecFloat.emin, prec, emax. lia. Qed.

Lemma Loc_of_loc m l :
  shr_m (shr_record_of_loc m l) = m /\
  loc_of_shr_record (shr_record_of_loc m l) = l.
Proof. destruct l as [|[| |]]; split; reflexivity. Qed.

(** Shifting a mantissa of [d >= 53] digits down to 53 digits. *)
Lemma shr_to_53 mx ex lx y :
  (0 < mx)%Z -> (53 <= Zdigits2 mx)%Z ->
  Loc (shr_record_of_loc mx lx) y ->
  let n := (Zdigits2 mx - 53)%Z in
  let r := shr (shr_record_of_loc mx lx) ex n in
  snd r = (ex + n)%Z /\
  (2 ^ 52 <= shr_m (fst r) < 2 ^ 53)%Z /\
  Loc (fst r) (y * bpow (- n)).
Proof.
  intros Hm Hd HL n r.
  pose proof (Zdigits2_bounds mx Hm) as Hb.
  destruct (Loc_of_loc mx lx) as [Em _].
  destruct n as [|p|p] eqn:En; subst r; cbn [shr fst snd].
  - split; [lia|]. rewrite Em.
    assert (Zdigits2 mx = 53%Z) as Ed by lia. rewrite Ed in Hb.
    split; [exact Hb|]. replace (bpow (- 0)) with 1 by reflexivity.
    rewrite Rmult_1_r. exact HL.
  - split; [reflexivity|].
    destruct (iter_shr_1 p (shr_record_of_loc mx lx) y) as (_ & E & L);
      [rewrite Em; lia | exact HL |].
    rewrite E, Em. split; [|exact L].
    assert (Zdigits2 mx = 53 + Zpos p)%Z as Ed by lia. rewrite Ed in Hb.
    replace (53 + Zpos p - 1)%Z with (52 + Zpos p)%Z in Hb by lia.
    rewrite !Z.pow_add_r in Hb by lia.
    assert (0 < 2 ^ Zpos p)%Z as Hp by (apply Z.pow_pos_nonneg; lia).
    split.
    + apply Z.div_le_lower_bound; [exact Hp | lia].
    + apply Z.div_lt_upper_bound; [exact Hp | lia].
  - lia.
Qed.

Lemma rne_Loc mrs y :
  Loc mrs y ->
  let m1 := round_nearest_even (shr_m mrs) (loc_of_shr_record mrs) in
  (m1 = shr_m mrs \/ m1 = (shr_m mrs + 1)%Z) /\ Rabs (IZR m1 - y) <= / 2.
Proof.
  destruct mrs as [m r s]. unfold Loc. cbn [shr_m shr_r shr_s loc_of_shr_record].
  intro HL. destruct r, s; cbn [round_nearest_even].
  - split; [right; reflexivity|]. rewrite plus_IZR. apply Rabs_le. lra.
  - destruct (Z.even m).
    + split; [left; reflexivity|]. apply Rabs_le. lra.
    + split; [right; reflexivity|]. rewrite plus_IZR. apply Rabs_le. lra.
  - split; [left; reflexivity|]. apply Rabs_le. lra.
  - split; [left; reflexivity|]. apply Rabs_le. lra.
Qed.

(** The second normalisation: a mantissa between [2^52] and [2^53]. *)
Lemma shr_after_round m1 e1 :
  (2 ^ 52 <= m1 <= 2 ^ 53)%Z -> (-1021 <= 53 + e1)%Z ->
  exists m2 e2,
    shr_fexp prec emax m1 e1 loc_Exact
    = ({| shr_m := Zpos m2; shr_r := false; shr_s := false |}, e2) /\
    (e1 <= e2 <= e1 + 1)%Z /\
    IZR (Zpos m2) * bpow e2 = IZR m1 * bpow e1.
Proof.
  intros Hm He. unfold shr_fexp.
  destruct (Z.eq_dec m1 (2 ^ 53)) as [E|E].
  - subst m1. change (Zdigits2 (2 ^ 53)) with 54%Z.
    rewrite fexp_normal by lia.
    replace (54 + e1 - 53 - e1)%Z with 1%Z by lia.
    exists (2 ^ 52)%positive, (e1 + 1)%Z. split; [reflexivity|]. split; [lia|].
    rewrite bpow_succ. change (Zpos (2 ^ 52)) with (2 ^ 52)%Z.
    change (2 ^ 53)%Z with (2 * 2 ^ 52)%Z. rewrite mult_IZR. lra.
  - assert (Zdigits2 m1 = 53%Z) as Ed
        by (apply Zdigits2_unique; [|change (53 - 1)%Z with 52%Z]; lia).
    rewrite Ed. rewrite fexp_normal by lia.
    replace (53 + e1 - 53 - e1)%Z with 0%Z by lia.
    destruct m1 as [|p|p]; try lia.
    exists p, e1. split; [reflexivity|]. split; [lia | reflexivity].
Qed.

(** [binary_round_aux] on a mantissa of at least 53 digits whose value is
    in the normal range. *)
Lemma round_aux_correct sx mx ex lx y :
  (0 < mx)%Z -> (53 <= Zdigits2 mx)%Z ->
  (-1021 <= Zdigits2 mx + ex <= 1023)%Z ->
  Loc (shr_record_of_loc mx lx) y ->
  exists m e,
    binary_round_aux prec emax sx mx ex lx = S754_finite sx m e /\
    Rabs (IZR (Zpos m) * bpow e - y * bpow ex) <= unitRoundoff * (y * bpow ex).
Proof.
  intros Hm Hd Hr HL.
  destruct (shr_to_53 mx ex lx y Hm Hd HL) as (Ee & Hb & L).
  unfold binary_round_aux, shr_fexp at 1.
  rewrite fexp_normal by lia.
  replace (Zdigits2 mx + ex - 53 - ex)%Z with (Zdigits2 mx - 53)%Z by lia.
  destruct (shr (shr_record_of_loc mx lx) ex (Zdigits2 mx - 53)) as [mrs' e'].
  cbn [fst snd] in Ee, Hb, L. subst e'.
  destruct (rne_Loc mrs' _ L) as [Hm1 Hy].
  set (m1 := round_nearest_even (shr_m mrs') (loc_of_shr_record mrs')) in *.
  destruct (shr_after_round m1 (ex + (Zdigits2 mx - 53))) as (m2 & e2 & E2 & He2 & V);
    [lia | lia |].
  rewrite E2. cbn [shr_m].
  assert ((e2 <=? emax - prec)%Z = true) as ->
      by (apply Z.leb_le; unfold emax, prec; lia).
  exists m2, e2. split; [reflexivity|].
  rewrite V. set (n := (Zdigits2 mx - 53)%Z) in *.
  assert (y * bpow ex = (y * bpow (- n)) * bpow (ex + n)) as Ey.
  { rewrite Rmult_assoc, <- bpow_add. f_equal. f_equal. lia. }
  rewrite Ey. set (y' := y * bpow (- n)) in *. set (t := bpow (ex + n)).
  assert (0 < t) as Ht by apply bpow_gt_0.
  replace (IZR m1 * t - y' * t) with ((IZR m1 - y') * t) by ring.
  rewrite Rabs_mult, (Rabs_pos_eq t) by lra.
  pose proof (Loc_bounds _ _ L) as Hy'.
  assert (IZR (2 ^ 52) <= IZR (shr_m mrs')) as H52 by (apply IZR_le; lia).
  assert (unitRoundoff * IZR (2 ^ 52) = / 2) as Hu.
  { unfold unitRoundoff. rewrite <- (bpow_IZR 52) by lia. rewrite <- bpow_add.
    change (-53 + 52)%Z with (-1)%Z. unfold bpow. simpl. f_equal. lra. }
  assert (0 < unitRoundoff) as Hu0 by apply bpow_gt_0.
  assert (/ 2 <= unitRoundoff * y') as Hhalf by (rewrite <- Hu; nra).
  nra.
Qed.

(** ** Values of finite numbers *)

Lemma value_bounds m e :
  (0 < m)%Z ->
  bpow (Zdigits2 m - 1 + e) <= IZR m * bpow e < bpow (Zdigits2 m + e).
Proof.
  intro Hm. pose proof (Zdigits2_bounds m Hm) as Hb.
  pose proof (Zdigits2_pos m Hm) as Hp.
  rewrite !bpow_add.
  rewrite (bpow_IZR (Zdigits2 m - 1)), (bpow_IZR (Zdigits2 m)) by lia.
  pose proof (bpow_gt_0 e).
  assert (IZR (2 ^ (Zdigits2 m - 1)) <= IZR m) by (apply IZR_le; lia).
  assert (IZR m < IZR (2 ^ Zdigits2 m)) by (apply IZR_lt; lia).
  nra.
Qed.

Lemma range_of_value m e (a b : Z) :
  (0 < m)%Z -> bpow a <= IZR m * bpow e -> IZR m * bpow e <= bpow b ->
  (a < Zdigits2 m + e <= b + 1)%Z.
Proof.
  intros Hm Ha Hb. pose proof (value_bounds m e Hm) as [H1 H2].
  split.
  - apply bpow_lt_inv. lra.
  - assert (Zdigits2 m - 1 + e <= b)%Z by (apply bpow_le_inv; lra). lia.
Qed.

Lemma canonical_53 m e :
  bounded prec emax m e = true ->
  bpow (-1021) <= IZR (Zpos m) * bpow e ->
  Zdigits2 (Zpos m) = 53%Z.
Proof.
  unfold bounded, canonical_mantissa. intros Hb Hv.
  apply andb_true_iff in Hb. destruct Hb as [Hc _]. apply Z.eqb_eq in Hc.
  change (Zpos (digits2_pos m)) with (Zdigits2 (Zpos m)) in Hc.
  unfold fexp, SpecFloat.emin, prec, emax in Hc.
  destruct (Z_le_gt_dec (-1021) (Zdigits2 (Zpos m) + e)) as [L|L]; [lia|].
  exfalso. pose proof (value_bounds (Zpos m) e eq_refl) as [_ H2].
  assert (bpow (Zdigits2 (Zpos m) + e) <= bpow (-1021)) by (apply bpow_le; lia).
  lra.
Qed.

(** ** Multiplication

    The product of two mantissas of 53 digits has at least 105 digits and
    is rounded once. *)

Lemma SFmul_correct mx ex my ey :
  Zdigits2 (Zpos mx) = 53%Z -> Zdigits2 (Zpos my) = 53%Z ->
  let X := IZR (Zpos mx) * bpow ex in
  let Y := IZR (Zpos my) * bpow ey in
  bpow (-1000) <= X * Y <= bpow 1000 ->
  exists m e,
    SFmul prec emax (S754_finite false mx ex) (S754_finite false my ey)
    = S754_finite false m e /\
    Rabs (IZR (Zpos m) * bpow e - X * Y) <= unitRoundoff * (X * Y).
Proof.
  intros Hx Hy X Y Hr. cbn [SFmul xorb].
  assert (X * Y = IZR (Zpos (mx * my)) * bpow (ex + ey)) as E.
  { subst X Y. rewrite Pos2Z.inj_mul, mult_IZR, bpow_add. ring. }
  pose proof (Zdigits2_bounds (Zpos mx) eq_refl) as Bx.
  pose proof (Zdigits2_bounds (Zpos my) eq_refl) as By.
  rewrite Hx in Bx. rewrite Hy in By.
  assert (53 <= Zdigits2 (Zpos (mx * my)))%Z as Hd.
  { destruct (Z_le_gt_dec 53 (Zdigits2 (Zpos (mx * my)))) as [L|L]; [exact L|].
    exfalso. pose proof (Zdigits2_bounds (Zpos (mx * my)) eq_refl) as [_ B].
    assert (2 ^ Zdigits2 (Zpos (mx * my)) <= 2 ^ 52)%Z
      by (apply Z.pow_le_mono_r; lia).
    rewrite Pos2Z.inj_mul in B.
    assert (2 ^ 52 * 2 ^ 52 <= Zpos mx * Zpos my)%Z by (apply Z.mul_le_mono_nonneg; lia).
    assert (2 ^ 52 < 2 ^ 52 * 2 ^ 52)%Z by reflexivity.
    apply (Z.lt_irrefl (2 ^ 52 * 2 ^ 52)%Z).
    eapply Z.le_lt_trans; [eassumption|].
    eapply Z.lt_le_trans; [exact B|].
    eapply Z.le_trans; [eassumption|]. apply Z.lt_le_incl. assumption. }
  assert (-1021 <= Zdigits2 (Zpos (mx * my)) + (ex + ey) <= 1023)%Z as Hrange.
  { destruct Hr as [H1 H2]. rewrite E in H1, H2.
    pose proof (range_of_value (Zpos (mx * my)) _ _ _ eq_refl H1 H2). lia. }
  destruct (round_aux_correct false (Zpos (mx * my)) (ex + ey) loc_Exact
              (IZR (Zpos (mx * my))) eq_refl Hd Hrange) as (m & e & Er & Hv).
  { reflexivity. }
  exists m, e. split; [exact Er|]. rewrite E. exact Hv.
Qed.

(** ** Addition

    The mantissas are aligned on the smaller exponent and added exactly;
    the sum is shifted left when it has fewer than 53 digits, and rounded
    once. *)

Lemma iter_xO m d : Zpos (Pos.iter xO m d) = (Zpos m * 2 ^ Zpos d)%Z.
Proof.
  induction d as [|d IH] using Pos.peano_ind.
  - simpl. lia.
  - rewrite Pos.iter_succ, Pos2Z.inj_xO, IH, Pos2Z.inj_succ, Z.pow_succ_r by lia.
    lia.
Qed.

Lemma shl_align_spec mx ex ex' :
  let r := shl_align mx ex ex' in
  IZR (Zpos (fst r)) * bpow (snd r) = IZR (Zpos mx) * bpow ex /\
  snd r = Z.min ex ex' /\
  (ex <= ex' -> fst r = mx)%Z.
Proof.
  unfold shl_align. destruct (ex' - ex)%Z as [|p|p] eqn:E; cbn [fst snd].
  - split; [reflexivity|]. split; [lia | reflexivity].
  - split; [reflexivity|]. split; [lia | reflexivity].
  - split; [|split; [lia | lia]].
    rewrite iter_xO, mult_IZR, <- bpow_IZR by lia.
    rewrite Rmult_assoc, <- bpow_add. f_equal. f_equal. lia.
Qed.

Lemma SFadd_correct mx ex my ey :
  let X := IZR (Zpos mx) * bpow ex in
  let Y := IZR (Zpos my) * bpow ey in
  bpow (-1000) <= X + Y <= bpow 1000 ->
  exists m e,
    SFadd prec emax (S754_finite false mx ex) (S754_finite false my ey)
    = S754_finite false m e /\
    Rabs (IZR (Zpos m) * bpow e - (X + Y)) <= unitRoundoff * (X + Y).
Proof.
  intros X Y Hr. cbn [SFadd cond_Zopp].
  destruct (shl_align_spec mx ex (Z.min ex ey)) as (Vx & Ex & _).
  destruct (shl_align_spec my ey (Z.min ex ey)) as (Vy & Ey & _).
  set (ax := fst (shl_align mx ex (Z.min ex ey))) in *.
  set (ay := fst (shl_align my ey (Z.min ex ey))) in *.
  set (ez := Z.min ex ey) in *.
  replace (snd (shl_align mx ex ez)) with ez in Vx by lia.
  replace (snd (shl_align my ey ez)) with ez in Vy by lia.
  change (Zpos ax + Zpos ay)%Z with (Zpos (ax + ay)).
  cbn [binary_normalize]. unfold binary_round.
  assert (X + Y = IZR (Zpos (ax + ay)) * bpow ez) as E.
  { subst X Y. rewrite <- Vx, <- Vy, Pos2Z.inj_add, plus_IZR. ring. }
  set (s := (ax + ay)%positive) in *.
  assert (-1000 < Zdigits2 (Zpos s) + ez <= 1001)%Z as Hrs.
  { destruct Hr as [H1 H2]. rewrite E in H1, H2.
    exact (range_of_value (Zpos s) _ _ _ eq_refl H1 H2). }
  change (Zpos (digits2_pos s)) with (Zdigits2 (Zpos s)).
  rewrite fexp_normal by lia.
  destruct (shl_align_spec s ez (Zdigits2 (Zpos s) + ez - 53)) as (Vs & Es & Hs).
  destruct (shl_align s ez (Zdigits2 (Zpos s) + ez - 53)) as [mz ez'].
  cbn [fst snd] in Vs, Es, Hs.
  assert (53 <= Zdigits2 (Zpos mz))%Z as Hd.
  { destruct (Z_le_gt_dec 53 (Zdigits2 (Zpos s))) as [L|L].
    - rewrite Hs by lia. exact L.
    - assert (ez' = Zdigits2 (Zpos s) + ez - 53)%Z as Ez by lia.
      pose proof (value_bounds (Zpos s) ez eq_refl) as [B1 B2].
      rewrite <- Vs in B1, B2.
      pose proof (value_bounds (Zpos mz) ez' eq_refl) as [C1 C2].
      assert (Zdigits2 (Zpos s) - 1 + ez < Zdigits2 (Zpos mz) + ez')%Z
        by (apply bpow_lt_inv; lra).
      lia. }
  assert (-1021 <= Zdigits2 (Zpos mz) + ez' <= 1023)%Z as Hrange.
  { destruct Hr as [H1 H2]. rewrite E, <- Vs in H1, H2.
    pose proof (range_of_value (Zpos mz) _ _ _ eq_refl H1 H2). lia. }
  destruct (round_aux_correct false (Zpos mz) ez' loc_Exact (IZR (Zpos mz))
              eq_refl Hd Hrange) as (m & e & Er & Hv).
  { reflexivity. }
  exists m, e. split; [exact Er|]. rewrite E, <- Vs. exact Hv.
Qed.

(** ** Division

    The dividend is shifted left by 53 digits, so that the integer quotient
    has 53 or 54 digits; the remainder gives the round and sticky bits. *)

Lemma new_location_Loc q nb k :
  (0 <= k < nb)%Z ->
  Loc (shr_record_of_loc q (new_location nb k)) (IZR q + IZR k / IZR nb).
Proof.
  intros Hk. assert (0 < IZR nb) as Hnb by (apply IZR_lt; lia).
  assert (0 <= IZR k) as Hk0 by (apply IZR_le; lia).
  assert (forall c : Z, (2 * k < c)%Z -> c = nb -> IZR k / IZR nb < / 2) as Hlt.
  { intros c Hc ->. apply IZR_lt in Hc. rewrite mult_IZR in Hc.
    apply Rmult_lt_reg_r with (IZR nb); [exact Hnb|].
    unfold Rdiv. rewrite Rmult_assoc, Rinv_l by lra. lra. }
  assert (forall c : Z, (c < 2 * k)%Z -> c = nb -> / 2 < IZR k / IZR nb) as Hgt.
  { intros c Hc ->. apply IZR_lt in Hc. rewrite mult_IZR in Hc.
    apply Rmult_lt_reg_r with (IZR nb); [exact Hnb|].
    unfold Rdiv. rewrite Rmult_assoc, Rinv_l by lra. lra. }
  assert (IZR k / IZR nb < 1) as Hone.
  { apply Rmult_lt_reg_r with (IZR nb); [exact Hnb|].
    unfold Rdiv. rewrite Rmult_assoc, Rinv_l by lra.
    assert (IZR k < IZR nb) by (apply IZR_lt; lia). lra. }
  assert ((0 < k)%Z -> 0 < IZR k / IZR nb) as Hpos.
  { intro H. apply Rdiv_lt_0_compat; [apply IZR_lt; lia | exact Hnb]. }
  unfold new_location.
  destruct (Z.even nb) eqn:Ev.
  - unfold new_location_even. destruct (Z.eqb_spec k 0) as [->|Hk1].
    + unfold Loc. cbn. unfold Rdiv. rewrite Rmult_0_l. lra.
    + destruct (Z.compare_spec (2 * k) nb) as [C|C|C]; unfold Loc; cbn.
      * assert (IZR k / IZR nb = / 2); [|lra].
        subst nb. rewrite mult_IZR. field. apply Rgt_not_eq. apply IZR_lt. lia.
      * pose proof (Hlt nb C eq_refl). assert (0 < k)%Z as K by lia.
        pose proof (Hpos K). lra.
      * pose proof (Hgt nb C eq_refl). lra.
  - unfold new_location_odd. destruct (Z.eqb_spec k 0) as [->|Hk1].
    + unfold Loc. cbn. unfold Rdiv. rewrite Rmult_0_l. lra.
    + assert (nb <> 2 * k)%Z as Hodd.
      { intro E. rewrite E, Z.even_mul in Ev. discriminate. }
      assert (0 < k)%Z as K by lia. pose proof (Hpos K).
      destruct (Z.compare_spec (2 * k + 1) nb) as [C|C|C]; unfold Loc; cbn.
      * assert (2 * k < nb)%Z as C' by lia. pose proof (Hlt nb C' eq_refl). lra.
      * assert (2 * k < nb)%Z as C' by lia. pose proof (Hlt nb C' eq_refl). lra.
      * assert (nb < 2 * k)%Z as C' by lia. pose proof (Hgt nb C' eq_refl). lra.
Qed.

Lemma SFdiv_correct mx ex my ey :
  Zdigits2 (Zpos mx) = 53%Z -> Zdigits2 (Zpos my) = 53%Z ->
  let X := IZR (Zpos mx) * bpow ex in
  let Y := IZR (Zpos my) * bpow ey in
  bpow (-1000) <= X / Y <= bpow 1000 ->
  exists m e,
    SFdiv prec emax (S754_finite false mx ex) (S754_finite false my ey)
    = S754_finite false m e /\
    Rabs (IZR (Zpos m) * bpow e - X / Y) <= unitRoundoff * (X / Y).
Proof.
  intros Hx Hy X Y Hr. cbn [SFdiv xorb]. unfold SFdiv_core_binary.
  rewrite Hx, Hy.
  pose proof (Zdigits2_bounds (Zpos mx) eq_refl) as Bx.
  pose proof (Zdigits2_bounds (Zpos my) eq_refl) as By.
  rewrite Hx in Bx. rewrite Hy in By. change (53 - 1)%Z with 52%Z in Bx, By.
  assert (0 < IZR (Zpos my)) as Hmy by (apply IZR_lt; lia).
  assert (0 < IZR (Zpos mx)) as Hmx by (apply IZR_lt; lia).
  pose proof (bpow_gt_0 ex) as Hbx. pose proof (bpow_gt_0 ey) as Hby.
  assert (X / Y = IZR (Zpos mx) / IZR (Zpos my) * bpow (ex - ey)) as EXY.
  { subst X Y. unfold Zminus. rewrite bpow_add, bpow_opp. field. lra. }
  assert (-1001 < ex - ey)%Z as Hlow.
  { apply bpow_lt_inv. destruct Hr as [H1 _]. rewrite EXY in H1.
    assert (IZR (Zpos mx) / IZR (Zpos my) < 2).
    { apply Rmult_lt_reg_r with (IZR (Zpos my)); [exact Hmy|].
      unfold Rdiv. rewrite Rmult_assoc, Rinv_l by lra.
      assert (IZR (Zpos mx) < IZR (2 ^ 53)) by (apply IZR_lt; lia).
      assert (IZR (2 ^ 52) <= IZR (Zpos my)) by (apply IZR_le; lia).
      change (2 ^ 53)%Z with (2 * 2 ^ 52)%Z in *. rewrite mult_IZR in *. lra. }
    pose proof (bpow_gt_0 (ex - ey)).
    replace (bpow (-1001)) with (bpow (-1000) / 2)
      by (change (-1000)%Z with (-1001 + 1)%Z; rewrite bpow_succ; field).
    nra. }
  replace (53 + ex - (53 + ey))%Z with (ex - ey)%Z by lia.
  rewrite fexp_normal by lia.
  replace (Z.min (ex - ey - 53) (ex - ey)) with (ex - ey - 53)%Z by lia.
  replace (ex - ey - (ex - ey - 53))%Z with 53%Z by lia.
  rewrite Z.shiftl_mul_pow2 by lia.
  pose proof (Z_div_mod (Zpos mx * 2 ^ 53) (Zpos my) eq_refl) as Hdm.
  destruct (Z.div_eucl (Zpos mx * 2 ^ 53) (Zpos my)) as [q r].
  destruct Hdm as [Eq Hrem].
  assert (2 ^ 52 <= q < 2 ^ 54)%Z as Hq.
  { change (2 ^ 54)%Z with (2 * 2 ^ 53)%Z.
    change (2 ^ 53)%Z with (2 * 2 ^ 52)%Z in *. nia. }
  assert (0 < q)%Z as Hq0 by lia.
  assert (53 <= Zdigits2 q)%Z as Hd.
  { destruct (Z_le_gt_dec 53 (Zdigits2 q)) as [L|L]; [exact L|].
    exfalso. pose proof (Zdigits2_bounds q Hq0) as [_ B].
    assert (2 ^ Zdigits2 q <= 2 ^ 52)%Z by (apply Z.pow_le_mono_r; lia).
    apply (Z.lt_irrefl q). eapply Z.lt_le_trans; [exact B|].
    eapply Z.le_trans; [eassumption|]. apply Hq. }
  set (y := IZR q + IZR r / IZR (Zpos my)).
  assert (Loc (shr_record_of_loc q (new_location (Zpos my) r)) y) as HL
      by (apply new_location_Loc; lia).
  assert (y * bpow (ex - ey - 53) = X / Y) as Ey.
  { rewrite EXY. subst y.
    replace (ex - ey - 53)%Z with ((ex - ey) + (-53))%Z by lia.
    rewrite bpow_add.
    assert (IZR (Zpos mx) * IZR (2 ^ 53) = IZR (Zpos my) * IZR q + IZR r) as Eq'
        by (rewrite <- !mult_IZR, <- plus_IZR; f_equal; exact Eq).
    assert (bpow (-53) * IZR (2 ^ 53) = 1) as Eb.
    { rewrite <- (bpow_IZR 53) by lia. rewrite <- bpow_add. reflexivity. }
    assert (IZR q + IZR r / IZR (Zpos my)
            = IZR (Zpos mx) * IZR (2 ^ 53) / IZR (Zpos my)) as ->
        by (rewrite Eq'; field; lra).
    transitivity (IZR (Zpos mx) / IZR (Zpos my) * bpow (ex - ey)
                  * (bpow (-53) * IZR (2 ^ 53))); [field; lra|].
    rewrite Eb. ring. }
  pose proof (Loc_bounds _ _ HL) as Hyb.
  destruct (Loc_of_loc q (new_location (Zpos my) r)) as [Em _].
  rewrite Em in Hyb.
  assert (-1021 <= Zdigits2 q + (ex - ey - 53) <= 1023)%Z as Hrange.
  { pose proof (bpow_gt_0 (ex - ey - 53)) as Ht.
    assert (IZR (2 ^ 52) <= IZR q) as H52 by (apply IZR_le; lia).
    assert (2 <= IZR (2 ^ 52)) as H2 by (apply IZR_le; lia).
    assert (bpow (-1001) <= IZR q * bpow (ex - ey - 53)) as H1.
    { replace (bpow (-1001)) with (bpow (-1000) / 2)
        by (change (-1000)%Z with (-1001 + 1)%Z; rewrite bpow_succ; field).
      destruct Hr as [Hr1 _]. rewrite <- Ey in Hr1. nra. }
    assert (IZR q * bpow (ex - ey - 53) <= bpow 1000) as H2'.
    { destruct Hr as [_ Hr2]. rewrite <- Ey in Hr2. nra. }
    pose proof (range_of_value q _ _ _ Hq0 H1 H2'). lia. }
  destruct (round_aux_correct false q (ex - ey - 53) (new_location (Zpos my) r) y
              Hq0 Hd Hrange HL) as (m & e & Er & Hv).
  exists m, e. split; [exact Er|]. rewrite <- Ey. exact Hv.
Qed.

(** ** The operations on binary64 numbers

    The three operations of the program, on finite numbers above zero
    whose values are between [2^-500] and [2^500]: the result is such a
    number again, and its value is the exact result up to one rounding. *)

Lemma hasValue_pos f v : hasValue f v -> 0 < v.
Proof.
  intros (m & e & _ & ->). apply Rmult_lt_0_compat; [apply IZR_lt; lia | apply bpow_gt_0].
Qed.

Lemma hasValue_digits f m e :
  Prim2SF f = S754_finite false m e ->
  bpow (-1021) <= IZR (Zpos m) * bpow e ->
  Zdigits2 (Zpos m) = 53%Z.
Proof.
  intros E Hv. apply (canonical_53 m e); [|exact Hv].
  pose proof (Prim2SF_valid f) as V. rewrite E in V. exact V.
Qed.

Lemma bpow_500_1000 : bpow (-1000) = bpow (-500) * bpow (-500) /\
                      bpow 1000 = bpow 500 * bpow 500.
Proof. split; rewrite <- bpow_add; reflexivity. Qed.

Lemma mul_model x y X Y :
  hasValue x X -> hasValue y Y ->
  bpow (-500) <= X <= bpow 500 -> bpow (-500) <= Y <= bpow 500 ->
  exists Z, hasValue (x * y)%float Z /\ Rabs (Z - X * Y) <= unitRoundoff * (X * Y).
Proof.
  intros (mx & ex & Ex & ->) (my & ey & Ey & ->) Hx Hy.
  pose proof (bpow_gt_0 (-500)) as Hlo. pose proof (bpow_gt_0 500) as Hhi.
  pose proof (bpow_le (-1021) (-500) ltac:(lia)) as Hn.
  assert (Zdigits2 (Zpos mx) = 53%Z) as Dx by (apply (hasValue_digits x mx ex Ex); lra).
  assert (Zdigits2 (Zpos my) = 53%Z) as Dy by (apply (hasValue_digits y my ey Ey); lra).
  destruct bpow_500_1000 as [E1 E2].
  destruct (SFmul_correct mx ex my ey Dx Dy) as (m & e & Em & Hv).
  { rewrite E1, E2. split; apply Rmult_le_compat; lra. }
  exists (IZR (Zpos m) * bpow e). split; [|exact Hv].
  exists m, e. split; [|reflexivity].
  rewrite mul_spec, Ex, Ey. exact Em.
Qed.

Lemma div_model x y X Y :
  hasValue x X -> hasValue y Y ->
  bpow (-500) <= X <= bpow 500 -> bpow (-500) <= Y <= bpow 500 ->
  exists Z, hasValue (x / y)%float Z /\ Rabs (Z - X / Y) <= unitRoundoff * (X / Y).
Proof.
  intros (mx & ex & Ex & ->) (my & ey & Ey & ->) Hx Hy.
  pose proof (bpow_gt_0 (-500)) as Hlo. pose proof (bpow_gt_0 500) as Hhi.
  pose proof (bpow_le (-1021) (-500) ltac:(lia)) as Hn.
  assert (Zdigits2 (Zpos mx) = 53%Z) as Dx by (apply (hasValue_digits x mx ex Ex); lra).
  assert (Zdigits2 (Zpos my) = 53%Z) as Dy by (apply (hasValue_digits y my ey Ey); lra).
  destruct bpow_500_1000 as [E1 E2].
  destruct (SFdiv_correct mx ex my ey Dx Dy) as (m & e & Em & Hv).
  { set (X := IZR (Zpos mx) * bpow ex) in *. set (Y := IZR (Zpos my) * bpow ey) in *.
    assert (/ bpow 500 = bpow (-500)) as Ei by (rewrite <- bpow_opp; reflexivity).
    assert (/ bpow (-500) = bpow 500) as Ei' by (rewrite <- bpow_opp; reflexivity).
    assert (0 < Y) by lra.
    assert (bpow (-500) <= / Y <= bpow 500) as HY.
    { split.
      - rewrite <- Ei. apply Rinv_le_contravar; lra.
      - rewrite <- Ei'. apply Rinv_le_contravar; lra. }
    rewrite E1, E2. unfold Rdiv. split; apply Rmult_le_compat; lra. }
  exists (IZR (Zpos m) * bpow e). split; [|exact Hv].
  exists m, e. split; [|reflexivity].
  rewrite div_spec, Ex, Ey. exact Em.
Qed.

Lemma add_model x y X Y :
  hasValue x X -> hasValue y Y ->
  bpow (-500) <= X <= bpow 500 -> bpow (-500) <= Y <= bpow 500 ->
  exists Z, hasValue (x + y)%float Z /\ Rabs (Z - (X + Y)) <= unitRoundoff * (X + Y).
Proof.
  intros (mx & ex & Ex & ->) (my & ey & Ey & ->) Hx Hy.
  pose proof (bpow_gt_0 (-500)) as Hlo. pose proof (bpow_gt_0 500) as Hhi.
  destruct (SFadd_correct mx ex my ey) as (m & e & Em & Hv).
  { pose proof (bpow_le (-1000) (-500) ltac:(lia)).
    assert (2 * bpow 500 <= bpow 1000).
    { rewrite <- bpow_succ. apply bpow_le. lia. }
    lra. }
  exists (IZR (Zpos m) * bpow e). split; [|exact Hv].
  exists m, e. split; [|reflexivity].
  rewrite add_spec, Ex, Ey. exact Em.
Qed.

(** Adding to zero changes nothing. *)
Lemma add_zero x X : hasValue x X -> (0 + x)%float = x.
Proof.
  intros (m & e & E & _). apply Prim2SF_inj. rewrite add_spec, E. reflexivity.
Qed.

Lemma hasValue_one : hasValue 1%float 1.
Proof.
  exists 4503599627370496%positive, (-52)%Z. split; [reflexivity|].
  change (Zpos 4503599627370496) with (2 ^ 52)%Z.
  rewrite <- (bpow_IZR 52) by lia. rewrite <- bpow_add. reflexivity.
Qed.

Lemma hasValue_hundred : hasValue 100%float 100.
Proof.
  exists 7036874417766400%positive, (-46)%Z. split; [reflexivity|].
  change (Zpos 7036874417766400) with (100 * 2 ^ 46)%Z.
  rewrite mult_IZR, <- (bpow_IZR 46) by lia.
  rewrite Rmult_assoc, <- bpow_add. change (bpow (46 + -46)) with 1. lra.
Qed.

(** ** Accumulated rounding *)

Lemma u_bounds : 0 < unitRoundoff < / 2.
Proof.
  split; [apply bpow_gt_0|]. unfold unitRoundoff.
  replace (/ 2) with (bpow (-1)) by (unfold bpow; simpl; f_equal; lra).
  apply bpow_lt. lia.
Qed.

Lemma r_bounds : / 2 < rho < 1.
Proof. unfold rho. pose proof u_bounds. lra. Qed.

Lemma rpow_bounds k : 0 < rho ^ k <= 1.
Proof.
  pose proof r_bounds. induction k as [|k IH]; simpl; [lra|]. nra.
Qed.

(** Bernoulli's inequality for [rho]. *)
Lemma rpow_lower k : 1 - INR k * unitRoundoff <= rho ^ k.
Proof.
  pose proof u_bounds. pose proof r_bounds.
  induction k as [|k IH]; [simpl; lra|].
  rewrite S_INR. simpl. pose proof (rpow_bounds k). pose proof (pos_INR k).
  unfold rho in *. nra.
Qed.

Lemma Rabs_bound x a : Rabs x <= a -> - a <= x <= a.
Proof. unfold Rabs. destruct (Rcase_abs x); lra. Qed.

Lemma approx_pos k a x : approx k a x -> 0 < a.
Proof.
  intros (Hx & H1 & _). pose proof (rpow_bounds k). nra.
Qed.

Lemma approx_refl x : 0 < x -> approx 0 x x.
Proof. intro H. unfold approx. simpl. lra. Qed.

Lemma approx_weaken k j a x : approx k a x -> approx (k + j) a x.
Proof.
  intros (Hx & H1 & H2). pose proof (approx_pos _ _ _ (conj Hx (conj H1 H2))) as Ha.
  unfold approx. rewrite pow_add.
  pose proof (rpow_bounds k). pose proof (rpow_bounds j).
  set (p := rho ^ k) in *. set (q := rho ^ j) in *.
  split; [exact Hx|]. split.
  - assert (0 <= (x * p) * (1 - q)) by (apply Rmult_le_pos; nra). nra.
  - assert (0 <= (a * p) * (1 - q)) by (apply Rmult_le_pos; nra). nra.
Qed.

Lemma approx_le k k' a x : (k <= k')%nat -> approx k a x -> approx k' a x.
Proof.
  intros H W. replace k' with (k + (k' - k))%nat by lia. apply approx_weaken, W.
Qed.

Lemma approx_add k a x b y :
  approx k a x -> approx k b y -> approx k (a + b) (x + y).
Proof.
  intros (Hx & H1 & H2) (Hy & H3 & H4). unfold approx.
  split; [lra|]. split; lra.
Qed.

Lemma approx_mul k j a x b y :
  approx k a x -> approx j b y -> approx (k + j) (a * b) (x * y).
Proof.
  intros Wa Wb. pose proof (approx_pos _ _ _ Wa) as Ha.
  pose proof (approx_pos _ _ _ Wb) as Hb.
  destruct Wa as (Hx & H1 & H2). destruct Wb as (Hy & H3 & H4).
  pose proof (rpow_bounds k). pose proof (rpow_bounds j).
  unfold approx. rewrite pow_add. split; [nra|]. split.
  - replace (x * y * (rho ^ k * rho ^ j)) with ((x * rho ^ k) * (y * rho ^ j)) by ring.
    apply Rmult_le_compat; nra.
  - replace (a * b * (rho ^ k * rho ^ j)) with ((a * rho ^ k) * (b * rho ^ j)) by ring.
    apply Rmult_le_compat; nra.
Qed.

Lemma approx_inv k a x : approx k a x -> approx k (/ a) (/ x).
Proof.
  intros W. pose proof (approx_pos _ _ _ W) as Ha. destruct W as (Hx & H1 & H2).
  pose proof (rpow_bounds k) as Hr.
  assert (0 < / x) as Hix by (apply Rinv_0_lt_compat; exact Hx).
  assert (0 < / a) as Hia by (apply Rinv_0_lt_compat; exact Ha).
  unfold approx. split; [exact Hix|]. split.
  - apply Rmult_le_reg_r with (a * x); [nra|].
    replace (/ x * rho ^ k * (a * x)) with (a * rho ^ k * (x * / x)) by ring.
    replace (/ a * (a * x)) with (x * (a * / a)) by ring.
    rewrite !Rinv_r by lra. lra.
  - apply Rmult_le_reg_r with (a * x); [nra|].
    replace (/ a * rho ^ k * (a * x)) with (x * rho ^ k * (a * / a)) by ring.
    replace (/ x * (a * x)) with (a * (x * / x)) by ring.
    rewrite !Rinv_r by lra. lra.
Qed.

Lemma approx_div k j a x b y :
  approx k a x -> approx j b y -> approx (k + j) (a / b) (x / y).
Proof.
  intros Wa Wb. unfold Rdiv. apply approx_mul; [exact Wa | apply approx_inv, Wb].
Qed.

(** One more rounding. *)
Lemma approx_round k a x z :
  approx k a x -> Rabs (z - a) <= unitRoundoff * a -> approx (S k) z x.
Proof.
  intros W Hz. pose proof (approx_pos _ _ _ W) as Ha. destruct W as (Hx & H1 & H2).
  pose proof (rpow_bounds k) as Hr. pose proof u_bounds as Hu.
  pose proof r_bounds as Hrb.
  apply Rabs_bound in Hz.
  unfold approx. simpl. split; [exact Hx|]. unfold rho in *. split.
  - assert (a * (1 - unitRoundoff) <= z) by lra.
    assert (x * (1 - unitRoundoff) ^ k * (1 - unitRoundoff) <= a * (1 - unitRoundoff)) by nra. nra.
  - assert (z <= a * (1 + unitRoundoff)) by lra.
    assert (z * (1 - unitRoundoff) <= a) by nra.
    assert (z * (1 - unitRoundoff) * (1 - unitRoundoff) ^ k <= a * (1 - unitRoundoff) ^ k) by nra. nra.
Qed.

(** Within half a unit of roundings, a value is between half and twice
    what it stands for. *)
Lemma approx_range k a x :
  INR k * unitRoundoff <= / 2 -> approx k a x -> x / 2 <= a <= 2 * x.
Proof.
  intros Hk W. pose proof (approx_pos _ _ _ W) as Ha. destruct W as (Hx & H1 & H2).
  pose proof (rpow_lower k). pose proof (rpow_bounds k).
  assert (/ 2 <= rho ^ k) by lra. split; nra.
Qed.

(** The distance that is left. *)
Lemma approx_distance k a x :
  INR k * unitRoundoff <= / 2 -> approx k a x -> Rabs (a - x) <= 2 * INR k * unitRoundoff * x.
Proof.
  intros Hk W. pose proof (approx_pos _ _ _ W) as Ha. destruct W as (Hx & H1 & H2).
  pose proof (rpow_lower k). pose proof (rpow_bounds k).
  pose proof (pos_INR k). pose proof u_bounds.
  set (t := INR k * unitRoundoff) in *. set (p := rho ^ k) in *.
  assert (0 <= t) as Ht by (subst t; nra).
  assert (0 <= x * (p - (1 - t))) as Hxp by (apply Rmult_le_pos; lra).
  assert (0 <= a * (p - (1 - t))) as Hap by (apply Rmult_le_pos; lra).
  assert (x * (1 - t) <= a) as Hl by lra.
  assert (a * (1 - t) <= x) as Hu by lra.
  assert (a <= 2 * x) as H2x.
  { assert (a * / 2 <= a * (1 - t)) by (apply Rmult_le_compat_l; lra). lra. }
  assert (a * t <= 2 * x * t) as Hat by (apply Rmult_le_compat_r; lra).
  replace (2 * INR k * unitRoundoff * x) with (2 * x * t) by (subst t; ring).
  apply Rabs_le. split; lra.
Qed.

(** ** Sums of binary64 numbers *)

Lemma Rsum_bounds (lo hi : R) (es : list R) :
  Forall (fun E => lo <= E <= hi) es ->
  INR (List.length es) * lo <= Rsum es <= INR (List.length es) * hi.
Proof.
  induction 1 as [|E es HE _ IH]; [simpl; lra|].
  cbn [List.length Rsum]. rewrite S_INR. lra.
Qed.

Lemma Term_bounds K lo hi l es :
  Forall2 (Term K lo hi) l es -> Forall (fun E => lo <= E <= hi) es.
Proof.
  induction 1 as [|p E l es (P & _ & _ & HE) _ IH]; constructor; assumption.
Qed.

Lemma Forall2_length_eq {A B} (P : A -> B -> Prop) l es :
  Forall2 P l es -> List.length l = List.length es.
Proof. induction 1; simpl; congruence. Qed.

Section Sums.

Variables (K : nat) (lo M : R).
Hypothesis lo_range : bpow (-400) <= lo.
Hypothesis M_range : M <= bpow 400.

Lemma half_range (k : nat) (a x : R) :
  INR k * unitRoundoff <= / 2 -> approx k a x -> lo <= x <= M ->
  bpow (-500) <= a <= bpow 500.
Proof.
  intros Hk W Hx. pose proof (approx_range k a x Hk W) as Ha.
  pose proof (bpow_gt_0 (-400)).
  assert (bpow (-500) <= bpow (-400) / 2).
  { replace (bpow (-400) / 2) with (bpow (-401)).
    - apply bpow_le. lia.
    - change (-400)%Z with (-401 + 1)%Z. rewrite bpow_succ. field. }
  assert (2 * bpow 400 <= bpow 500).
  { rewrite <- bpow_succ. apply bpow_le. lia. }
  lra.
Qed.

(** Adding the terms of a list to an accumulator, left to right: every
    addition is one more rounding. *)
Lemma fold_add_model l es :
  Forall2 (Term K lo M) l es ->
  forall acc A Ea j,
    hasValue acc A -> approx (K + j) A Ea -> lo <= Ea ->
    Ea + Rsum es <= M ->
    INR (K + j + List.length l) * unitRoundoff <= / 2 ->
    exists S,
      hasValue (fold_left PrimFloat.add l acc) S /\
      approx (K + j + List.length l) S (Ea + Rsum es).
Proof.
  pose proof u_bounds as Hu.
  assert (0 < lo) as Hlo by (pose proof (bpow_gt_0 (-400)); lra).
  induction 1 as [|p E l es (P & HP & WP & HE) Hall IH];
    intros acc A Ea j HA WA HEa Hsum Hk.
  - exists A. cbn [fold_left List.length Rsum]. rewrite Nat.add_0_r, Rplus_0_r.
    split; assumption.
  - cbn [fold_left List.length Rsum] in *.
    pose proof (Rsum_bounds lo M es (Term_bounds _ _ _ _ _ Hall)) as [Hs _].
    pose proof (pos_INR (List.length es)) as Hn.
    assert (0 <= Rsum es) as Hs0 by nra.
    assert (INR (K + j) * unitRoundoff <= / 2) as Hkj.
    { assert (INR (K + j) <= INR (K + j + S (List.length l))) by (apply le_INR; lia). nra. }
    assert (INR K * unitRoundoff <= / 2) as HK.
    { assert (INR K <= INR (K + j)) by (apply le_INR; lia). nra. }
    destruct (add_model acc p A P HA HP) as (Z & HZ & HZv).
    { apply (half_range (K + j) A Ea Hkj WA). lra. }
    { apply (half_range K P E HK WP). lra. }
    assert (approx (S (K + j)) Z (Ea + E)) as WZ.
    { apply approx_round with (A + P); [|exact HZv].
      apply approx_add; [exact WA | apply approx_weaken; exact WP]. }
    destruct (IH (acc + p)%float Z (Ea + E) (S j) HZ) as (S' & HS & WS).
    + rewrite Nat.add_succ_r. exact WZ.
    + lra.
    + lra.
    + replace (K + S j + List.length l)%nat with (K + j + S (List.length l))%nat by lia.
      exact Hk.
    + exists S'. split; [exact HS|].
      replace (K + j + S (List.length l))%nat with (K + S j + List.length l)%nat by lia.
      replace (Ea + (E + Rsum es)) with (Ea + E + Rsum es) by ring. exact WS.
Qed.

(** The sum of a list that is not empty, added left to right from [0]. *)
Lemma total_model p l E es :
  Forall2 (Term K lo M) (p :: l) (E :: es) ->
  Rsum (E :: es) <= M ->
  INR (K + List.length l) * unitRoundoff <= / 2 ->
  exists S,
    hasValue (fold_left PrimFloat.add (p :: l) 0%float) S /\
    approx (K + List.length l) S (Rsum (E :: es)).
Proof.
  intros H Hsum Hk. inversion H as [|? ? ? ? (P & HP & WP & HE) Hall]; subst.
  cbn [fold_left]. rewrite (add_zero p P HP).
  destruct (fold_add_model l es Hall p P E 0%nat HP) as (S' & HS & WS).
  - rewrite Nat.add_0_r. exact WP.
  - lra.
  - exact Hsum.
  - rewrite Nat.add_0_r. exact Hk.
  - exists S'. rewrite Nat.add_0_r in WS. split; assumption.
Qed.

End Sums.

(** ** The counts *)

Lemma u_2_53 : unitRoundoff * IZR (2 ^ 53) = 1.
Proof.
  unfold unitRoundoff. rewrite <- (bpow_IZR 53) by lia. rewrite <- bpow_add. reflexivity.
Qed.

(** A count reached by fewer than [2^52] increments is a finite number
    between [1] and twice the number of increments plus one. *)
Lemma countAfter_model (j : nat) :
  (Z.of_nat j < 2 ^ 52)%Z ->
  exists C, hasValue (countAfter binary64 j) C /\ 1 <= C <= 2 * INR j + 1.
Proof.
  pose proof u_bounds as Hu. pose proof u_2_53 as Hu53.
  induction j as [|j IH]; intro Hj.
  - exists 1. split; [exact hasValue_one | simpl; lra].
  - destruct IH as (C & HC & HCb); [lia|].
    assert (INR j + 1 <= IZR (2 ^ 52)) as Hj'.
    { rewrite INR_IZR_INZ, <- plus_IZR. apply IZR_le. lia. }
    assert (IZR (2 ^ 53) = 2 * IZR (2 ^ 52)) as E53
        by (rewrite <- mult_IZR; reflexivity).
    assert (IZR (2 ^ 53) <= bpow 500)
      by (rewrite <- (bpow_IZR 53) by lia; apply bpow_le; lia).
    assert (bpow (-500) <= 1)
      by (change 1 with (bpow 0); apply bpow_le; lia).
    cbn [countAfter add one binary64].
    destruct (add_model (countAfter binary64 j) 1%float C 1 HC hasValue_one)
      as (Z & HZ & HZv); [lra | lra |].
    exists Z. split; [exact HZ|].
    apply Rabs_bound in HZv. rewrite S_INR.
    assert (unitRoundoff * (C + 1) <= 1) by nra.
    split; nra.
Qed.

(** ** From counts to percentages *)

Lemma Rsum_scaled (t : R) (Cs : list R) :
  Rsum (map (fun C => C / t * 100) Cs) = Rsum Cs / t * 100.
Proof.
  induction Cs as [|C Cs IH]; cbn [map Rsum]; [unfold Rdiv; ring|].
  rewrite IH. unfold Rdiv. ring.
Qed.

Lemma Rsum_member (Cs : list R) :
  Forall (fun C => 0 <= C) Cs -> Forall (fun C => C <= Rsum Cs) Cs.
Proof.
  induction 1 as [|C Cs HC Hall IH]; constructor; cbn [Rsum].
  - assert (0 <= Rsum Cs); [|lra].
    clear IH. induction Hall; cbn [Rsum]; lra.
  - eapply Forall_impl; [|exact IH]. cbn. intros; lra.
Qed.

(** One percentage: a division by the total, which carries the roundings
    of its additions, and a multiplication by [100]. *)
Lemma percent_terms (T : float) (Tv SC : R) (L : nat) :
  hasValue T Tv -> approx L Tv SC -> 1 <= SC <= bpow 101 ->
  INR (S (S L)) * unitRoundoff <= / 2 ->
  forall cs Cs,
    Forall2 (fun c C => hasValue c C /\ 1 <= C <= SC) cs Cs ->
    Forall2 (Term (S (S L)) (bpow (-101)) 100)
            (map (fun c => (c / T) * 100)%float cs)
            (map (fun C => C / SC * 100) Cs).
Proof.
  intros HT WT HSC HL. pose proof u_bounds as Hu.
  assert (INR L * unitRoundoff <= / 2) as HL0.
  { assert (INR L <= INR (S (S L))) by (apply le_INR; lia). nra. }
  assert (INR (S L) * unitRoundoff <= / 2) as HL1.
  { assert (INR (S L) <= INR (S (S L))) by (apply le_INR; lia). nra. }
  pose proof (approx_range L Tv SC HL0 WT) as HTv.
  assert (bpow 101 * 2 <= bpow 500) as H101
      by (rewrite Rmult_comm, <- bpow_succ; apply bpow_le; lia).
  assert (bpow (-500) <= bpow (-101) / 2) as H101'.
  { replace (bpow (-101) / 2) with (bpow (-102)).
    - apply bpow_le. lia.
    - change (-101)%Z with (-102 + 1)%Z. rewrite bpow_succ. field. }
  assert (bpow (-101) * bpow 101 = 1) as Einv by (rewrite <- bpow_add; reflexivity).
  pose proof (bpow_gt_0 (-101)) as Hp. pose proof (bpow_gt_0 101) as Hq.
  pose proof (bpow_gt_0 (-500)) as Hm.
  assert (bpow (-101) <= 1) as Hp1 by (change 1 with (bpow 0); apply bpow_le; lia).
  induction 1 as [|c C cs Cs (HC & HCb) _ IH]; cbn [map]; constructor; [|exact IH].
  (* the quotient *)
  assert (0 < / SC) as HiSC by (apply Rinv_0_lt_compat; lra).
  assert (bpow (-101) <= C / SC <= 1) as HCS.
  { unfold Rdiv. split.
    - assert (bpow (-101) <= / SC).
      { apply Rmult_le_reg_r with SC; [lra|]. rewrite Rinv_l by lra. nra. }
      nra.
    - apply Rmult_le_reg_r with SC; [lra|].
      rewrite Rmult_assoc, Rinv_l by lra. lra. }
  destruct (div_model c T C Tv HC HT) as (Q & HQ & HQv); [lra | lra |].
  assert (approx (S L) Q (C / SC)) as WQ.
  { apply approx_round with (C / Tv); [|exact HQv].
    change L with (0 + L)%nat. apply approx_div; [apply approx_refl; lra | exact WT]. }
  pose proof (approx_range (S L) Q (C / SC) HL1 WQ) as HQr.
  destruct (mul_model (c / T)%float 100%float Q 100 HQ hasValue_hundred)
    as (P & HP & HPv).
  { lra. }
  { split; [lra|]. assert (128 <= bpow 500); [|lra].
    change 128 with (IZR (2 ^ 7)). rewrite <- (bpow_IZR 7) by lia. apply bpow_le. lia. }
  exists P. split; [exact HP|]. split.
  - apply approx_round with (Q * 100); [|exact HPv].
    replace (S L) with (S L + 0)%nat by lia.
    apply approx_mul; [exact WQ | apply approx_refl; lra].
  - nra.
Qed.

(** ** The disciplines counted, once more *)

Section Sizes.

Variable A : Arith.

Lemma length_assign (k : string) (v : num A) (acc : Counter A) :
  (List.length (assign A k v acc) <= S (List.length acc))%nat.
Proof.
  induction acc as [|[k0 c] rest IH]; simpl; [lia|].
  destruct (String.eqb k0 k); simpl; lia.
Qed.

Lemma length_countDiscipline (acc : Counter A) (entry : string * bool) :
  (List.length (countDiscipline A acc entry)
   <= List.length acc + (if snd entry then 1 else 0))%nat.
Proof.
  destruct entry as [k [|]]; simpl; [|lia].
  destruct (lookup A k acc);
    match goal with |- (List.length (assign A ?k ?v ?a) <= _)%nat =>
      pose proof (length_assign k v a) end; lia.
Qed.

Lemma length_record (entries : ClimbDisciplineRecord) :
  forall acc : Counter A,
    (List.length (fold_left (countDiscipline A) entries acc)
     <= List.length acc + List.length (filter snd entries))%nat.
Proof.
  induction entries as [|e entries IH]; intro acc; simpl; [lia|].
  pose proof (IH (countDiscipline A acc e)).
  pose proof (length_countDiscipline acc e).
  destruct e as [k [|]]; simpl in *; lia.
Qed.

(** There are no more disciplines counted than true flags. *)
Lemma length_typeToCount (climbs : list Climb) :
  (List.length (typeToCount A climbs) <= trueFlags climbs)%nat.
Proof.
  unfold typeToCount.
  assert (forall acc : Counter A,
             (List.length (fold_left (fun acc climb =>
                                   fold_left (countDiscipline A) (type climb) acc)
                                climbs acc)
              <= List.length acc + trueFlags climbs)%nat) as H.
  { induction climbs as [|c climbs IH]; intro acc; [simpl; lia|].
    cbn [fold_left].
    change (trueFlags (c :: climbs))
      with (List.length (filter snd (type c)) + trueFlags climbs)%nat.
    pose proof (IH (fold_left (countDiscipline A) (type c) acc)).
    pose proof (length_record (type c) acc). lia. }
  apply (H []).
Qed.

End Sizes.

Lemma flagsOf_le (key : string) (climbs : list Climb) :
  (flagsOf key climbs <= trueFlags climbs)%nat.
Proof.
  induction climbs as [|c climbs IH]; [apply Nat.le_refl|].
  change (trueFlags (c :: climbs))
    with (List.length (filter snd (type c)) + trueFlags climbs)%nat.
  change (flagsOf key (c :: climbs))
    with (List.length (filter (fun e : string * bool => String.eqb (fst e) key && snd e)
                              (type c)) + flagsOf key climbs)%nat.
  assert (List.length (filter (fun e : string * bool => String.eqb (fst e) key && snd e)
                         (type c))
          <= List.length (filter snd (type c)))%nat; [|lia].
  induction (type c) as [|[k b] es IHe]; simpl; [lia|].
  destruct b; [destruct (String.eqb k key)|rewrite andb_false_r]; simpl; lia.
Qed.

Lemma flagsOf_positive (key : string) (climb : Climb) (climbs : list Climb) :
  In climb climbs -> In (key, true) (type climb) -> (0 < flagsOf key climbs)%nat.
Proof.
  intros Hin Hkey.
  induction climbs as [|c climbs IH]; [destruct Hin|].
  change (flagsOf key (c :: climbs))
    with (List.length (filter (fun e : string * bool => String.eqb (fst e) key && snd e)
                              (type c)) + flagsOf key climbs)%nat.
  destruct Hin as [->|Hin]; [|specialize (IH Hin); lia].
  assert (In (key, true)
             (filter (fun e : string * bool => String.eqb (fst e) key && snd e)
                     (type climb))) as Hf.
  { apply filter_In. split; [exact Hkey|]. simpl. rewrite String.eqb_refl. reflexivity. }
  destruct (filter _ (type climb)); [destruct Hf | simpl; lia].
Qed.

(** ** The sum of the percentages *)

Lemma Forall_to_Forall2 {X Y} (P : X -> Y -> Prop) (l : list X) :
  Forall (fun x => exists y, P x y) l -> exists ys, Forall2 P l ys.
Proof.
  induction 1 as [|x l (y & Hy) _ (ys & IH)].
  - exists []. constructor.
  - exists (y :: ys). constructor; assumption.
Qed.

(** The percentages of a list of counts: each is a finite number above
    zero that is its exact percentage up to one more rounding than there
    are counts. *)
Lemma percents_of_counts (counts : list float) :
  counts <> [] ->
  (Z.of_nat (List.length counts) < 2 ^ 50)%Z ->
  Forall (fun c => exists C, hasValue c C /\ 1 <= C <= IZR (2 ^ 51)) counts ->
  exists Cs,
    List.length Cs = List.length counts /\
    0 < Rsum Cs /\
    Forall2 (Term (S (List.length counts)) (bpow (-101)) 100)
            (map (fun count =>
                    (count / fold_left (fun accumulator currentValue =>
                                          accumulator + currentValue)
                                       counts 0 * 100)%float)
                 counts)
            (map (fun C => C / Rsum Cs * 100) Cs).
Proof.
  intros Hne Hlen Hcounts.
  pose proof u_bounds as Hu. pose proof u_2_53 as Hu53.
  destruct (Forall_to_Forall2 _ _ Hcounts) as (Cs & HCs).
  pose proof (Forall2_length_eq _ _ _ HCs) as Hl.
  assert (Forall (fun C => 1 <= C <= IZR (2 ^ 51)) Cs) as HCb.
  { clear - HCs. induction HCs as [|c C l Cs (_ & H) _ IH]; constructor; assumption. }
  pose proof (Rsum_bounds _ _ _ HCb) as [Hs1 Hs2].
  assert (INR (List.length Cs) <= IZR (2 ^ 50)) as Hn.
  { rewrite <- Hl, INR_IZR_INZ. apply IZR_le. lia. }
  assert (1 <= INR (List.length Cs)) as Hn1.
  { rewrite <- Hl. destruct counts as [|c counts]; [contradiction|].
    cbn [List.length]. rewrite S_INR.
    pose proof (pos_INR (List.length counts)). lra. }
  assert (IZR (2 ^ 50) * IZR (2 ^ 51) = bpow 101) as E101.
  { rewrite <- mult_IZR. rewrite (bpow_IZR 101) by lia. reflexivity. }
  assert (0 < IZR (2 ^ 51)) as H51 by (apply IZR_lt; lia).
  assert (1 <= Rsum Cs <= bpow 101) as HSC.
  { split; [nra|]. rewrite <- E101.
    apply Rle_trans with (INR (List.length Cs) * IZR (2 ^ 51)); [exact Hs2|].
    apply Rmult_le_compat_r; lra. }
  assert (IZR (2 ^ 51) <= bpow 101) as H51'
      by (rewrite <- (bpow_IZR 51) by lia; apply bpow_le; lia).
  assert (bpow (-400) <= 1) as Hlo1
      by (change 1 with (bpow 0); apply bpow_le; lia).
  assert (bpow 101 <= bpow 400) as Hhi1 by (apply bpow_le; lia).
  assert (IZR (2 ^ 50) * unitRoundoff <= / 8) as Hnu.
  { assert (IZR (2 ^ 53) = 8 * IZR (2 ^ 50)) as E by (rewrite <- mult_IZR; reflexivity).
    rewrite E in Hu53. lra. }
  exists Cs. split; [symmetry; exact Hl|]. split; [lra|].
  set (T := fold_left (fun accumulator currentValue : float =>
                         (accumulator + currentValue)%float) counts 0%float).
  (* the total count *)
  destruct counts as [|c0 counts']; [contradiction|].
  destruct Cs as [|C0 Cs']; [inversion HCs|].
  set (L := List.length counts') in *.
  assert (List.length Cs' = L) as HL
      by (cbn [List.length] in Hl; inversion Hl; unfold L; lia).
  cbn [List.length] in Hn, Hn1. rewrite HL in Hn, Hn1. rewrite S_INR in Hn, Hn1.
  pose proof (pos_INR L) as HL0.
  destruct (total_model 0 1 (bpow 101) Hlo1 Hhi1 c0 counts' C0 Cs') as (Tv & HT & WT).
  { clear - HCs H51'. revert HCs. generalize (c0 :: counts') (C0 :: Cs').
    induction 1 as [|c C l Cs (Hc & Hb) _ IH]; constructor; [|exact IH].
    exists C. split; [exact Hc|]. split; [apply approx_refl; lra | lra]. }
  { apply HSC. }
  { cbn [Nat.add]. fold L. nra. }
  change (fold_left PrimFloat.add (c0 :: counts') 0%float) with T in HT.
  cbn [Nat.add] in WT. fold L in WT.
  (* the percentages *)
  assert (Forall2 (fun c C => hasValue c C /\ 1 <= C <= Rsum (C0 :: Cs'))
                  (c0 :: counts') (C0 :: Cs')) as HCs'.
  { assert (Forall (fun C => C <= Rsum (C0 :: Cs')) (C0 :: Cs')) as Hmem.
    { apply Rsum_member. eapply Forall_impl; [|exact HCb]. cbn. intros; lra. }
    clear - HCs Hmem. revert HCs Hmem. generalize (Rsum (C0 :: Cs')).
    generalize (c0 :: counts') (C0 :: Cs').
    induction 1 as [|c C l Cs (Hc & Hb) _ IH]; intro Hmem; constructor.
    - inversion Hmem; subst. split; [exact Hc | lra].
    - apply IH. inversion Hmem; assumption. }
  assert (INR (S (S L)) * unitRoundoff <= / 2) as HSSL by (rewrite !S_INR; nra).
  cbn [List.length]. fold L.
  exact (percent_terms T Tv (Rsum (C0 :: Cs')) L HT WT HSC HSSL _ _ HCs').
Qed.

(** The percentages of a list of counts, and their sum. *)
Lemma percents_sum_of_counts (counts : list float) :
  counts <> [] ->
  (Z.of_nat (List.length counts) < 2 ^ 50)%Z ->
  Forall (fun c => exists C, hasValue c C /\ 1 <= C <= IZR (2 ^ 51)) counts ->
  exists s,
    hasValue
      (fold_left PrimFloat.add
         (map (fun count =>
                 (count / fold_left (fun accumulator currentValue =>
                                       accumulator + currentValue)
                                    counts 0 * 100)%float)
              counts)
         0%float) s /\
    Rabs (s - 100) <= 400 * INR (List.length counts) * unitRoundoff.
Proof.
  intros Hne Hlen Hcounts.
  pose proof u_bounds as Hu. pose proof u_2_53 as Hu53.
  destruct (percents_of_counts counts Hne Hlen Hcounts) as (Cs & Hl & HSC & Hterms).
  assert (bpow (-400) <= bpow (-101)) as Hlo2 by (apply bpow_le; lia).
  assert (100 <= bpow 400) as Hhi2.
  { assert (128 <= bpow 400); [|lra].
    change 128 with (IZR (2 ^ 7)). rewrite <- (bpow_IZR 7) by lia. apply bpow_le. lia. }
  assert (IZR (2 ^ 50) * unitRoundoff <= / 8) as Hnu.
  { assert (IZR (2 ^ 53) = 8 * IZR (2 ^ 50)) as E by (rewrite <- mult_IZR; reflexivity).
    rewrite E in Hu53. lra. }
  assert (INR (List.length counts) <= IZR (2 ^ 50)) as Hn.
  { rewrite INR_IZR_INZ. apply IZR_le. lia. }
  destruct counts as [|c0 counts']; [contradiction|].
  destruct Cs as [|C0 Cs']; [discriminate|].
  set (L := List.length counts') in *.
  cbn [List.length] in Hn, Hterms. fold L in Hn, Hterms. rewrite S_INR in Hn.
  pose proof (pos_INR L) as HL0.
  cbn [map] in Hterms |- *.
  destruct (total_model (S (S L)) (bpow (-101)) 100 Hlo2 Hhi2 _ _ _ _ Hterms)
    as (s & Hs & Ws).
  { change (C0 / Rsum (C0 :: Cs') * 100
            :: map (fun C => C / Rsum (C0 :: Cs') * 100) Cs')
      with (map (fun C => C / Rsum (C0 :: Cs') * 100) (C0 :: Cs')).
    rewrite Rsum_scaled. unfold Rdiv. rewrite Rinv_r by lra. lra. }
  { rewrite length_map. fold L. rewrite plus_INR, !S_INR. nra. }
  exists s. split; [exact Hs|].
  change (C0 / Rsum (C0 :: Cs') * 100
          :: map (fun C => C / Rsum (C0 :: Cs') * 100) Cs')
    with (map (fun C => C / Rsum (C0 :: Cs') * 100) (C0 :: Cs')) in Ws.
  rewrite Rsum_scaled in Ws.
  replace (Rsum (C0 :: Cs') / Rsum (C0 :: Cs') * 100) with 100 in Ws
    by (unfold Rdiv; rewrite Rinv_r by lra; ring).
  rewrite length_map in Ws. fold L in Ws.
  assert (INR (S (S L) + L) * unitRoundoff <= / 2) as Hidx by (rewrite plus_INR, !S_INR; nra).
  pose proof (approx_distance _ _ _ Hidx Ws) as Hd.
  eapply Rle_trans; [exact Hd|].
  cbn [List.length]. fold L. rewrite plus_INR, !S_INR. nra.
Qed.

(** The counts of a collection with fewer than [2^50] true flags. *)
Lemma counts_model (climbs : list Climb) :
  (Z.of_nat (trueFlags climbs) < 2 ^ 50)%Z ->
  Forall (fun c => exists C, hasValue c C /\ 1 <= C <= IZR (2 ^ 51))
         (map snd (typeToCount binary64 climbs)).
Proof.
  intro HN. rewrite counts_by_keys. apply Forall_forall. intros c Hc.
  apply in_map_iff in Hc. destruct Hc as (k & <- & Hk).
  pose proof (flagsOf_le k climbs) as Hle.
  unfold countOf.
  destruct (countAfter_model (pred (flagsOf k climbs))) as (C & HC & HCb); [lia|].
  exists C. split; [exact HC|]. split; [lra|].
  assert (2 * INR (pred (flagsOf k climbs)) + 1 <= IZR (2 ^ 51)); [|lra].
  rewrite INR_IZR_INZ. rewrite <- (mult_IZR 2), <- plus_IZR. apply IZR_le. lia.
Qed.

Lemma counts_nonempty (climbs : list Climb) :
  (exists climb, In climb climbs /\ hasTrueFlag climb) ->
  map snd (typeToCount binary64 climbs) <> [].
Proof.
  intros (climb & Hin & key & Hkey).
  pose proof (flagsOf_positive key climb climbs Hin Hkey) as Hpos.
  pose proof (lookup_typeToCount binary64 climbs key) as Hlook.
  intro E. destruct (typeToCount binary64 climbs); [|discriminate]. simpl in Hlook.
  destruct (flagsOf key climbs); [lia | discriminate].
Qed.

Lemma counts_length (climbs : list Climb) :
  (Z.of_nat (trueFlags climbs) < 2 ^ 50)%Z ->
  (Z.of_nat (List.length (map snd (typeToCount binary64 climbs))) < 2 ^ 50)%Z.
Proof.
  intro HN. pose proof (length_typeToCount binary64 climbs). rewrite length_map. lia.
Qed.

Lemma hasValue_not_nan (f : float) (v : R) : hasValue f v -> PrimFloat.is_nan f = false.
Proof.
  intros (m & e & E & _). unfold Prim2SF in E.
  destruct (PrimFloat.is_nan f); [discriminate | reflexivity].
Qed.

(** X3.  When some record of the collection has a true discipline flag,
    every percentage of the result is a finite binary64 number above zero:
    none is NaN, infinite, zero or negative, and its value is at most
    [100] up to the roundings of the computation, [200 * (n + 1) * 2^-53]
    for [n] percentages.  The collection has fewer than [2^50] true
    flags. *)
Theorem percents_finite_binary64 (ClimbTypeToColor : string -> option string)
        (climbs : list Climb) (p : float) :
  (exists climb, In climb climbs /\ hasTrueFlag climb) ->
  (Z.of_nat (trueFlags climbs) < 2 ^ 50)%Z ->
  In p (percents (computeClimbingPercentsAndColors binary64 ClimbTypeToColor climbs)) ->
  PrimFloat.is_nan p = false /\
  exists v,
    hasValue p v /\
    0 < v <= 100 + 200 * INR (S (List.length
                                   (percents (computeClimbingPercentsAndColors
                                                binary64 ClimbTypeToColor climbs))))
                 * unitRoundoff.
Proof.
  intros Hflag HN Hp.
  pose proof u_bounds as Hu. pose proof u_2_53 as Hu53.
  destruct (percents_of_counts _ (counts_nonempty climbs Hflag) (counts_length climbs HN)
                               (counts_model climbs HN)) as (Cs & Hl & HSC & Hterms).
  unfold computeClimbingPercentsAndColors in Hp |- *. cbn [percents] in Hp |- *.
  rewrite length_map.
  set (counts := map snd (typeToCount binary64 climbs)) in *.
  assert (INR (S (List.length counts)) * unitRoundoff <= / 2) as Hidx.
  { pose proof (counts_length climbs HN) as Hlen. fold counts in Hlen.
    assert (INR (S (List.length counts)) <= IZR (2 ^ 50))
      by (rewrite INR_IZR_INZ; apply IZR_le; lia).
    assert (IZR (2 ^ 53) = 8 * IZR (2 ^ 50)) as E by (rewrite <- mult_IZR; reflexivity).
    rewrite E in Hu53. nra. }
  assert (Forall (fun q => exists E, Term (S (List.length counts)) (bpow (-101)) 100 q E)
                 (map (fun count =>
                         (count / fold_left (fun accumulator currentValue =>
                                               accumulator + currentValue)
                                            counts 0 * 100)%float)
                      counts)) as Hall.
  { clear - Hterms. revert Hterms.
    generalize (map (fun C => C / Rsum Cs * 100) Cs).
    generalize (map (fun count =>
                       (count / fold_left (fun accumulator currentValue =>
                                             accumulator + currentValue)
                                          counts 0 * 100)%float) counts).
    induction 1 as [|q E l es H _ IH]; constructor; [exists E; exact H | exact IH]. }
  rewrite Forall_forall in Hall. destruct (Hall p Hp) as (E & P & HP & WP & HE).
  split; [exact (hasValue_not_nan p P HP)|].
  exists P. split; [exact HP|]. split; [exact (hasValue_pos p P HP)|].
  pose proof (approx_distance _ _ _ Hidx WP) as Hd. apply Rabs_bound in Hd.
  pose proof (pos_INR (S (List.length counts))) as Hk.
  assert (0 <= 2 * INR (S (List.length counts)) * unitRoundoff) as Hnn by nra.
  assert (2 * INR (S (List.length counts)) * unitRoundoff * E
          <= 2 * INR (S (List.length counts)) * unitRoundoff * 100) as Hm
      by (apply Rmult_le_compat_l; lra).
  lra.
Qed.

Lemma percents_finite_binary64_witness :
  (exists climb, In climb Inputs.threeDisciplines /\ hasTrueFlag climb) /\
  (Z.of_nat (trueFlags Inputs.threeDisciplines) < 2 ^ 50)%Z /\
  In (1 / 3 * 100)%float
     (percents (computeClimbingPercentsAndColors binary64 Inputs.noColors
                                                 Inputs.threeDisciplines)) /\
  PrimFloat.is_nan (1 / 3 * 100)%float = false /\
  exists v,
    hasValue (1 / 3 * 100)%float v /\
    0 < v <= 100 + 200 * INR (S (List.length
                                   (percents (computeClimbingPercentsAndColors
                                                binary64 Inputs.noColors
                                                Inputs.threeDisciplines))))
                 * unitRoundoff.
Proof.
  assert (exists climb, In climb Inputs.threeDisciplines /\ hasTrueFlag climb) as H.
  { exists {| type := [("trad", true)] |}. split.
    - simpl. right. left. reflexivity.
    - exists "trad". simpl. left. reflexivity. }
  assert (Z.of_nat (trueFlags Inputs.threeDisciplines) < 2 ^ 50)%Z as Hn
      by reflexivity.
  assert (In (1 / 3 * 100)%float
             (percents (computeClimbingPercentsAndColors binary64 Inputs.noColors
                                                         Inputs.threeDisciplines)))
    as Hp by (left; vm_compute; reflexivity).
  split; [exact H|]. split; [exact Hn|]. split; [exact Hp|].
  apply (percents_finite_binary64 Inputs.noColors Inputs.threeDisciplines
                                  (1 / 3 * 100)%float H Hn Hp).
Defined.



End RoundingFacts.


(* ===================================================================== *)
(** * Routes *)
(* ===================================================================== *)

Section RouteFacts.

Import Helper.

Lemma append_inj_l (p u v : string) : p ++ u = p ++ v -> u = v.
Proof. induction p as [|c p IH]; simpl; intro H; [exact H | inversion H; auto]. Qed.

(** X10.  Two calls of [urlResolver] that give the same route were made with
    the same destination and with types of the same case: the three
    prefixes do not overlap. *)
Theorem routes_distinct (t1 t2 : float) (d1 d2 u : string) :
  urlResolver t1 d1 = Some u -> urlResolver t2 d2 = Some u ->
  d1 = d2 /\ forall d, urlResolver t1 d = urlResolver t2 d.
Proof.
  unfold urlResolver.
  destruct (PrimFloat.eqb t1 0), (PrimFloat.eqb t1 1), (PrimFloat.eqb t1 3),
    (PrimFloat.eqb t2 0), (PrimFloat.eqb t2 1), (PrimFloat.eqb t2 3);
    intros H1 H2; try discriminate; inversion H1; subst u; inversion H2;
    try discriminate; split; try reflexivity;
    match goal with H : _ ++ _ = _ ++ _ |- _ => apply append_inj_l in H; congruence
    | H : String _ _ = String _ _ |- _ => inversion H; subst; reflexivity | _ => idtac end.
Qed.

(** X11.  [getSlug] of an area that is not a leaf is the route [urlResolver]
    gives for the type 1, and [getSlug] tells its two arguments apart. *)
Theorem getSlug_routes (areaID areaID' : string) (isLeaf isLeaf' : bool) :
  urlResolver 1 areaID = Some (getSlug areaID false) /\
  (getSlug areaID isLeaf = getSlug areaID' isLeaf' ->
   areaID = areaID' /\ isLeaf = isLeaf').
Proof.
  split; [reflexivity|].
  unfold getSlug. destruct isLeaf, isLeaf'; simpl; intro H; inversion H;
    split; reflexivity.
Qed.

End RouteFacts.

(* ===================================================================== *)
(** * Discipline objects *)
(* ===================================================================== *)

Section DisciplineObjectFacts.

Import Helper.

Lemma readKey_In (key : string) (v : bool) (o : ClimbDisciplineRecord) :
  NoDup (map fst o) -> (readKey key o = Some v <-> In (key, v) o).
Proof.
  induction o as [|[k x] rest IH]; simpl; intro H.
  - split; [discriminate | tauto].
  - inversion H as [|? ? Hk Hrest]; subst. destruct (String.eqb k key) eqn:E.
    + apply String.eqb_eq in E. subst k. split.
      * intro Hx. inversion Hx. left. reflexivity.
      * intros [Hx|Hx]; [inversion Hx; reflexivity|].
        exfalso. apply Hk. apply in_map_iff. exists (key, v). split; [reflexivity|exact Hx].
    + apply String.eqb_neq in E. rewrite (IH Hrest). split; [tauto|].
      intros [Hx|Hx]; [inversion Hx; contradiction | exact Hx].
Qed.

Lemma readKey_None (key : string) (o : ClimbDisciplineRecord) :
  readKey key o = None <-> ~ In key (map fst o).
Proof.
  induction o as [|[k x] rest IH]; simpl.
  - split; [tauto | reflexivity].
  - destruct (String.eqb k key) eqn:E.
    + apply String.eqb_eq in E. split; [discriminate | intro H; exfalso; apply H; left; exact E].
    + apply String.eqb_neq in E. rewrite IH. tauto.
Qed.

Lemma filter_all {X} (f : X -> bool) (l : list X) :
  (forall x, In x l -> f x = true) -> filter f l = l.
Proof.
  induction l as [|x l IH]; simpl; intro H; [reflexivity|].
  rewrite (H x (or_introl eq_refl)), IH; [reflexivity|]. intros y Hy. apply H. right. exact Hy.
Qed.

(** One visit of the loop, as a filter. *)
Lemma dropIfFalse_filter (o : ClimbDisciplineRecord) (key : string) :
  NoDup (map fst o) ->
  dropIfFalse o key = filter (fun e => snd e || negb (String.eqb (fst e) key)) o.
Proof.
  intro H. unfold dropIfFalse. destruct (readKey key o) as [[|]|] eqn:E.
  - symmetry. apply filter_all. intros [k v] Hin. simpl.
    destruct (String.eqb k key) eqn:Ek; [|apply orb_true_r].
    apply String.eqb_eq in Ek. subst k.
    apply (readKey_In _ _ _ H) in Hin. rewrite E in Hin. inversion Hin. reflexivity.
  - unfold deleteKey. apply filter_ext_in. intros [k v] Hin. simpl.
    destruct (String.eqb k key) eqn:Ek; [|rewrite orb_true_r; reflexivity].
    apply String.eqb_eq in Ek. subst k.
    apply (readKey_In _ _ _ H) in Hin. rewrite E in Hin. inversion Hin. reflexivity.
  - symmetry. apply filter_all. intros [k v] Hin. simpl.
    destruct (String.eqb k key) eqn:Ek; [|apply orb_true_r].
    apply String.eqb_eq in Ek. subst k. apply readKey_None in E.
    exfalso. apply E. apply in_map_iff. exists (key, v). split; [reflexivity|exact Hin].
Qed.

Lemma NoDup_keys_filter (f : string * bool -> bool) (o : ClimbDisciplineRecord) :
  NoDup (map fst o) -> NoDup (map fst (filter f o)).
Proof.
  induction o as [|e o IH]; simpl; intro H; [constructor|].
  inversion H as [|? ? Hk Ho]; subst. destruct (f e); simpl; [|apply IH; exact Ho].
  constructor; [|apply IH; exact Ho].
  intro Hin. apply Hk. apply in_map_iff in Hin. destruct Hin as (x & Hx & Hin).
  apply filter_In in Hin. apply in_map_iff. exists x. split; [exact Hx | apply Hin].
Qed.

Lemma filter_twice {X} (f g : X -> bool) (l : list X) :
  filter f (filter g l) = filter (fun x => g x && f x) l.
Proof.
  induction l as [|x l IH]; simpl; [reflexivity|].
  destruct (g x); simpl; [destruct (f x); rewrite IH; reflexivity | exact IH].
Qed.

Lemma loop_filter (keys : list string) :
  forall o, NoDup (map fst o) ->
    fold_left dropIfFalse keys o =
    filter (fun e => snd e || negb (existsb (String.eqb (fst e)) keys)) o.
Proof.
  induction keys as [|k keys IH]; intros o H; simpl.
  - symmetry. apply filter_all. intros x _. apply orb_true_r.
  - rewrite dropIfFalse_filter by exact H.
    rewrite IH by (apply NoDup_keys_filter; exact H).
    rewrite filter_twice. apply filter_ext. intros [k0 v]. simpl.
    destruct v; simpl; [reflexivity|].
    destruct (String.eqb k0 k); reflexivity.
Qed.

Lemma simplifyLoop_filter (o : ClimbDisciplineRecord) :
  NoDup (map fst o) -> simplifyLoop o = filter snd o.
Proof.
  intro H. unfold simplifyLoop. rewrite (loop_filter _ _ H).
  apply filter_ext_in. intros [k v] Hin. simpl.
  destruct v; [reflexivity|]. simpl.
  assert (existsb (String.eqb k) (map fst o) = true) as E.
  { apply existsb_exists. exists k. split; [|apply String.eqb_refl].
    apply in_map_iff. exists (k, false). split; [reflexivity | exact Hin]. }
  rewrite E. reflexivity.
Qed.

Lemma deref_update_same (a : nat) (o : ClimbDisciplineRecord) (store : Store) :
  (a < List.length store)%nat -> deref a (update a o store) = o.
Proof.
  revert a. induction store as [|x store IH]; intros a H; simpl in H; [lia|].
  destruct a; simpl; [reflexivity|]. apply IH. lia.
Qed.

Lemma deref_update_other (a a' : nat) (o : ClimbDisciplineRecord) (store : Store) :
  a' <> a -> deref a' (update a o store) = deref a' store.
Proof.
  revert a a'. induction store as [|x store IH]; intros a a' H;
    [destruct a; reflexivity|].
  destruct a, a'; simpl; try reflexivity; try congruence.
  apply IH. congruence.
Qed.

Lemma length_update (a : nat) (o : ClimbDisciplineRecord) (store : Store) :
  List.length (update a o store) = List.length store.
Proof.
  revert a. induction store as [|x store IH]; intro a; [destruct a; reflexivity|].
  destruct a; simpl; [reflexivity | rewrite IH; reflexivity].
Qed.

Lemma update_deref (a : nat) (store : Store) :
  update a (deref a store) store = store.
Proof.
  revert a. induction store as [|x store IH]; intro a; [destruct a; reflexivity|].
  destruct a; simpl; [reflexivity|]. unfold deref in IH. rewrite IH. reflexivity.
Qed.

Lemma readKey_filter (key : string) (o : ClimbDisciplineRecord) :
  NoDup (map fst o) ->
  readKey key (filter snd o) =
  if existsb (fun e => String.eqb (fst e) key && snd e) o then Some true else None.
Proof.
  induction o as [|[k v] o IH]; intro Hnd; [reflexivity|].
  inversion Hnd as [|? ? Hk Ho]; subst. simpl. destruct v; simpl.
  - destruct (String.eqb k key) eqn:E; simpl; [reflexivity | apply IH; exact Ho].
  - rewrite andb_false_r. simpl. apply IH. exact Ho.
Qed.

(** X8.  [simplifyClimbTypeJson] on an object returns the reference it was
    given.  After the call the object holds its entries with a true value,
    in their order, and no other: a read through the reference gives [true]
    for the disciplines that were true and [undefined] for the rest.  The
    other objects of the store are as before, and a second call changes
    nothing. *)
Theorem simplifyClimbTypeJson_in_place (a : nat) (store : Store) :
  (a < List.length store)%nat -> NoDup (map fst (deref a store)) ->
  fst (simplifyClimbTypeJson (Some a) store) = a /\
  deref a (snd (simplifyClimbTypeJson (Some a) store)) = filter snd (deref a store) /\
  (forall key,
      readKey key (deref a (snd (simplifyClimbTypeJson (Some a) store))) =
      if existsb (fun e => String.eqb (fst e) key && snd e) (deref a store)
      then Some true else None) /\
  (forall a', a' <> a ->
              deref a' (snd (simplifyClimbTypeJson (Some a) store)) = deref a' store) /\
  List.length (snd (simplifyClimbTypeJson (Some a) store)) = List.length store /\
  simplifyClimbTypeJson (Some a) (snd (simplifyClimbTypeJson (Some a) store))
  = simplifyClimbTypeJson (Some a) store.
Proof.
  intros Ha Hnd. unfold simplifyClimbTypeJson. cbn [fst snd].
  assert (deref a (update a (simplifyLoop (deref a store)) store)
          = filter snd (deref a store)) as Hd
      by (rewrite deref_update_same by exact Ha; apply simplifyLoop_filter; exact Hnd).
  repeat split.
  - exact Hd.
  - intro key. rewrite Hd. apply readKey_filter. exact Hnd.
  - intros a' H. apply deref_update_other. exact H.
  - apply length_update.
  - f_equal.
    assert (simplifyLoop (deref a (update a (simplifyLoop (deref a store)) store))
            = deref a (update a (simplifyLoop (deref a store)) store)) as Hfix.
    { rewrite Hd. rewrite simplifyLoop_filter by (apply NoDup_keys_filter; exact Hnd).
      rewrite filter_twice. apply filter_ext. intros [k []]; reflexivity. }
    rewrite Hfix. apply update_deref.
Qed.

(** [simplifyClimbTypeJson] without an argument returns a new object
    that is empty and leaves every object of the store as it is. *)
Theorem simplifyClimbTypeJson_undefined (store : Store) :
  deref (fst (simplifyClimbTypeJson None store)) (snd (simplifyClimbTypeJson None store)) = [] /\
  forall a, (a < List.length store)%nat ->
            deref a (snd (simplifyClimbTypeJson None store)) = deref a store.
Proof.
  simpl. unfold deref. split.
  - rewrite app_nth2 by lia. rewrite Nat.sub_diag. reflexivity.
  - intros a H. apply app_nth1. exact H.
Qed.

(** ** From a list of disciplines to an object *)

Lemma readKey_setTrue (k key : string) (o : ClimbDisciplineRecord) :
  readKey key (setTrue k o) = if String.eqb k key then Some true else readKey key o.
Proof.
  induction o as [|[k0 v] o IH]; simpl.
  - destruct (String.eqb k key); reflexivity.
  - destruct (String.eqb k0 k) eqn:E0; simpl.
    + apply String.eqb_eq in E0. subst k0. destruct (String.eqb k key); reflexivity.
    + destruct (String.eqb k0 key) eqn:E1.
      * apply String.eqb_eq in E1. subst k0. rewrite String.eqb_sym in E0. rewrite E0. reflexivity.
      * exact IH.
Qed.

Lemma setTrue_keys (k : string) (o : ClimbDisciplineRecord) :
  NoDup (map fst o) -> NoDup (map fst (setTrue k o)).
Proof.
  induction o as [|[k0 v] o IH]; simpl; intro H.
  - repeat constructor. intros [].
  - inversion H as [|? ? Hk Ho]; subst. destruct (String.eqb k0 k) eqn:E; simpl.
    + constructor; assumption.
    + apply String.eqb_neq in E. constructor; [|apply IH; exact Ho].
      intro Hin. apply Hk. clear IH H Ho Hk. induction o as [|[k1 v1] o IH]; simpl in *.
      * destruct Hin as [Hin|[]]. congruence.
      * destruct (String.eqb k1 k); simpl in *; [exact Hin|].
        destruct Hin as [Hin|Hin]; [left; exact Hin | right; apply IH; exact Hin].
Qed.

Lemma setTrue_all (k : string) (o : ClimbDisciplineRecord) :
  Forall (fun e => snd e = true) o -> Forall (fun e => snd e = true) (setTrue k o).
Proof.
  induction 1 as [|[k0 v] o Hv Ho IH]; simpl.
  - repeat constructor.
  - destruct (String.eqb k0 k); constructor; auto.
Qed.

Lemma fold_setTrue (types : list string) :
  forall o,
    NoDup (map fst o) -> Forall (fun e => snd e = true) o ->
    let z := fold_left (fun acc curr => setTrue curr acc) types o in
    NoDup (map fst z) /\ Forall (fun e => snd e = true) z /\
    forall key, readKey key z =
                if existsb (String.eqb key) types then Some true else readKey key o.
Proof.
  induction types as [|t types IH]; intros o Hnd Hall; cbv zeta.
  - repeat split; assumption.
  - simpl. destruct (IH (setTrue t o) (setTrue_keys _ _ Hnd) (setTrue_all _ _ Hall))
      as (H1 & H2 & H3).
    repeat split; [exact H1 | exact H2 |].
    intro key. rewrite H3, readKey_setTrue. rewrite (String.eqb_sym key t).
    destruct (String.eqb t key); simpl; [|reflexivity].
    destruct (existsb (String.eqb key) types); reflexivity.
Qed.

(** X9.  The object of [disciplineArrayToObj] maps the listed disciplines to
    [true] and has no other key, whatever the repetitions in the list; the
    loop of [simplifyClimbTypeJson] leaves it as it is. *)
Theorem disciplineArrayToObj_spec (types : list string) :
  (forall key, readKey key (disciplineArrayToObj types) =
               if existsb (String.eqb key) types then Some true else None) /\
  NoDup (map fst (disciplineArrayToObj types)) /\
  simplifyLoop (disciplineArrayToObj types) = disciplineArrayToObj types.
Proof.
  unfold disciplineArrayToObj.
  destruct (fold_setTrue types [] (NoDup_nil _) (Forall_nil _)) as (H1 & H2 & H3).
  cbv zeta in *. repeat split.
  - intro key. rewrite H3. reflexivity.
  - exact H1.
  - rewrite simplifyLoop_filter by exact H1. apply filter_all.
    intros x Hx. rewrite Forall_forall in H2. apply H2. exact Hx.
Qed.

End DisciplineObjectFacts.

(* ===================================================================== *)
(** * More on the Sirv client *)
(* ===================================================================== *)

Section MoreClientFacts.

Import Sirv.
Local Open Scope sirv_scope.

#[local] Set Default Proof Using "Type".

Variable SIRV_CONFIG : SirvConfig.
Variable transport : list Request -> Request -> Outcome.
Variable Date_now : World -> Z.
Variable uuidv5 : string -> string -> string.
Variable uuidv5_URL : string.
Variable basename : string -> option string.
Variable trim : string -> string.
Variable encodeURIComponent : string -> string.
Variable toLowerCase : string -> string.

Local Abbreviation tokenParams := (Sirv.tokenParams SIRV_CONFIG).
Local Abbreviation tokenRequest := (Sirv.tokenRequest SIRV_CONFIG).
Local Abbreviation getToken := (Sirv.getToken SIRV_CONFIG transport).
Local Abbreviation getTokenIfNotExist := (Sirv.getTokenIfNotExist SIRV_CONFIG transport).
Local Abbreviation getAdminTokenIfNotExist :=
  (Sirv.getAdminTokenIfNotExist SIRV_CONFIG transport).
Local Abbreviation send := (Sirv.send transport).
Local Abbreviation mediaUrlHash := (Sirv.mediaUrlHash uuidv5 uuidv5_URL).
Local Abbreviation getUserImages :=
  (Sirv.getUserImages SIRV_CONFIG transport uuidv5 uuidv5_URL).
Local Abbreviation getImagesByFilenames :=
  (Sirv.getImagesByFilenames SIRV_CONFIG transport uuidv5 uuidv5_URL basename trim).
Local Abbreviation filenamesSearch := (Sirv.filenamesSearch basename trim).
Local Abbreviation getFileInfo :=
  (Sirv.getFileInfo SIRV_CONFIG transport uuidv5 uuidv5_URL encodeURIComponent).
Local Abbreviation getUserFiles :=
  (Sirv.getUserFiles SIRV_CONFIG transport encodeURIComponent).
Local Abbreviation createUserDir := (Sirv.createUserDir SIRV_CONFIG transport).
Local Abbreviation upload := (Sirv.upload SIRV_CONFIG transport).
Local Abbreviation remove := (Sirv.remove SIRV_CONFIG transport).
Local Abbreviation addUserIdFile :=
  (Sirv.addUserIdFile SIRV_CONFIG transport Date_now toLowerCase).
Local Abbreviation uidFileRequest := (Sirv.uidFileRequest toLowerCase).
Local Abbreviation fileInfoRequest := (Sirv.fileInfoRequest encodeURIComponent).
Local Abbreviation userFilesRequest := (Sirv.userFilesRequest encodeURIComponent).
Local Abbreviation oneCall := (Sirv.oneCall SIRV_CONFIG).
Local Abbreviation userImage := (Sirv.userImage uuidv5 uuidv5_URL).
Local Abbreviation fileImage := (Sirv.fileImage uuidv5 uuidv5_URL).
Local Abbreviation unableToGetToken :=
  (Error "Sirv API.getUserImages(): unable to get a token").

(** Closes the goals on continuations that branch and then return,
    throw, log or lift: they send nothing. *)
Ltac quiet :=
  let res := fresh "res" in
  let w' := fresh "w'" in
  intros res w'; unfold bind, ret, throw, lift, console_log;
  repeat match goal with
         | |- context [if ?b then _ else _] => destruct b
         | |- context [match ?x with _ => _ end] => destruct x
         end;
  reflexivity.

Lemma mapPushing_userImages_eq uuid hits :
  forall acc,
  mapPushing (userImageOfHit uuidv5 uuidv5_URL uuid) hits acc
  = Ok (map (userImage uuid) hits,
        (acc ++ map (fun h => mediaUrlHash (srcFilename (_source h))) hits)%list).
Proof.
  induction hits as [|h hits IH]; intro acc; cbn [mapPushing map].
  - rewrite app_nil_r. reflexivity.
  - unfold userImageOfHit at 1. rewrite IH. rewrite <- app_assoc. reflexivity.
Qed.


Lemma mapPushing_fileImages_eq hits :
  forall acc,
  mapPushing (fileImageOfHit uuidv5 uuidv5_URL) hits acc
  = if existsb (fun h => nullish (srcMeta (_source h))) hits
    then Throw TypeError
    else Ok (map fileImage hits,
             (acc ++ map (fun h => mediaUrlHash (srcFilename (_source h))) hits)%list).
Proof.
  induction hits as [|h hits IH]; intro acc; cbn [mapPushing map existsb].
  - rewrite app_nil_r. reflexivity.
  - unfold fileImageOfHit at 1. unfold Sirv.fileImage at 1.
    destruct (srcMeta (_source h)) eqn:E; cbn [stripMeta nullish orb]; try reflexivity;
      rewrite IH; destruct (existsb _ hits); try reflexivity;
      rewrite <- app_assoc; reflexivity.
Qed.


(** ** Token helpers, once more *)

Lemma helper_sent (token : option string) (w : World) :
  exists new,
    sent (snd (getTokenIfNotExist token w)) = (sent w ++ new)%list /\
    (new = [] \/ new = [tokenRequest false]).
Proof.
  destruct token as [t|].
  - exists []. split; [symmetry; apply app_nil_r | left; reflexivity].
  - unfold Sirv.getTokenIfNotExist, bind.
    destruct (_validateTokenParams (tokenParams false)) eqn:E.
    + rewrite (getToken_set _ _ _ _ E). exists [tokenRequest false].
      split; [|right; reflexivity].
      destruct (transport (sent w) (tokenRequest false)) as [res|e]; [|reflexivity].
      destruct (status res =? 200)%Z; [|reflexivity].
      destruct (readToken (data res)) as [[t|]|e]; reflexivity.
    + rewrite (getToken_unset _ _ _ _ E). exists []. cbn.
      split; [symmetry; apply app_nil_r | left; reflexivity].
Qed.

Lemma admin_helper_sent (token : option string) (w : World) :
  exists new,
    sent (snd (getAdminTokenIfNotExist token w)) = (sent w ++ new)%list /\
    (new = [] \/ new = [tokenRequest true]).
Proof.
  destruct token as [t|].
  - exists []. split; [symmetry; apply app_nil_r | left; reflexivity].
  - unfold Sirv.getAdminTokenIfNotExist, Sirv.getAdminToken, bind.
    destruct (_validateTokenParams (tokenParams true)) eqn:E.
    + rewrite (getToken_set _ _ _ _ E). exists [tokenRequest true].
      split; [|right; reflexivity].
      destruct (transport (sent w) (tokenRequest true)) as [res|e]; [|reflexivity].
      destruct (status res =? 200)%Z; [|reflexivity].
      destruct (readToken (data res)) as [[t|]|e]; reflexivity.
    + rewrite (getToken_unset _ _ _ _ E). exists []. cbn.
      split; [symmetry; apply app_nil_r | left; reflexivity].
Qed.

Lemma bearer_authorized (_t : string) (r : Request) :
  reqHeaders r = withBearer _t -> authorized r.
Proof. intro H. exists _t. rewrite H. simpl. right. left. reflexivity. Qed.

(** An operation that resolves a token and then sends one request. *)
Lemma token_then_request {A : Type} (isAdmin : bool)
      (helper : M string) (body : string -> M A) (w : World) :
  (exists new,
      sent (snd (helper w)) = (sent w ++ new)%list /\
      (new = [] \/ new = [tokenRequest isAdmin])) ->
  (forall _t w1, exists r,
        sent (snd (body _t w1)) = (sent w1 ++ [r])%list /\ authorized r) ->
  exists new,
    sent (snd (bind helper body w)) = (sent w ++ new)%list /\ oneCall isAdmin new.
Proof.
  intros (new & Hnew & Hcase) Hbody. unfold bind.
  destruct (helper w) as [[_t|e] w1]; cbn [snd] in Hnew.
  - destruct (Hbody _t w1) as (r & Hr & Hauth).
    exists (new ++ [r])%list. split.
    + rewrite Hr, Hnew. symmetry. apply app_assoc.
    + exists new, [r]. repeat split; [exact Hcase|]. right. exists r. split; [reflexivity|exact Hauth].
  - exists new. split; [exact Hnew|].
    exists new, []. split; [symmetry; apply app_nil_r|]. split; [exact Hcase | left; reflexivity].
Qed.

(** X14.  No operation retries: each one adds to the requests sent at most one
    token request, of the privilege of the operation, followed by at most
    one request of its own, which carries a bearer token; it removes
    nothing from the requests sent before. *)
Theorem no_retries (token : option string) (w : World) :
  (forall uuid size,
      exists new, sent (snd (getUserImages uuid size token w)) = (sent w ++ new)%list
                  /\ oneCall false new) /\
  (forall fileList,
      exists new, sent (snd (getImagesByFilenames fileList token w)) = (sent w ++ new)%list
                  /\ oneCall false new) /\
  (forall uuid filename,
      exists new, sent (snd (getFileInfo uuid filename token w)) = (sent w ++ new)%list
                  /\ oneCall false new) /\
  (forall uuid,
      exists new, sent (snd (getUserFiles uuid token w)) = (sent w ++ new)%list
                  /\ oneCall false new) /\
  (forall uuid,
      exists new, sent (snd (createUserDir uuid token w)) = (sent w ++ new)%list
                  /\ oneCall true new) /\
  (forall filename imageData,
      exists new, sent (snd (upload filename imageData token w)) = (sent w ++ new)%list
                  /\ oneCall true new) /\
  (forall filename,
      exists new, sent (snd (remove filename token w)) = (sent w ++ new)%list
                  /\ oneCall true new) /\
  (forall filename uid,
      exists new, sent (snd (addUserIdFile filename uid token w)) = (sent w ++ new)%list
                  /\ oneCall true new).
Proof.
  repeat split.
  - intros uuid size. unfold Sirv.getUserImages.
    apply token_then_request; [apply helper_sent|].
    intros _t w1. eexists. split; [apply bind_send_sent; quiet|].
    apply (bearer_authorized _t). reflexivity.
  - intros fileList. unfold Sirv.getImagesByFilenames.
    destruct fileList as [|file fileList]; cbn [List.length Nat.eqb].
    + exists []. split; [symmetry; apply app_nil_r|].
      exists [], []. repeat split; left; reflexivity.
    + apply token_then_request; [apply helper_sent|].
      intros _t w1. eexists. split; [apply bind_send_sent; quiet|].
      apply (bearer_authorized _t). reflexivity.
  - intros uuid filename. unfold Sirv.getFileInfo.
    apply token_then_request; [apply helper_sent|].
    intros _t w1. eexists. split; [apply bind_send_sent; quiet|].
    apply (bearer_authorized _t). reflexivity.
  - intros uuid. unfold Sirv.getUserFiles.
    apply token_then_request; [apply helper_sent|].
    intros _t w1. eexists. split; [apply bind_send_sent; quiet|].
    apply (bearer_authorized _t). reflexivity.
  - intros uuid. unfold Sirv.createUserDir.
    apply token_then_request; [apply admin_helper_sent|].
    intros _t w1. exists (mkdirRequest uuid _t). split.
    + unfold tryCatch, bind, client_post, Sirv.send. fold (mkdirRequest uuid _t).
      destruct (transport (sent w1) (mkdirRequest uuid _t)); reflexivity.
    + apply (bearer_authorized _t). reflexivity.
  - intros filename imageData. unfold Sirv.upload.
    apply token_then_request; [apply admin_helper_sent|].
    intros _t w1. eexists. split; [apply bind_send_sent; quiet|].
    exists _t. simpl. right. left. reflexivity.
  - intros filename. unfold Sirv.remove.
    apply token_then_request; [apply admin_helper_sent|].
    intros _t w1. eexists. split; [apply bind_send_sent; quiet|].
    exists _t. simpl. right. left. reflexivity.
  - intros filename uid. destruct uid as [uid|].
    + unfold Sirv.addUserIdFile.
      destruct (admin_helper_sent token w) as (new & Hnew & Hcase).
      unfold tryCatch, bind at 1.
      destruct (getAdminTokenIfNotExist token w) as [[_t|e] w1] eqn:E; cbn [snd] in Hnew.
      * exists (new ++ [uidFileRequest filename uid (Date_now w1) _t])%list. split.
        -- unfold bind, client_post, Sirv.send.
           fold (uidFileRequest filename uid (Date_now w1) _t).
           destruct (transport (sent w1) (uidFileRequest filename uid (Date_now w1) _t))
             as [res|e]; [|cbn; rewrite Hnew; symmetry; apply app_assoc].
           destruct ((200 <=? status res)%Z && (status res <=? 204)%Z);
             cbn; rewrite Hnew; symmetry; apply app_assoc.
        -- exists new, [uidFileRequest filename uid (Date_now w1) _t].
           repeat split; [exact Hcase|]. right. eexists. split; [reflexivity|].
           exists _t. simpl. right. left. reflexivity.
      * exists new. split; [exact Hnew|].
        exists new, []. split; [symmetry; apply app_nil_r|].
        split; [exact Hcase | left; reflexivity].
    + exists []. split; [symmetry; apply app_nil_r|].
      exists [], []. repeat split; left; reflexivity.
Qed.


(** ** What a result tells *)

(** X15.  An operation that returns a result did resolve a token and got an
    answer of success to its own request: status 200 for [getUserImages],
    for [getImagesByFilenames] on a list that is not empty, for
    [getFileInfo] and for [getUserFiles], with a body that is neither
    [undefined] nor [null] for the three that read it; a status from 200
    to 204 for [upload] and [remove], whose result is the filename they
    were given.  [getImagesByFilenames] on the empty list is the one
    result without a token or a request: it returns the empty result and
    leaves the world as it is. *)
Theorem result_means_success_status (token : option string) (w : World) :
  (forall uuid size r,
      fst (getUserImages uuid size token w) = Ok r ->
      exists _t w1 res,
        getTokenIfNotExist token w = (Ok _t, w1) /\
        transport (sent w1) (userImagesRequest uuid size _t) = Resolves res /\
        status res = 200%Z /\ nullBody (data res) = false) /\
  getImagesByFilenames [] token w
  = (Ok {| filesMediaList := []; idList := [] |}, w) /\
  (forall file fileList r,
      fst (getImagesByFilenames (file :: fileList) token w) = Ok r ->
      exists _t w1 res,
        getTokenIfNotExist token w = (Ok _t, w1) /\
        transport (sent w1) (filenamesSearch (file :: fileList) _t) = Resolves res /\
        status res = 200%Z /\ nullBody (data res) = false) /\
  (forall uuid filename r,
      fst (getFileInfo uuid filename token w) = Ok r ->
      exists _t w1 res,
        getTokenIfNotExist token w = (Ok _t, w1) /\
        transport (sent w1) (fileInfoRequest filename _t) = Resolves res /\
        status res = 200%Z /\ nullBody (data res) = false) /\
  (forall uuid r,
      fst (getUserFiles uuid token w) = Ok r ->
      exists _t w1 res,
        getTokenIfNotExist token w = (Ok _t, w1) /\
        transport (sent w1) (userFilesRequest uuid _t) = Resolves res /\
        status res = 200%Z) /\
  (forall filename imageData r,
      fst (upload filename imageData token w) = Ok r ->
      r = filename /\
      exists _t w1 res,
        getAdminTokenIfNotExist token w = (Ok _t, w1) /\
        transport (sent w1) (uploadRequest filename imageData _t) = Resolves res /\
        (200 <= status res <= 204)%Z) /\
  (forall filename r,
      fst (remove filename token w) = Ok r ->
      r = filename /\
      exists _t w1 res,
        getAdminTokenIfNotExist token w = (Ok _t, w1) /\
        transport (sent w1) (removeRequest filename _t) = Resolves res /\
        (200 <= status res <= 204)%Z).
Proof.
  split; [|split; [|split; [|split; [|split; [|split]]]]].
  - intros uuid size r H. unfold Sirv.getUserImages, bind at 1 in H.
    destruct (getTokenIfNotExist token w) as [[_t|e] w1]; [|discriminate].
    unfold bind at 1, client_post, Sirv.send in H.
    fold (userImagesRequest uuid size _t) in H.
    destruct (transport (sent w1) (userImagesRequest uuid size _t)) as [res|e] eqn:E;
      [|discriminate].
    unfold bind at 1, lift at 1, hitsOf, readHits in H.
    destruct (status res =? 200)%Z eqn:Es; [|discriminate].
    destruct (nullBody (data res)) eqn:Eb; [discriminate|].
    apply Z.eqb_eq in Es. exists _t, w1, res.
    split; [reflexivity|]. split; [exact E|]. split; [exact Es | exact Eb].
  - reflexivity.
  - intros file fileList r H. unfold Sirv.getImagesByFilenames in H.
    cbn [List.length Nat.eqb] in H. unfold bind at 1 in H.
    destruct (getTokenIfNotExist token w) as [[_t|e] w1]; [|discriminate].
    unfold bind at 1, Sirv.send in H.
    destruct (transport (sent w1) (filenamesSearch (file :: fileList) _t)) as [res|e] eqn:E;
      [|discriminate].
    unfold bind at 1, lift at 1, hitsOf, readHits in H.
    destruct (status res =? 200)%Z eqn:Es; [|discriminate].
    destruct (nullBody (data res)) eqn:Eb; [discriminate|].
    apply Z.eqb_eq in Es. exists _t, w1, res.
    split; [reflexivity|]. split; [exact E|]. split; [exact Es | exact Eb].
  - intros uuid filename r H. unfold Sirv.getFileInfo, bind at 1 in H.
    destruct (getTokenIfNotExist token w) as [[_t|e] w1]; [|discriminate].
    unfold bind at 1, client_get, Sirv.send in H.
    fold (fileInfoRequest filename _t) in H.
    destruct (transport (sent w1) (fileInfoRequest filename _t)) as [res|e] eqn:E;
      [|discriminate].
    destruct (status res =? 200)%Z eqn:Es; [|discriminate].
    unfold bind at 1, lift at 1, readStat in H.
    destruct (nullBody (data res)) eqn:Eb; [discriminate|].
    apply Z.eqb_eq in Es. exists _t, w1, res.
    split; [reflexivity|]. split; [exact E|]. split; [exact Es | exact Eb].
  - intros uuid r H. unfold Sirv.getUserFiles, bind at 1 in H.
    destruct (getTokenIfNotExist token w) as [[_t|e] w1]; [|discriminate].
    unfold bind at 1, client_get, Sirv.send in H.
    fold (userFilesRequest uuid _t) in H.
    destruct (transport (sent w1) (userFilesRequest uuid _t)) as [res|e] eqn:E;
      [|discriminate].
    destruct (status res =? 200)%Z eqn:Es; [|discriminate].
    apply Z.eqb_eq in Es. exists _t, w1, res. repeat split; assumption.
  - intros filename imageData r H. unfold Sirv.upload, bind at 1 in H.
    destruct (getAdminTokenIfNotExist token w) as [[_t|e] w1]; [|discriminate].
    unfold bind at 1, client_post, Sirv.send in H.
    fold (uploadRequest filename imageData _t) in H.
    destruct (transport (sent w1) (uploadRequest filename imageData _t)) as [res|e] eqn:E;
      [|discriminate].
    destruct ((200 <=? status res)%Z && (status res <=? 204)%Z) eqn:Es; [|discriminate].
    apply andb_true_iff in Es. destruct Es as [E1 E2].
    apply Z.leb_le in E1. apply Z.leb_le in E2.
    split; [inversion H; reflexivity|].
    exists _t, w1, res. repeat split; assumption.
  - intros filename r H. unfold Sirv.remove, bind at 1 in H.
    destruct (getAdminTokenIfNotExist token w) as [[_t|e] w1]; [|discriminate].
    unfold bind at 1, client_post, Sirv.send in H.
    fold (removeRequest filename _t) in H.
    destruct (transport (sent w1) (removeRequest filename _t)) as [res|e] eqn:E;
      [|discriminate].
    destruct ((200 <=? status res)%Z && (status res <=? 204)%Z) eqn:Es; [|discriminate].
    apply andb_true_iff in Es. destruct Es as [E1 E2].
    apply Z.leb_le in E1. apply Z.leb_le in E2.
    split; [inversion H; reflexivity|].
    exists _t, w1, res. repeat split; assumption.
Qed.

(** ** The best-effort marker file *)

(** X16.  [addUserIdFile] never throws: it returns a boolean, which is [true]
    exactly when the owner id is not [null], a token was resolved and the
    upload was answered with a status from 200 to 204. *)
Theorem addUserIdFile_never_throws (filename : string) (uid token : option string)
        (w : World) :
  exists b,
    fst (addUserIdFile filename uid token w) = Ok b /\
    (b = true <->
     exists u _t w1 res,
       uid = Some u /\
       getAdminTokenIfNotExist token w = (Ok _t, w1) /\
       transport (sent w1) (uidFileRequest filename u (Date_now w1) _t) = Resolves res /\
       (200 <= status res <= 204)%Z).
Proof.
  destruct uid as [u|].
  2: { exists false. split; [reflexivity|]. split; [discriminate|].
       intros (u & _t & w1 & res & H & _). discriminate. }
  unfold Sirv.addUserIdFile, tryCatch, bind at 1.
  destruct (getAdminTokenIfNotExist token w) as [[_t|e] w1] eqn:E.
  - unfold bind, client_post, Sirv.send.
    fold (uidFileRequest filename u (Date_now w1) _t).
    destruct (transport (sent w1) (uidFileRequest filename u (Date_now w1) _t))
      as [res|e] eqn:Er.
    + destruct ((200 <=? status res)%Z && (status res <=? 204)%Z) eqn:Es.
      * exists true. split; [reflexivity|]. split; [|reflexivity]. intros _.
        apply andb_true_iff in Es. destruct Es as [E1 E2].
        apply Z.leb_le in E1. apply Z.leb_le in E2.
        exists u, _t, w1, res. repeat split; assumption.
      * exists false. split; [reflexivity|]. split; [discriminate|].
        intros (u' & t' & w' & res' & Hu & Ht & Hr & Hs).
        inversion Hu; subst u'. inversion Ht; subst t' w'.
        rewrite Er in Hr. inversion Hr; subst res'.
        apply andb_false_iff in Es. destruct Es as [Es|Es];
          [apply Z.leb_gt in Es | apply Z.leb_gt in Es]; lia.
    + exists false. split; [reflexivity|]. split; [discriminate|].
      intros (u' & t' & w' & res' & Hu & Ht & Hr & Hs).
      inversion Hu; subst u'. inversion Ht; subst t' w'.
      rewrite Er in Hr. discriminate.
  - exists false. split; [reflexivity|]. split; [discriminate|].
    intros (u' & t' & w' & res' & Hu & Ht & _). discriminate.
Qed.

(** ** Missing credentials *)

(** X17.  Without a supplied token and with an incomplete credential pair, the
    operations of that privilege send nothing.  With an incomplete
    read-only pair [getUserImages], [getImagesByFilenames] on a list that
    is not empty, [getFileInfo] and [getUserFiles] throw the error of the
    token helper, while [getImagesByFilenames] on the empty list still
    returns the empty result.  With an incomplete administrative pair
    [upload] and [remove] throw that error and [addUserIdFile] returns
    [false]. *)
Theorem missing_credentials (w : World) :
  (clientId SIRV_CONFIG = None \/ clientSecret SIRV_CONFIG = None ->
   (forall uuid size,
       fst (getUserImages uuid size None w) = Throw unableToGetToken /\
       sent (snd (getUserImages uuid size None w)) = sent w) /\
   (forall file fileList,
       fst (getImagesByFilenames (file :: fileList) None w) = Throw unableToGetToken /\
       sent (snd (getImagesByFilenames (file :: fileList) None w)) = sent w) /\
   getImagesByFilenames [] None w
   = (Ok {| filesMediaList := []; idList := [] |}, w) /\
   (forall uuid filename,
       fst (getFileInfo uuid filename None w) = Throw unableToGetToken /\
       sent (snd (getFileInfo uuid filename None w)) = sent w) /\
   (forall uuid,
       fst (getUserFiles uuid None w) = Throw unableToGetToken /\
       sent (snd (getUserFiles uuid None w)) = sent w)) /\
  (clientAdminId SIRV_CONFIG = None \/ clientAdminSecret SIRV_CONFIG = None ->
   (forall filename imageData,
       fst (upload filename imageData None w) = Throw unableToGetToken /\
       sent (snd (upload filename imageData None w)) = sent w) /\
   (forall filename,
       fst (remove filename None w) = Throw unableToGetToken /\
       sent (snd (remove filename None w)) = sent w) /\
   (forall filename uid,
       fst (addUserIdFile filename (Some uid) None w) = Ok false /\
       sent (snd (addUserIdFile filename (Some uid) None w)) = sent w)).
Proof.
  split; intro H.
  - assert (_validateTokenParams (tokenParams false) = false) as Hv
        by (apply validate_spec; exact H).
    assert (getTokenIfNotExist None w =
            (Throw unableToGetToken,
             {| sent := sent w;
                console := (console w ++ [[LogString "Missing client token/secret"]])%list |}))
      as Hn
        by (unfold Sirv.getTokenIfNotExist, bind; rewrite (getToken_unset _ _ _ _ Hv);
            reflexivity).
    split; [|split; [|split; [|split]]]; intros.
    + unfold Sirv.getUserImages, bind. rewrite Hn. split; reflexivity.
    + unfold Sirv.getImagesByFilenames. cbn [List.length Nat.eqb].
      unfold bind. rewrite Hn. split; reflexivity.
    + reflexivity.
    + unfold Sirv.getFileInfo, bind. rewrite Hn. split; reflexivity.
    + unfold Sirv.getUserFiles, bind. rewrite Hn. split; reflexivity.
  - assert (_validateTokenParams (tokenParams true) = false) as Hv
        by (apply validate_spec; exact H).
    assert (getAdminTokenIfNotExist None w =
            (Throw unableToGetToken,
             {| sent := sent w;
                console := (console w ++ [[LogString "Missing client token/secret"]])%list |}))
      as Hn
        by (unfold Sirv.getAdminTokenIfNotExist, Sirv.getAdminToken, bind;
            rewrite (getToken_unset _ _ _ _ Hv); reflexivity).
    split; [|split]; intros.
    + unfold Sirv.upload, bind. rewrite Hn. split; reflexivity.
    + unfold Sirv.remove, bind. rewrite Hn. split; reflexivity.
    + unfold Sirv.addUserIdFile, tryCatch, bind. rewrite Hn. split; reflexivity.
Qed.

End MoreClientFacts.

Section LoadingFacts.

Import Sirv.

(** X18.  A module that loaded has its base URL set and its configuration
    equal to the environment; when it loaded on the server, the read-only
    pair is complete, so [getToken()] always sends the token request and
    logs nothing. *)
Theorem loadModule_guards (env : Env) (windowUndefined : bool) (cfg : SirvConfig) :
  loadModule env windowUndefined = Ok cfg ->
  NEXT_PUBLIC_SIRV_BASE_URL env = Some (baseUrl cfg) /\
  clientId cfg = SIRV_CLIENT_ID_RO env /\
  clientSecret cfg = SIRV_CLIENT_SECRET_RO env /\
  clientAdminId cfg = SIRV_CLIENT_ID_RW env /\
  clientAdminSecret cfg = SIRV_CLIENT_SECRET_RW env /\
  (windowUndefined = true ->
   forall transport w,
     sent (snd (getToken cfg transport false w))
     = (sent w ++ [tokenRequest cfg false])%list /\
     console (snd (getToken cfg transport false w)) = console w).
Proof.
  unfold loadModule. intro H.
  destruct (isNull (SIRV_CLIENT_ID_RO env) && windowUndefined) eqn:E1; [discriminate|].
  destruct (isNull (SIRV_CLIENT_SECRET_RO env) && windowUndefined) eqn:E2; [discriminate|].
  destruct (NEXT_PUBLIC_SIRV_BASE_URL env) as [u|] eqn:E3; [|discriminate].
  cbn [isNull] in H. inversion H; subst cfg. cbn [baseUrl clientId clientSecret
                                                   clientAdminId clientAdminSecret].
  repeat split.
  - subst windowUndefined. rewrite andb_true_r in E1, E2.
    destruct (SIRV_CLIENT_ID_RO env) as [i|] eqn:Ei; [|discriminate].
    destruct (SIRV_CLIENT_SECRET_RO env) as [x|] eqn:Ex; [|discriminate].
    rewrite getToken_set; [reflexivity|].
    unfold _validateTokenParams, tokenParams. cbn. reflexivity.
  - subst windowUndefined. rewrite andb_true_r in E1, E2.
    destruct (SIRV_CLIENT_ID_RO env) as [i|] eqn:Ei; [|discriminate].
    destruct (SIRV_CLIENT_SECRET_RO env) as [x|] eqn:Ex; [|discriminate].
    rewrite getToken_set; [reflexivity|].
    unfold _validateTokenParams, tokenParams. cbn. reflexivity.
Qed.

End LoadingFacts.

(* ===================================================================== *)
(** * More statements at concrete inputs *)
(* ===================================================================== *)

Section MoreWitnesses.

Import Helper.
Import Sirv.

Lemma sanitizeName_keeps_plain_names_witness :
  anyChar decorative "My Route" = false /\ sanitizeName "My Route" = "My Route".
Proof.
  split; [reflexivity|].
  apply (sanitizeName_keeps_plain_names "My Route"). reflexivity.
Defined.

Lemma sanitizeName_strips_leading_token_witness :
  sanitizeName "(6) My Route" = "My Route" /\
  sanitizeName "(aa)   My (Route" = "My (Route" /\
  sanitizeName "1-My Route" = "My Route" /\
  sanitizeName "12:My Route" = "My Route" /\
  sanitizeName "10-My Route" = "My Route" /\
  sanitizeName "a.My Route" = "My Route" /\
  sanitizeName "Mt. Whitney" = " Whitney".
Proof.
  destruct sanitizeName_strips_leading_token as (P & N1 & N2 & N3 & L1 & L2).
  split; [|split; [|split; [|split; [|split; [|split]]]]].
  - apply (P "6" " My Route"); [simpl; lia | reflexivity | reflexivity].
  - apply (P "aa" "   My (Route"); [simpl; lia | reflexivity | reflexivity].
  - apply (N1 "1"%char "-"%char "My Route"); reflexivity.
  - apply (N2 "1"%char "2"%char ":"%char "My Route"); reflexivity.
  - apply (N3 "1"%char "-"%char "My Route"); reflexivity.
  - apply (L1 "a"%char "My Route"); reflexivity.
  - apply (L2 "M"%char "t"%char " Whitney"); reflexivity.
Defined.

Lemma checkUsername_spec_witness :
  checkUsername (Some "validUser_1") = true /\
  usernameShape "admin123" = true /\
  checkUsername (Some "admin123") = false.
Proof.
  split; [|split; [reflexivity|]].
  - apply (proj2 (checkUsername_spec "validUser_1")).
    apply (proj1 (checkUsername_spec "validUser_1")). reflexivity.
  - destruct (checkUsername (Some "admin123")) eqn:E; [|reflexivity].
    exfalso. apply (proj1 (checkUsername_spec "admin123")) in E.
    destruct E as (_ & _ & H). apply H.
    exists "", "admin", "123". split; reflexivity.
Defined.

Lemma simplifyClimbTypeJson_in_place_witness :
  fst (simplifyClimbTypeJson (Some 0%nat) Inputs.someStore) = 0%nat /\
  deref 0 (snd (simplifyClimbTypeJson (Some 0%nat) Inputs.someStore))
  = [("sport", true); ("trad", true)] /\
  deref 1 (snd (simplifyClimbTypeJson (Some 0%nat) Inputs.someStore))
  = [("ice", false)].
Proof.
  assert (0 < List.length Inputs.someStore)%nat as Ha by (simpl; lia).
  assert (NoDup (map fst (deref 0 Inputs.someStore))) as Hnd.
  { simpl. repeat constructor; simpl; intuition discriminate. }
  destruct (simplifyClimbTypeJson_in_place 0 Inputs.someStore Ha Hnd)
    as (H1 & H2 & _ & H4 & _).
  split; [exact H1|]. split; [exact H2|].
  apply (H4 1%nat). discriminate.
Defined.

Lemma routes_distinct_witness :
  "abc" = "abc" /\
  forall d, urlResolver (-0)%float d = urlResolver 0%float d.
Proof.
  apply (routes_distinct (-0)%float 0%float "abc" "abc" "/climbs/abc");
    reflexivity.
Defined.

Lemma getSlug_routes_witness :
  getSlug "abc" true = getSlug "abc" true /\ "abc" = "abc" /\ true = true.
Proof.
  split; [reflexivity|].
  apply (proj2 (getSlug_routes "abc" "abc" true true)). reflexivity.
Defined.



Lemma result_means_success_status_witness :
  fst (Sirv.upload Inputs.config Inputs.createdServer "/u/abc/new.jpg" "bytes"
                   (Some "caller-token") Inputs.emptyWorld)
  = Ok "/u/abc/new.jpg" /\
  exists _t w1 res,
    Sirv.getAdminTokenIfNotExist Inputs.config Inputs.createdServer
                                 (Some "caller-token") Inputs.emptyWorld
    = (Ok _t, w1) /\
    Inputs.createdServer (sent w1) (uploadRequest "/u/abc/new.jpg" "bytes" _t)
    = Resolves res /\
    (200 <= status res <= 204)%Z.
Proof.
  assert (fst (Sirv.upload Inputs.config Inputs.createdServer "/u/abc/new.jpg" "bytes"
                           (Some "caller-token") Inputs.emptyWorld)
          = Ok "/u/abc/new.jpg") as H by reflexivity.
  split; [exact H|].
  destruct (result_means_success_status
              Inputs.config Inputs.createdServer Inputs.hash Inputs.namespaceURL
              Inputs.lastSegment Inputs.keep Inputs.keep
              (Some "caller-token") Inputs.emptyWorld)
    as (_ & _ & _ & _ & _ & Hup & _).
  apply (Hup "/u/abc/new.jpg" "bytes" "/u/abc/new.jpg" H).
Defined.

Lemma missing_credentials_witness :
  fst (Sirv.upload Inputs.configWithoutAdmin Inputs.server "/u/abc/new.jpg" "bytes"
                   None Inputs.emptyWorld)
  = Throw (Error "Sirv API.getUserImages(): unable to get a token") /\
  sent (snd (Sirv.upload Inputs.configWithoutAdmin Inputs.server "/u/abc/new.jpg"
                         "bytes" None Inputs.emptyWorld)) = [].
Proof.
  destruct (missing_credentials
              Inputs.configWithoutAdmin Inputs.server Inputs.clock Inputs.hash
              Inputs.namespaceURL Inputs.lastSegment Inputs.keep Inputs.keep
              Inputs.lower Inputs.emptyWorld) as [_ H].
  destruct (H (or_introl eq_refl)) as (Hup & _).
  apply (Hup "/u/abc/new.jpg" "bytes").
Defined.

Lemma loadModule_guards_witness :
  exists cfg,
    loadModule Inputs.serverEnv true = Ok cfg /\
    baseUrl cfg = "https://media.example.org" /\
    sent (snd (Sirv.getToken cfg Inputs.server false Inputs.emptyWorld))
    = [Sirv.tokenRequest cfg false].
Proof.
  eexists. split; [reflexivity|].
  destruct (loadModule_guards Inputs.serverEnv true _ eq_refl)
    as (_ & _ & _ & _ & _ & H).
  split; [reflexivity|].
  apply (H eq_refl Inputs.server Inputs.emptyWorld).
Defined.

Lemma createUserDir_after_token_witness :
  fst (Sirv.createUserDir Inputs.config Inputs.tokenOnlyServer "abc" None
                          Inputs.emptyWorld) = Ok false.
Proof.
  apply (createUserDir_after_token
           Inputs.config Inputs.tokenOnlyServer "abc" None Inputs.emptyWorld
           {| sent := [Sirv.tokenRequest Inputs.config true]; console := [] |}
           "fresh-token").
  reflexivity.
Defined.

End MoreWitnesses.
